(** * Imperative CLI framework: command processor and credential manager

    A shallow embedding of
      - [packages/cmd/src/CommandProcessor.ts] (class [CommandProcessor]) and
      - the abstract credential manager ([AbstractCredentialManager])
    together with the properties of the command pipeline that the
    specification states about them. *)

From Stdlib Require Import String Ascii List NArith ZArith Bool Lia.
From Stdlib Require Import DecimalString.
Import ListNotations.

Set Warnings "-register-all".

Local Open Scope string_scope.
Local Open Scope list_scope.

(* ================================================================== *)
(** * JavaScript values that cross the interfaces *)
(* ================================================================== *)

(** The values a handler, the validator or the profile loader may throw, and
    the structured data of a response.  [JsError] is an instance of [Error]
    whose name is "Error" and that is not an [ImperativeError];
    [JsImperativeError] carries the fields of its [details] object
    ([IImperativeError]); its [message] is [details.msg]; [JsTypeError] is
    an instance of [TypeError], hence of [Error], and its name is
    "TypeError".  A field holding [JsUndefined] is an absent field.

    A string is held as the bytes of its UTF-8 form, an unpaired surrogate
    as the three bytes of its generalized form (ED A0..BF 80..BF); a
    surrogate pair is the four bytes of its code point, so that a
    surrogate in three bytes is always an unpaired one.
    [JsNumber n] is the Number value for the integer [n]: the double
    nearest to it. *)
Inductive JsValue : Type :=
| JsUndefined
| JsNull
| JsBoolean (b : bool)
| JsNumber (n : Z)
| JsString (s : string)
| JsArray (items : list JsValue)
| JsObject (fields : list (string * JsValue))
| JsError (message : string) (stack : option string)
| JsImperativeError (msg : string) (additionalDetails : JsValue)
                    (causeErrors : JsValue) (stack : option string)
| JsTypeError (message : string) (stack : option string).

(** [IImperativeError]: the error record attached to a response. *)
Record IImperativeError : Type := mkImperativeError {
  msg : string;
  additionalDetails : JsValue;
  causeErrors : JsValue;
  stack : option string
}.

(** A computation either completes normally or throws (for an [async]
    function: the promise is fulfilled or rejected). *)
Inductive Completion (A : Type) : Type :=
| Normal (a : A)
| Throw (v : JsValue).
Arguments Normal {A} a.
Arguments Throw {A} v.

(** [new ImperativeError({msg: m})] *)
Definition ImperativeError_of_msg (m : string) : JsValue :=
  JsImperativeError m JsUndefined JsUndefined None.

(** The [stack] of an error the engine raises: the header line, made of
    the name and the message of the error.  The frames that follow it in
    the engine name the place of the throw and are not modelled. *)
Definition stack_header (name what : string) : string :=
  name ++ ": " ++ what.

(** The [TypeError] the engine raises, on a property access on
    [undefined] or [null] or on a call of what is not a function: the
    message is [what], and the error carries a stack. *)
Definition TypeError (what : string) : JsValue :=
  JsTypeError what (Some (stack_header "TypeError" what)).


(* ================================================================== *)
(** * Strings and the JavaScript operations the processor applies *)
(* ================================================================== *)

Definition nl : string := String (ascii_of_nat 10) EmptyString.
Definition dq : string := String (ascii_of_nat 34) EmptyString.

(** The string of the given bytes. *)
Definition bytes (l : list nat) : string :=
  string_of_list_ascii (map ascii_of_nat l).

(** The white space and the line terminators that [trim] strips, each in
    its UTF-8 form: U+0009 to U+000D, U+0020, U+00A0, U+1680, U+2000 to
    U+200A, U+2028, U+2029, U+202F, U+205F, U+3000 and U+FEFF. *)
Definition white_space : list string :=
  [bytes [9]; bytes [10]; bytes [11]; bytes [12]; bytes [13]; bytes [32];
   bytes [194; 160];
   bytes [225; 154; 128];
   bytes [226; 128; 128]; bytes [226; 128; 129]; bytes [226; 128; 130];
   bytes [226; 128; 131]; bytes [226; 128; 132]; bytes [226; 128; 133];
   bytes [226; 128; 134]; bytes [226; 128; 135]; bytes [226; 128; 136];
   bytes [226; 128; 137]; bytes [226; 128; 138];
   bytes [226; 128; 168]; bytes [226; 128; 169];
   bytes [226; 128; 175];
   bytes [226; 129; 159];
   bytes [227; 128; 128];
   bytes [239; 187; 191]].

(** [s] without its prefix [w], when it begins with [w]. *)
Fixpoint strip_prefix (w s : string) : option string :=
  match w, s with
  | EmptyString, _ => Some s
  | String a w', String b s' =>
      if Ascii.eqb a b then strip_prefix w' s' else None
  | _, _ => None
  end.

(** [s] without the first of [ws] it begins with. *)
Fixpoint strip_any (ws : list string) (s : string) : option string :=
  match ws with
  | [] => None
  | w :: rest =>
      match strip_prefix w s with
      | Some t => Some t
      | None => strip_any rest s
      end
  end.

(** Strips the members of [ws] from the head of [s], at most [n] times. *)
Fixpoint strip_all (ws : list string) (n : nat) (s : string) : string :=
  match n with
  | O => s
  | S k =>
      match strip_any ws s with
      | Some t => strip_all ws k t
      | None => s
      end
  end.

Definition reverse (s : string) : string :=
  string_of_list_ascii (rev (list_ascii_of_string s)).

(** [s.trimStart()] *)
Definition trimStart (s : string) : string :=
  strip_all white_space (String.length s) s.

(** [s.trimEnd()] *)
Definition trimEnd (s : string) : string :=
  reverse (strip_all (map reverse white_space) (String.length s) (reverse s)).

(** [s.trim()] *)
Definition trim (s : string) : string :=
  trimEnd (trimStart s).

(** [xs.join(sep)] on an array of strings. *)
Definition join (sep : string) (xs : list string) : string :=
  String.concat sep xs.

(** [s.includes(sub)] *)
Definition includes (s sub : string) : bool :=
  match String.index 0 sub s with
  | Some _ => true
  | None => false
  end.

Fixpoint assoc (key : string) (fields : list (string * JsValue)) : JsValue :=
  match fields with
  | [] => JsUndefined
  | (k, v) :: rest => if String.eqb k key then v else assoc key rest
  end.

(** The [details] object of an [ImperativeError]. *)
Definition details_object (m : string) (ad ce : JsValue) (st : option string)
  : JsValue :=
  JsObject [("msg", JsString m); ("additionalDetails", ad);
            ("causeErrors", ce);
            ("stack", match st with Some s => JsString s | None => JsUndefined end)].

(** Property read [v.key]: a [TypeError] on [undefined] and [null],
    [undefined] for a property the value does not have. *)
Definition get_prop (v : JsValue) (key : string) : Completion JsValue :=
  match v with
  | JsUndefined =>
      Throw (TypeError ("Cannot read property '" ++ key ++ "' of undefined"))
  | JsNull =>
      Throw (TypeError ("Cannot read property '" ++ key ++ "' of null"))
  | JsObject fields => Normal (assoc key fields)
  | JsError m st =>
      if String.eqb key "message" then Normal (JsString m)
      else if String.eqb key "stack" then
        Normal (match st with Some s => JsString s | None => JsUndefined end)
      else if String.eqb key "name" then Normal (JsString "Error")
      else Normal JsUndefined
  | JsTypeError m st =>
      if String.eqb key "message" then Normal (JsString m)
      else if String.eqb key "stack" then
        Normal (match st with Some s => JsString s | None => JsUndefined end)
      else if String.eqb key "name" then Normal (JsString "TypeError")
      else Normal JsUndefined
  | JsImperativeError m ad ce st =>
      if String.eqb key "message" then Normal (JsString m)
      else if String.eqb key "details" then Normal (details_object m ad ce st)
      else if String.eqb key "additionalDetails" then Normal ad
      else if String.eqb key "causeErrors" then Normal ce
      else Normal JsUndefined
  | _ => Normal JsUndefined
  end.

(** Truthiness, as [||] and [if] test it. *)
Definition ToBoolean (v : JsValue) : bool :=
  match v with
  | JsUndefined | JsNull => false
  | JsBoolean b => b
  | JsNumber n => negb (Z.eqb n 0)
  | JsString s => negb (String.eqb s EmptyString)
  | _ => true
  end.

(** [Number.prototype.toString], for the Number value of an integer. *)
Module Number_prototype.

Local Open Scope Z_scope.

(** The decimal digits of an integer. *)
Definition decimal (n : Z) : string := NilZero.string_of_int (Z.to_int n).

(** The number of decimal digits of a positive integer. *)
Definition digits (n : Z) : nat := String.length (decimal n).

(** The Number value for a positive integer: the double nearest to it,
    ties going to the even significand; [None] stands for [Infinity]. *)
Definition nearest (n : Z) : option Z :=
  let b := Z.log2 n + 1 in
  if b <=? 53 then Some n
  else
    let sh := b - 53 in
    let q := Z.shiftr n sh in
    let r := n - Z.shiftl q sh in
    let half := Z.shiftl 1 (sh - 1) in
    let q := if (half <? r) || ((r =? half) && Z.odd q) then q + 1 else q in
    let v := Z.shiftl q sh in
    if Z.shiftl 1 1024 <=? v then None else Some v.

(** Twice the bounds of the interval of the reals that round to the
    double [v], and whether the bounds themselves do (they do when the
    significand of [v] is even). *)
Definition interval (v : Z) : Z * Z * bool :=
  let b := Z.log2 v + 1 in
  if b <=? 53 then (2 * v - 1, 2 * v + 1, false)
  else
    let sh := b - 53 in
    let q := Z.shiftr v sh in
    let up := Z.shiftl 1 sh in
    let down := if q =? Z.shiftl 1 52 then Z.shiftl 1 (sh - 1) else up in
    (2 * v - down, 2 * v + up, Z.even q).

(** The multiple of a power of ten with the fewest digits that rounds to
    [v], and among those the nearest to [v]: the candidates are tried from
    one digit on, [p] being the power of ten of the last digit kept. *)
Fixpoint shortest (fuel : nat) (v lo2 hi2 : Z) (incl : bool) (p : Z) : Z :=
  match fuel with
  | O => v
  | S fuel =>
      let s := v / p in
      let c1 := s * p in
      let c2 := (s + 1) * p in
      let within c :=
        if incl then (lo2 <=? 2 * c) && (2 * c <=? hi2)
        else (lo2 <? 2 * c) && (2 * c <? hi2) in
      match within c1, within c2 with
      | true, true =>
          if v - c1 <? c2 - v then c1
          else if c2 - v <? v - c1 then c2
          else if Z.even s then c1 else c2
      | true, false => c1
      | false, true => c2
      | false, false => shortest fuel v lo2 hi2 incl (p / 10)
      end
  end.

Fixpoint strip_zeros (fuel : nat) (c : Z) : Z :=
  match fuel with
  | O => c
  | S fuel => if c mod 10 =? 0 then strip_zeros fuel (c / 10) else c
  end.

(** The form with an exponent, used from 1e21 on. *)
Definition exponent_form (c : Z) : string :=
  let n := digits c in
  let e := ("e+" ++ decimal (Z.of_nat n - 1))%string in
  match decimal (strip_zeros n c) with
  | EmptyString => EmptyString
  | String d EmptyString => String d e
  | String d rest => String d ("." ++ rest ++ e)%string
  end.

Definition toString_positive (n : Z) : string :=
  match nearest n with
  | None => "Infinity"%string
  | Some v =>
      let '(lo2, hi2, incl) := interval v in
      let c := shortest (digits v) v lo2 hi2 incl (10 ^ (Z.of_nat (digits v) - 1)) in
      if c <? 10 ^ 21 then decimal c else exponent_form c
  end.

Definition toString (n : Z) : string :=
  if n =? 0 then "0"%string
  else if n <? 0 then ("-" ++ toString_positive (- n))%string
  else toString_positive n.

End Number_prototype.

(** [ToString], as string concatenation and template literals apply it. *)
Fixpoint ToString (v : JsValue) : string :=
  match v with
  | JsUndefined => "undefined"
  | JsNull => "null"
  | JsBoolean true => "true"
  | JsBoolean false => "false"
  | JsNumber n => Number_prototype.toString n
  | JsString s => s
  | JsArray items =>
      join ","
        (map (fun x => match x with
                       | JsUndefined | JsNull => EmptyString
                       | _ => ToString x
                       end) items)
  | JsObject _ => "[object Object]"
  | JsError m _ =>
      if String.eqb m EmptyString then "Error" else "Error: " ++ m
  | JsImperativeError m _ _ _ =>
      if String.eqb m EmptyString then "Error" else "Error: " ++ m
  | JsTypeError m _ =>
      if String.eqb m EmptyString then "TypeError" else "TypeError: " ++ m
  end.

(** [message.toString()], as the console of a response takes the text of
    the message it is given: a [TypeError] on [undefined] and [null]. *)
Definition toString_method (v : JsValue) : Completion string :=
  match v with
  | JsUndefined =>
      Throw (TypeError "Cannot read property 'toString' of undefined")
  | JsNull =>
      Throw (TypeError "Cannot read property 'toString' of null")
  | _ => Normal (ToString v)
  end.

Definition is_ImperativeError (v : JsValue) : bool :=
  match v with
  | JsImperativeError _ _ _ _ => true
  | _ => false
  end.

(* ================================================================== *)
(** * Node's [Buffer] with the "base64" encoding *)
(* ================================================================== *)

Module Buffer.

Local Open Scope N_scope.

(** A buffer is its bytes. *)
Definition Buffer := list ascii.

(** The byte [c] lies between [lo] and [hi]. *)
Definition byte_in (lo hi : N) (c : ascii) : bool :=
  (lo <=? N_of_ascii c) && (N_of_ascii c <=? hi).

(** U+FFFD, the replacement character, in UTF-8. *)
Definition replacement : list ascii :=
  [ascii_of_N 239; ascii_of_N 191; ascii_of_N 189].

(** The UTF-8 encoding of a string: its bytes, with U+FFFD in the place of
    each unpaired surrogate. *)
Fixpoint encode_utf8 (cs : list ascii) : Buffer :=
  match cs with
  | [] => []
  | a :: tl =>
      match tl with
      | b :: c :: rest =>
          if (N_of_ascii a =? 237) && byte_in 160 191 b && byte_in 128 191 c
          then replacement ++ encode_utf8 rest
          else a :: encode_utf8 tl
      | _ => a :: encode_utf8 tl
      end
  end.

(** The UTF-8 decoding of a buffer: the well-formed sequences are kept,
    and U+FFFD stands for each maximal part of an ill-formed one (a lead
    byte with the continuation bytes that fit it, or a single byte that
    fits nowhere); decoding goes on from the byte that did not fit. *)
Fixpoint decode_utf8 (bs : Buffer) : list ascii :=
  match bs with
  | [] => []
  | a :: r =>
      let k := N_of_ascii a in
      if k <? 128 then a :: decode_utf8 r
      else if byte_in 194 223 a then
        match r with
        | [] => replacement
        | b :: r1 =>
            if byte_in 128 191 b then a :: b :: decode_utf8 r1
            else replacement ++ decode_utf8 r
        end
      else if byte_in 224 239 a then
        let lo := if k =? 224 then 160 else 128 in
        let hi := if k =? 237 then 159 else 191 in
        match r with
        | [] => replacement
        | b :: r1 =>
            if byte_in lo hi b then
              match r1 with
              | [] => replacement
              | c :: r2 =>
                  if byte_in 128 191 c then a :: b :: c :: decode_utf8 r2
                  else replacement ++ decode_utf8 r1
              end
            else replacement ++ decode_utf8 r
        end
      else if byte_in 240 244 a then
        let lo := if k =? 240 then 144 else 128 in
        let hi := if k =? 244 then 143 else 191 in
        match r with
        | [] => replacement
        | b :: r1 =>
            if byte_in lo hi b then
              match r1 with
              | [] => replacement
              | c :: r2 =>
                  if byte_in 128 191 c then
                    match r2 with
                    | [] => replacement
                    | d :: r3 =>
                        if byte_in 128 191 d
                        then a :: b :: c :: d :: decode_utf8 r3
                        else replacement ++ decode_utf8 r2
                    end
                  else replacement ++ decode_utf8 r1
              end
            else replacement ++ decode_utf8 r
        end
      else replacement ++ decode_utf8 r
  end.

(** [Buffer.from(s)]: the bytes of the UTF-8 encoding of [s]. *)
Definition from (s : string) : Buffer := encode_utf8 (list_ascii_of_string s).

(** [buf.toString()]: the string the bytes decode to as UTF-8. *)
Definition toString (b : Buffer) : string :=
  string_of_list_ascii (decode_utf8 b).

(** Well-formed UTF-8: the byte sequences of the code points other than
    the surrogates, in their shortest form. *)
Fixpoint well_formed (bs : list ascii) : bool :=
  match bs with
  | [] => true
  | a :: r =>
      let k := N_of_ascii a in
      if k <? 128 then well_formed r
      else if byte_in 194 223 a then
        match r with
        | b :: r1 => byte_in 128 191 b && well_formed r1
        | _ => false
        end
      else if byte_in 224 239 a then
        let lo := if k =? 224 then 160 else 128 in
        let hi := if k =? 237 then 159 else 191 in
        match r with
        | b :: c :: r2 =>
            byte_in lo hi b && byte_in 128 191 c && well_formed r2
        | _ => false
        end
      else if byte_in 240 244 a then
        let lo := if k =? 240 then 144 else 128 in
        let hi := if k =? 244 then 143 else 191 in
        match r with
        | b :: c :: d :: r3 =>
            byte_in lo hi b && byte_in 128 191 c && byte_in 128 191 d
            && well_formed r3
        | _ => false
        end
      else false
  end.

(** [s.isWellFormed()]: the string has no unpaired surrogate. *)
Definition isWellFormed (s : string) : bool :=
  well_formed (list_ascii_of_string s).

(** The standard alphabet: A-Z, a-z, 0-9, '+', '/'. *)
Definition encode_sextet (n : N) : ascii :=
  if n <? 26 then ascii_of_N (65 + n)
  else if n <? 52 then ascii_of_N (97 + (n - 26))
  else if n <? 62 then ascii_of_N (48 + (n - 52))
  else if n =? 62 then "+"%char
  else "/"%char.

(** The decoder also accepts the URL-safe '-' and '_'. *)
Definition decode_sextet (c : ascii) : option N :=
  let k := N_of_ascii c in
  if (65 <=? k) && (k <=? 90) then Some (k - 65)
  else if (97 <=? k) && (k <=? 122) then Some (k - 71)
  else if (48 <=? k) && (k <=? 57) then Some (k + 4)
  else if (k =? 43) || (k =? 45) then Some 62
  else if (k =? 47) || (k =? 95) then Some 63
  else None.

Definition pad : ascii := "="%char.

(** [buf.toString("base64")]: three bytes give four characters, the last
    group is padded with '='. *)
Fixpoint encode (bs : Buffer) : list ascii :=
  match bs with
  | [] => []
  | [a] =>
      let x := N_of_ascii a in
      [encode_sextet (x / 4); encode_sextet ((x mod 4) * 16); pad; pad]
  | [a; b] =>
      let x := N_of_ascii a in
      let y := N_of_ascii b in
      [encode_sextet (x / 4); encode_sextet ((x mod 4) * 16 + y / 16);
       encode_sextet ((y mod 16) * 4); pad]
  | a :: b :: c :: rest =>
      let x := N_of_ascii a in
      let y := N_of_ascii b in
      let z := N_of_ascii c in
      encode_sextet (x / 4) :: encode_sextet ((x mod 4) * 16 + y / 16)
        :: encode_sextet ((y mod 16) * 4 + z / 64) :: encode_sextet (z mod 64)
        :: encode rest
  end.

(** [Buffer.from(s, "base64")] reads up to the first '=' and skips the
    characters outside the alphabet. *)
Fixpoint sextets (cs : list ascii) : list N :=
  match cs with
  | [] => []
  | c :: r =>
      if Ascii.eqb c pad then []
      else match decode_sextet c with
           | Some v => v :: sextets r
           | None => sextets r
           end
  end.

Fixpoint bytes_of_sextets (l : list N) : Buffer :=
  match l with
  | s0 :: s1 :: s2 :: s3 :: rest =>
      ascii_of_N (s0 * 4 + s1 / 16)
        :: ascii_of_N ((s1 mod 16) * 16 + s2 / 4)
        :: ascii_of_N ((s2 mod 4) * 64 + s3)
        :: bytes_of_sextets rest
  | [s0; s1; s2] =>
      [ascii_of_N (s0 * 4 + s1 / 16); ascii_of_N ((s1 mod 16) * 16 + s2 / 4)]
  | [s0; s1] => [ascii_of_N (s0 * 4 + s1 / 16)]
  | _ => []
  end.

Definition toString_base64 (b : Buffer) : string :=
  string_of_list_ascii (encode b).

Definition from_base64 (s : string) : Buffer :=
  bytes_of_sextets (sextets (list_ascii_of_string s)).

(** The decoder reads back the character of a sextet, which is not the
    padding character. *)
Definition sextet_ok (n : N) : bool :=
  match decode_sextet (encode_sextet n) with
  | Some m => N.eqb m n
  | None => false
  end && negb (Ascii.eqb (encode_sextet n) pad).

End Buffer.

(* ================================================================== *)
(** * The abstract credential manager *)
(* ================================================================== *)

Module CredentialManager.

(** [SecureCredential]: the string handed to the backing store. *)
Definition SecureCredential := string.

(** The argument [secureValue] of [save]: typed [string], it can still be
    [undefined] or [null] at run time, which [save] tests for. *)
Inductive SecureValue : Type :=
| Undefined
| Null
| Str (s : string).

(** A method of the manager runs on the state of the backing store, and
    returns or throws. *)
Definition Op (Store A : Type) : Type := Store -> Store * Completion A.

Definition ret {Store A : Type} (a : A) : Op Store A :=
  fun st => (st, Normal a).

Definition throw {Store A : Type} (v : JsValue) : Op Store A :=
  fun st => (st, Throw v).

Definition bind {Store A B : Type} (m : Op Store A) (k : A -> Op Store B)
  : Op Store B :=
  fun st =>
    match m st with
    | (st', Normal a) => k a st'
    | (st', Throw v) => (st', Throw v)
    end.

Notation "x <- m ;; k" := (bind m (fun x => k))
  (at level 61, m at next level, right associativity).

(** The three abstract methods a concrete manager implements. *)
Class Backing (Store : Type) : Type := {
  deleteCredentials : string -> Op Store unit;
  loadCredentials : string -> Op Store SecureCredential;
  saveCredentials : string -> SecureCredential -> Op Store unit
}.

Definition isNullOrUndefined (v : SecureValue) : bool :=
  match v with
  | Undefined | Null => true
  | Str _ => false
  end.

(** The strict comparison of [secureValue] with the empty string. *)
Definition notEmptyString (v : SecureValue) : bool :=
  match v with
  | Str s => negb (String.eqb s EmptyString)
  | _ => true
  end.

(** The template literal [`${secureValue}`]. *)
Definition template (v : SecureValue) : string :=
  match v with
  | Undefined => "undefined"
  | Null => "null"
  | Str s => s
  end.

(** The secrets [save] refuses: absent, or the empty string. *)
Definition missing (v : SecureValue) : Prop :=
  v = Undefined \/ v = Null \/ v = Str EmptyString.

Section Manager.

Context {Store : Type} `{Backing Store}.

Definition delete (account : string) : Op Store unit :=
  deleteCredentials account.

Definition load (account : string) : Op Store string :=
  encodedString <- loadCredentials account ;;
  ret (Buffer.toString (Buffer.from_base64 encodedString)).

Definition save (account : string) (secureValue : SecureValue)
  : Op Store unit :=
  if negb (isNullOrUndefined secureValue) && notEmptyString secureValue then
    let encodedString :=
      Buffer.toString_base64 (Buffer.from (template secureValue)) in
    saveCredentials account encodedString
  else
    throw (ImperativeError_of_msg "Missing Secure Field").

End Manager.

(** A backing store kept in memory: the latest credential saved for an
    account is the one loaded. *)
Definition MemoryStore := list (string * SecureCredential).

Fixpoint lookup (account : string) (st : MemoryStore)
  : option SecureCredential :=
  match st with
  | [] => None
  | (a, c) :: rest => if String.eqb a account then Some c else lookup account rest
  end.

#[export] Instance MemoryBacking : Backing MemoryStore := {
  deleteCredentials account :=
    fun st => (filter (fun e => negb (String.eqb (fst e) account)) st, Normal tt);
  loadCredentials account :=
    fun st =>
      match lookup account st with
      | Some c => (st, Normal c)
      | None => (st, Throw (ImperativeError_of_msg "Unable to load credentials."))
      end;
  saveCredentials account credentials :=
    fun st => ((account, credentials) :: st, Normal tt)
}.

End CredentialManager.

(* ================================================================== *)
(** * The command processor *)
(* ================================================================== *)

Module Cmd.

(** ** Data model *)

(** [yargs.Arguments]: the positional list under the key [_] ([None] when
    that key does not hold an array) and the named options. *)
Record Arguments : Type := mkArguments {
  underscore : option (list string);
  options : list (string * JsValue)
}.

(** [IInvokeCommandParms], with the fields [invoke] reads. *)
Record IInvokeCommandParms : Type := mkInvokeParms {
  arguments : option Arguments;
  silent : option bool;
  responseFormat : option string
}.

(** Modelled from the spec: an argument mapping of a chained step
    ([argMapping] of the ChainedStep); its declaration is not in the
    sources and the processor does not read it. *)
Record IChainedHandlerArgumentMapping : Type := mkMapping {
  fromPriorStepIndex : nat;
  jsonPath : string;
  toArg : string
}.

(** [IChainedHandlerEntry], with the fields the loop reads. *)
Record IChainedHandlerEntry : Type := mkChained {
  chained_handler : string;
  chained_silent : option bool;
  mapping : list IChainedHandlerArgumentMapping
}.

(** [ICommandDefinition]: the fields the processor itself reads. *)
Record ICommandDefinition : Type := mkDefinition {
  name : string;
  type : string;
  handler : option string;
  chainedHandlers : option (list IChainedHandlerEntry)
}.

(** [ICommandValidatorResponse], with the field [invoke] reads. *)
Record ICommandValidatorResponse : Type := mkValidator {
  valid : bool
}.

(** [ICommandPrepared]: what [prepare] returns. *)
Record ICommandPrepared : Type := mkPrepared {
  profiles : JsValue
}.

(** ** The response object

    [CommandResponse] is not part of the sources at hand; it is modelled
    from the specification of the Response (section 4.B). *)

(** Modelled from the spec: what a console call appends to a buffer of the
    Response: text, an error header, or a buffer, [Raw s] being the buffer
    [Buffer.from(s)].  How each is rendered is the business of the missing
    [CommandResponse]. *)
Inductive Chunk : Type :=
| Text (s : string)
| Header (s : string)
| Raw (bytes : string).

(** Modelled from the spec: [ICommandResponse], the snapshot that
    [finalize()] returns, with the fields of the JSON response document. *)
Record ICommandResponse : Type := mkSnapshot {
  success : bool;
  exitCode : Z;
  message : string;
  stdout : list Chunk;
  stderr : list Chunk;
  data : JsValue;
  error : option IImperativeError
}.

(** Modelled from the spec: the state of a [CommandResponse], the
    accumulator of section 3. *)
Record CommandResponse : Type := mkResponse {
  mSucceeded : bool;
  mMessage : string;
  mData : JsValue;
  mStdout : list Chunk;
  mStderr : list Chunk;
  mError : option IImperativeError;
  mProgressBar : bool;
  mSilent : bool;
  mResponseFormat : string
}.

(** What the processor and its collaborators do to the world outside the
    response objects, in the order in which it happens. *)
Inductive Event : Type :=
| WriteStdout (c : Chunk)
| WriteStderr (c : Chunk)
| WriteJson (json : ICommandResponse)
| CallValidate
| CallReadStdin
| CallLoadProfiles
| CallRequire (handlerPath : string)
| CallProcess (handlerPath : string).

(** ** Effects: a trace of events and a completion *)

Definition Eff (A : Type) : Type := (list Event * Completion A)%type.

Definition ret {A : Type} (a : A) : Eff A := ([], Normal a).

Definition throw {A : Type} (v : JsValue) : Eff A := ([], Throw v).

Definition emit (e : Event) : Eff unit := ([e], Normal tt).

Definition bind {A B : Type} (m : Eff A) (k : A -> Eff B) : Eff B :=
  match snd m with
  | Normal a => let r := k a in (fst m ++ fst r, snd r)
  | Throw v => (fst m, Throw v)
  end.

(** A completion obtained without effects. *)
Definition lift {A : Type} (c : Completion A) : Eff A := ([], c).

(** The events of a computation, and how it completes. *)
Definition events {A : Type} (m : Eff A) : list Event := fst m.
Definition completion {A : Type} (m : Eff A) : Completion A := snd m.

Notation "x <- m ;; k" := (bind m (fun x => k))
  (at level 61, m at next level, right associativity).
Notation "' pat <- m ;; k" := (bind m (fun x => match x with pat => k end))
  (at level 61, pat pattern, m at next level, right associativity).
Notation "m ;;; k" := (bind m (fun _ => k))
  (at level 61, right associativity).

(** ** Operations of the response (modelled from the specification) *)

(** Modelled from the spec: the constructor of [CommandResponse], missing
    from the sources; a fresh Response has succeeded, carries no error and
    empty buffers, and its format is "default" unless one is given. *)
Definition new_CommandResponse (args : option Arguments) (silent : bool)
  (responseFormat : option string) : CommandResponse :=
  {| mSucceeded := true; mMessage := EmptyString; mData := JsObject [];
     mStdout := []; mStderr := []; mError := None; mProgressBar := false;
     mSilent := silent;
     mResponseFormat :=
       match responseFormat with Some f => f | None => "default" end |}.

(** Modelled from the spec: [succeeded()] of the missing [CommandResponse]. *)
Definition succeeded (r : CommandResponse) : CommandResponse :=
  {| mSucceeded := true; mMessage := mMessage r; mData := mData r;
     mStdout := mStdout r; mStderr := mStderr r; mError := mError r;
     mProgressBar := mProgressBar r; mSilent := mSilent r;
     mResponseFormat := mResponseFormat r |}.

(** Modelled from the spec: [failed()] of the missing [CommandResponse]. *)
Definition failed (r : CommandResponse) : CommandResponse :=
  {| mSucceeded := false; mMessage := mMessage r; mData := mData r;
     mStdout := mStdout r; mStderr := mStderr r; mError := mError r;
     mProgressBar := mProgressBar r; mSilent := mSilent r;
     mResponseFormat := mResponseFormat r |}.

(** Modelled from the spec: [setError] of the missing [CommandResponse];
    setting the error implies failure. *)
Definition setError (r : CommandResponse) (e : IImperativeError)
  : CommandResponse :=
  {| mSucceeded := false; mMessage := mMessage r; mData := mData r;
     mStdout := mStdout r; mStderr := mStderr r; mError := Some e;
     mProgressBar := mProgressBar r; mSilent := mSilent r;
     mResponseFormat := mResponseFormat r |}.

(** Modelled from the spec: [data.setMessage] of the missing
    [CommandResponse]. *)
Definition setMessage (r : CommandResponse) (m : string) : CommandResponse :=
  {| mSucceeded := mSucceeded r; mMessage := m; mData := mData r;
     mStdout := mStdout r; mStderr := mStderr r; mError := mError r;
     mProgressBar := mProgressBar r; mSilent := mSilent r;
     mResponseFormat := mResponseFormat r |}.

(** Modelled from the spec: [data.setObj] of the missing [CommandResponse]. *)
Definition setObj (r : CommandResponse) (v : JsValue) : CommandResponse :=
  {| mSucceeded := mSucceeded r; mMessage := mMessage r; mData := v;
     mStdout := mStdout r; mStderr := mStderr r; mError := mError r;
     mProgressBar := mProgressBar r; mSilent := mSilent r;
     mResponseFormat := mResponseFormat r |}.

(** Modelled from the spec: [bufferStdout] of the missing [CommandResponse]:
    appends to the buffer without writing to the stream. *)
Definition bufferStdout (r : CommandResponse) (d : list Chunk)
  : CommandResponse :=
  {| mSucceeded := mSucceeded r; mMessage := mMessage r; mData := mData r;
     mStdout := mStdout r ++ d; mStderr := mStderr r; mError := mError r;
     mProgressBar := mProgressBar r; mSilent := mSilent r;
     mResponseFormat := mResponseFormat r |}.

(** Modelled from the spec: [bufferStderr] of the missing [CommandResponse]. *)
Definition bufferStderr (r : CommandResponse) (d : list Chunk)
  : CommandResponse :=
  {| mSucceeded := mSucceeded r; mMessage := mMessage r; mData := mData r;
     mStdout := mStdout r; mStderr := mStderr r ++ d; mError := mError r;
     mProgressBar := mProgressBar r; mSilent := mSilent r;
     mResponseFormat := mResponseFormat r |}.

(** Modelled from the spec: the progress indicator of the missing
    [CommandResponse]; at most one is active. *)
Definition setProgressBar (r : CommandResponse) (active : bool)
  : CommandResponse :=
  {| mSucceeded := mSucceeded r; mMessage := mMessage r; mData := mData r;
     mStdout := mStdout r; mStderr := mStderr r; mError := mError r;
     mProgressBar := active; mSilent := mSilent r;
     mResponseFormat := mResponseFormat r |}.

(** Modelled from the spec: [endProgress()], here [endProgressBar] of the
    missing [CommandResponse]. *)
Definition endProgressBar (r : CommandResponse) : CommandResponse :=
  setProgressBar r false.

(** Modelled from the spec: [log(stream, bytes|text)] of the missing
    [CommandResponse], here [console.log]: appends to the buffer and
    re-emits on the stream unless the response is silent. *)
Definition console_log (r : CommandResponse) (c : Chunk) : Eff CommandResponse :=
  (if mSilent r then [] else [WriteStdout c], Normal (bufferStdout r [c])).

(** Modelled from the spec: [log(stream, bytes|text)] on stderr, here
    [console.error] of the missing [CommandResponse]. *)
Definition console_error (r : CommandResponse) (c : Chunk)
  : Eff CommandResponse :=
  (if mSilent r then [] else [WriteStderr c], Normal (bufferStderr r [c])).

(** Modelled from the spec: [console.error(message)] for a message that
    is handed over as it was read from another object: the text logged is
    [message.toString()], so that the call throws a [TypeError] when the
    message is [undefined] or [null]. *)
Definition console_error_of (r : CommandResponse) (message : JsValue)
  : Eff CommandResponse :=
  text <- lift (toString_method message) ;;
  console_error r (Text text).

(** Modelled from the spec: [console.errorHeader] of the missing
    [CommandResponse]: a header on stderr. *)
Definition console_errorHeader (r : CommandResponse) (m : string)
  : Eff CommandResponse :=
  console_error r (Header m).

(** Modelled from the spec: [finalize()], here [buildJsonResponse] of the
    missing [CommandResponse]; the exit code is 0 on success and 1 on
    failure (section 6). *)
Definition buildJsonResponse (r : CommandResponse) : ICommandResponse :=
  {| success := mSucceeded r;
     exitCode := if mSucceeded r then 0%Z else 1%Z;
     message := mMessage r;
     stdout := mStdout r;
     stderr := mStderr r;
     data := mData r;
     error := mError r |}.

(** Modelled from the spec: [writeJson()], here [writeJsonResponse] of the
    missing [CommandResponse]: the snapshot goes to stdout as one document. *)
Definition writeJsonResponse (r : CommandResponse) : Eff unit :=
  emit (WriteJson (buildJsonResponse r)).

(** ** Collaborators *)

(** The calls a collaborator (validator, stdin reader, handler) makes on
    the response it is given. *)
Inductive ResponseAction : Type :=
| ConsoleLog (c : Chunk)
| ConsoleError (c : Chunk)
| ConsoleErrorHeader (m : string)
| DataSetObj (v : JsValue)
| DataSetMessage (m : string)
| ProgressBegin
| ProgressEnd
| MarkFailed
| MarkSucceeded.

(** A collaborator's run: its calls on the response, then its completion.
    The calls made before a throw stay made. *)
Definition Interaction (A : Type) : Type :=
  (list ResponseAction * Completion A)%type.

(** [IHandlerParameters], as [invoke] fills it (the response is passed
    alongside). *)
Record IHandlerParameters : Type := mkHandlerParameters {
  hp_profiles : JsValue;
  hp_arguments : Arguments;
  hp_definition : ICommandDefinition;
  hp_fullDefinition : ICommandDefinition;
  isChained : bool
}.

(** [ICommandHandler]: the instantiated handler; [process] is [None] when
    the object has no such method. *)
Record ICommandHandler : Type := mkHandler {
  process : option (IHandlerParameters -> Interaction unit)
}.

(** What the processor imports from the rest of the framework and from the
    host: constants, message formatting, the syntax validator, the stdin
    reader, the profile loader, the module loader and the chained-handler
    service. *)
Record Host : Type := mkHost {
  (** [Constants.JSON_OPTION] *)
  JSON_OPTION : string;
  (** [TextUtils.formatMessage(couldNotInstatiateCommandHandler.message,
      {commandHandler, definitionName})] *)
  couldNotInstatiateCommandHandler : string -> string -> string;
  (** [nodePath.normalize] *)
  normalize : string -> string;
  (** [new SyntaxValidator(definition, fullDefinition).validate] *)
  SyntaxValidator_validate :
    ICommandDefinition -> ICommandDefinition -> Arguments ->
    Interaction ICommandValidatorResponse;
  (** [SharedOptions.readStdinIfRequested]; gives the arguments object as
      it is after the call. *)
  readStdinIfRequested : Arguments -> string -> Interaction Arguments;
  (** [CommandProfileLoader.loader(...).loadProfiles] *)
  loadProfiles : ICommandDefinition -> Arguments -> Completion JsValue;
  (** [new (require(handlerPath)).default()] *)
  require_default : string -> Completion ICommandHandler;
  (** [ChainedHandlerService.getArguments] *)
  getArguments :
    string -> list IChainedHandlerEntry -> nat -> list JsValue -> Arguments ->
    Completion Arguments
}.

(** Modelled from the spec: [unexpectedCommandError.message], a constant of
    the missing messages module; the error-mapping table gives its text. *)
Definition unexpectedCommandError : string := "Unexpected Command Error".

(** Modelled from the spec: [ImperativeExpect.toNotBeNullOrUndefined],
    missing from the sources; a failed expectation is a thrown
    [ImperativeError] (the programmer errors of the constructor are raised
    through it). *)
Definition ImperativeExpect_toNotBeNullOrUndefined {A : Type}
  (obj : option A) (msg : string) : Eff A :=
  match obj with
  | Some a => ret a
  | None => throw (ImperativeError_of_msg msg)
  end.

(** Modelled from the spec: [ImperativeExpect.toBeOneOf], missing from
    the sources. *)
Definition ImperativeExpect_toBeOneOf (obj : string) (objs : list string)
  (msg : string) : Eff unit :=
  if existsb (String.eqb obj) objs then ret tt
  else throw (ImperativeError_of_msg msg).

(** Modelled from the spec: [ImperativeExpect.toBeAnArray], missing from
    the sources. *)
Definition ImperativeExpect_toBeAnArray {A : Type} (obj : option (list A))
  (msg : string) : Eff (list A) :=
  match obj with
  | Some a => ret a
  | None => throw (ImperativeError_of_msg msg)
  end.

(** Modelled from the spec: [ImperativeExpect.toNotBeEqual], missing from
    the sources. *)
Definition ImperativeExpect_toNotBeEqual (actual expected msg : string)
  : Eff unit :=
  if String.eqb actual expected then throw (ImperativeError_of_msg msg)
  else ret tt.

(** ** The class *)

(** The fields of a [CommandProcessor] that [invoke] reads; the help
    generator and the profile manager factory act through the [Host]. *)
Record CommandProcessor : Type := mkProcessor {
  mCommandRootName : string;
  mDefinition : ICommandDefinition;
  mFullDefinition : ICommandDefinition
}.

Definition ERROR_TAG : string := "Command Processor Error:".

(** One call of a collaborator on the response. *)
Definition apply_action (r : CommandResponse) (a : ResponseAction)
  : Eff CommandResponse :=
  match a with
  | ConsoleLog c => console_log r c
  | ConsoleError c => console_error r c
  | ConsoleErrorHeader m => console_errorHeader r m
  | DataSetObj v => ret (setObj r v)
  | DataSetMessage m => ret (setMessage r m)
  | ProgressBegin => ret (setProgressBar r true)
  | ProgressEnd => ret (endProgressBar r)
  | MarkFailed => ret (failed r)
  | MarkSucceeded => ret (succeeded r)
  end.

Fixpoint apply_actions (r : CommandResponse) (l : list ResponseAction)
  : Eff CommandResponse :=
  match l with
  | [] => ret r
  | a :: l' => r' <- apply_action r a ;; apply_actions r' l'
  end.

(** Runs a collaborator on a response: the response as it leaves it, and
    how it completed. *)
Definition interact {A : Type} (r : CommandResponse) (x : Interaction A)
  : Eff (CommandResponse * Completion A) :=
  r' <- apply_actions r (fst x) ;; ret (r', snd x).

Section Processor.

Variable H : Host.
Variable this : CommandProcessor.

Definition rootCommand : string := mCommandRootName this.
Definition definition : ICommandDefinition := mDefinition this.
Definition fullDefinition : ICommandDefinition := mFullDefinition this.

Definition validate (commandArguments : Arguments)
  (responseObject : CommandResponse)
  : Eff (CommandResponse * Completion ICommandValidatorResponse) :=
  emit CallValidate ;;;
  interact responseObject
    (SyntaxValidator_validate H (mDefinition this) (mFullDefinition this)
       commandArguments).

Definition prepare (response : CommandResponse) (commandArguments : Arguments)
  : Eff (CommandResponse * Completion (Arguments * ICommandPrepared)) :=
  emit CallReadStdin ;;;
  '(response, stdin) <-
     interact response
       (readStdinIfRequested H commandArguments (type definition)) ;;
  match stdin with
  | Throw e => ret (response, Throw e)
  | Normal commandArguments =>
      emit CallLoadProfiles ;;;
      match loadProfiles H definition commandArguments with
      | Throw e => ret (response, Throw e)
      | Normal profiles =>
          ret (response, Normal (commandArguments, {| profiles := profiles |}))
      end
  end.

Definition constructResponseObject (params : IInvokeCommandParms)
  : CommandResponse :=
  new_CommandResponse (arguments params)
    (match silent params with None => false | Some s => s end)
    (responseFormat params).

Definition attemptHandlerLoad (response : CommandResponse)
  (handlerPath : string) : Eff (CommandResponse * option ICommandHandler) :=
  emit (CallRequire handlerPath) ;;;
  match require_default H handlerPath with
  | Normal handler => ret (response, Some handler)
  | Throw handlerErr =>
      handlerErr_message <- lift (get_prop handlerErr "message") ;;
      let errorMessage :=
        couldNotInstatiateCommandHandler H
          (let n := normalize H handlerPath in
           if String.eqb n EmptyString
           then dq ++ "undefined or not specified" ++ dq else n)
          (name definition) in
      let response := failed response in
      response <- console_errorHeader response "Handler Instantiation Failed" ;;
      response <- console_error response (Text errorMessage) ;;
      let response := setMessage response errorMessage in
      response <- console_errorHeader response "Error Details" ;;
      response <- console_error_of response handlerErr_message ;;
      let response :=
        setError response
          {| msg := errorMessage; additionalDetails := handlerErr_message;
             causeErrors := JsUndefined; stack := None |} in
      ret (response, None)
  end.

Definition finishResponse (response : option CommandResponse)
  : Eff ICommandResponse :=
  match response with
  | None =>
      throw (TypeError "Cannot read property 'buildJsonResponse' of undefined")
  | Some response =>
      let json := buildJsonResponse response in
      (if negb (mSilent response) then
         if String.eqb (mResponseFormat response) "json" then
           writeJsonResponse response
         else if String.eqb (mResponseFormat response) "default" then
           ret tt
         else
           throw (ImperativeError_of_msg
                    (ERROR_TAG ++ " The response format specified (" ++ dq
                       ++ mResponseFormat response ++ dq ++ ") is not valid."))
       else ret tt) ;;;
      ret json
  end.

Definition handleHandlerError (handlerErr : JsValue)
  (response : CommandResponse) (handlerPath : string) : Eff CommandResponse :=
  let response := failed response in
  let response := endProgressBar response in
  match handlerErr with
  | JsImperativeError m ad ce st =>
      (* handlerErr instanceof ImperativeError *)
      let response :=
        setError response
          {| msg := m; additionalDetails := ad; causeErrors := ce;
             stack := st |} in
      response <- console_errorHeader response "Command Error" ;;
      response <- console_error response (Raw (m ++ nl)) ;;
      response <-
        match ad with
        | JsString details =>
            response <- console_errorHeader response "Error Details" ;;
            console_error response (Text details)
        | _ => ret response
        end ;;
      ret (setMessage response m)
  | JsError m st | JsTypeError m st =>
      (* handlerErr instanceof Error *)
      let response :=
        setError response
          {| msg := m; additionalDetails := JsUndefined;
             causeErrors := JsUndefined; stack := st |} in
      let response := setMessage response (unexpectedCommandError ++ ": " ++ m) in
      response <- console_errorHeader response unexpectedCommandError ;;
      response <-
        console_error response
          (Text ("Please review the message and stack below." ++ nl
                 ++ "Contact the creator of handler:" ++ nl
                 ++ dq ++ handlerPath ++ dq)) ;;
      response <- console_errorHeader response "Message" ;;
      response <-
        (if negb (String.eqb m EmptyString)
         then console_error response (Text m)
         else console_error response (Text "No message present in the error.")) ;;
      response <- console_errorHeader response "Stack" ;;
      match st with
      | Some s =>
          if negb (String.eqb s EmptyString)
          then console_error response (Text s)
          else console_error response
                 (Text "No error stack present in the error.")
      | None =>
          console_error response (Text "No error stack present in the error.")
      end
  | JsString s =>
      (* typeof handlerErr === "string" *)
      response <- console_errorHeader response "Command Error" ;;
      response <- console_error response (Text s) ;;
      let response := setMessage response s in
      ret (setError response
             {| msg := s; additionalDetails := JsUndefined;
                causeErrors := JsUndefined; stack := None |})
  | JsUndefined | JsNull =>
      (* handlerErr == null *)
      let response := setMessage response "Command failed" in
      ret (setError response
             {| msg := "Command Failed"; additionalDetails := JsUndefined;
                causeErrors := JsUndefined; stack := None |})
  | _ =>
      response <- console_errorHeader response unexpectedCommandError ;;
      response <-
        console_error response
          (Text "The command indicated failure through an unexpected means.") ;;
      response <- console_error response (Text "Contact the creator of handler:") ;;
      response <- console_error response (Text (dq ++ handlerPath ++ dq)) ;;
      ret (setObj response handlerErr)
  end.

(** [await handler.process(params)] inside its [try]: the response as the
    handler leaves it and the handler's completion. *)
Definition call_process (handler : ICommandHandler) (handlerPath : string)
  (params : IHandlerParameters) (response : CommandResponse)
  : Eff (CommandResponse * Completion unit) :=
  match process handler with
  | None => ret (response, Throw (TypeError "handler.process is not a function"))
  | Some process =>
      emit (CallProcess handlerPath) ;;;
      interact response (process params)
  end.

(** The [catch] of the validation block. *)
Definition onValidatorError (e : JsValue) (response : CommandResponse)
  : Eff (option ICommandResponse) :=
  let errMsg := "Unexpected syntax validation error" in
  e_message <- lift (get_prop e "message") ;;
  let errReason := (errMsg ++ ": " ++ ToString e_message)%string in
  let response := setMessage response errReason in
  response <- console_errorHeader response errMsg ;;
  response <- console_error_of response e_message ;;
  let response :=
    setError response
      {| msg := errMsg; additionalDetails := e_message;
         causeErrors := JsUndefined; stack := None |} in
  let response := failed response in
  json <- finishResponse (Some response) ;;
  ret (Some json).

(** The branch taken when [validator.valid] is false. *)
Definition onSyntaxInvalid (underscore : list string)
  (response : CommandResponse) : Eff (option ICommandResponse) :=
  let response := setMessage response "Command syntax invalid" in
  let response := failed response in
  let finalHelp : string :=
    if Nat.ltb 0 (List.length underscore) then
      (nl ++ "Use " ++ dq ++ rootCommand ++ " " ++ join " " underscore
          ++ " --help" ++ dq
          ++ " to view command description, usage, and options.")%string
    else
      (nl ++ "Use " ++ dq ++ name definition ++ " --help" ++ dq
          ++ " to view command description, usage, and options.")%string in
  response <- console_error response (Text finalHelp) ;;
  json <- finishResponse (Some response) ;;
  ret (Some json).

(** The [catch] of the preparation block. *)
Definition onPrepareError (prepareErr : JsValue) (response : CommandResponse)
  : Eff (option ICommandResponse) :=
  let response := failed response in
  prepareErr_message <- lift (get_prop prepareErr "message") ;;
  let err :=
    ToString (if ToBoolean prepareErr_message then prepareErr_message
              else JsString "Internal Error: No cause message present.") in
  let response := setMessage response err in
  response <- console_errorHeader response "Command Preparation Failed" ;;
  response <- console_error response (Text err) ;;
  prepareErr_details <- lift (get_prop prepareErr "details") ;;
  details_additionalDetails <-
    lift (get_prop prepareErr_details "additionalDetails") ;;
  '(response, impErr) <-
    match details_additionalDetails with
    | JsString s =>
        response <- console_errorHeader response "Error Details" ;;
        response <- console_error response (Text s) ;;
        ret (response,
             {| msg := err; additionalDetails := JsString s;
                causeErrors := JsUndefined; stack := None |})
    | _ =>
        ret (response,
             {| msg := err; additionalDetails := JsUndefined;
                causeErrors := JsUndefined; stack := None |})
    end ;;
  let response := setError response impErr in
  json <- finishResponse (Some response) ;;
  ret (Some json).

(** The single-handler branch. *)
Definition invokeHandler (handlerPath : string) (params_arguments : Arguments)
  (prepared : ICommandPrepared) (response : CommandResponse)
  : Eff (option ICommandResponse) :=
  '(response, handler) <- attemptHandlerLoad response handlerPath ;;
  match handler with
  | None =>
      json <- finishResponse (Some response) ;;
      ret (Some json)
  | Some handler =>
      '(response, outcome) <-
        call_process handler handlerPath
          {| hp_profiles := profiles prepared;
             hp_arguments := params_arguments;
             hp_definition := definition;
             hp_fullDefinition := fullDefinition;
             isChained := false |}
          response ;;
      match outcome with
      | Throw processErr =>
          response <- handleHandlerError processErr response handlerPath ;;
          json <- finishResponse (Some response) ;;
          ret (Some json)
      | Normal _ =>
          let response := succeeded response in
          let response := endProgressBar response in
          json <- finishResponse (Some response) ;;
          ret (Some json)
      end
  end.

(** The variables of the loop over the chained handlers. *)
Record ChainState : Type := mkChainState {
  chainedHandlerIndex : nat;
  chainedResponses : list JsValue;
  bufferedStdOut : list Chunk;
  bufferedStdErr : list Chunk;
  chainedResponse : option CommandResponse
}.

Definition chainStart : ChainState :=
  {| chainedHandlerIndex := 0; chainedResponses := [];
     bufferedStdOut := []; bufferedStdErr := []; chainedResponse := None |}.

(** How one turn of the loop ends: the handler could not be loaded (the
    processor's own response carries the failure), the step threw, or it
    returned. *)
Inductive StepOutcome : Type :=
| LoadFailed (response : CommandResponse)
| Rejected (chainedResponse : CommandResponse) (processErr : JsValue)
| Fulfilled (chainedResponse : CommandResponse).

(** The response built for a step: fresh, with the step's [silent], then
    given the output buffered so far. *)
Definition newChainedResponse (chainedHandler : IChainedHandlerEntry)
  (params_arguments : Arguments) (st : ChainState) : CommandResponse :=
  let chainedResponse :=
    constructResponseObject
      {| arguments := Some params_arguments;
         silent := chained_silent chainedHandler;
         responseFormat :=
           Some (if ToBoolean (assoc (JSON_OPTION H) (options params_arguments))
                 then "json" else "default") |} in
  let chainedResponse := bufferStdout chainedResponse (bufferedStdOut st) in
  bufferStderr chainedResponse (bufferedStdErr st).

(** The body of the loop up to the end of its [try]. *)
Definition chainedStep (chainedHandler : IChainedHandlerEntry)
  (st : ChainState) (params_arguments : Arguments) (prepared : ICommandPrepared)
  (all : list IChainedHandlerEntry) (response : CommandResponse)
  : Eff StepOutcome :=
  '(response, handler) <-
    attemptHandlerLoad response (chained_handler chainedHandler) ;;
  match handler with
  | None => ret (LoadFailed response)
  | Some handler =>
      let chainedResponse :=
        newChainedResponse chainedHandler params_arguments st in
      '(chainedResponse, outcome) <-
        match getArguments H (mCommandRootName this) all
                (chainedHandlerIndex st) (chainedResponses st)
                params_arguments with
        | Throw e => ret (chainedResponse, Throw e)
        | Normal args =>
            call_process handler (chained_handler chainedHandler)
              {| hp_profiles := profiles prepared;
                 hp_arguments := args;
                 hp_definition := definition;
                 hp_fullDefinition := fullDefinition;
                 isChained := true |}
              chainedResponse
        end ;;
      match outcome with
      | Normal _ => ret (Fulfilled chainedResponse)
      | Throw processErr => ret (Rejected chainedResponse processErr)
      end
  end.

(** The loop variables after a step that returned. *)
Definition chainNext (st : ChainState) (chainedResponse : CommandResponse)
  : ChainState :=
  let builtResponse := buildJsonResponse chainedResponse in
  {| chainedHandlerIndex := S (chainedHandlerIndex st);
     chainedResponses := chainedResponses st ++ [data builtResponse];
     bufferedStdOut := stdout builtResponse;
     bufferedStdErr := stderr builtResponse;
     chainedResponse := Some chainedResponse |}.

(** The loop over the chained handlers ([remaining] are the entries not
    yet run) and the statements after it. *)
Fixpoint chainedLoop (remaining : list IChainedHandlerEntry) (st : ChainState)
  (params_arguments : Arguments) (prepared : ICommandPrepared)
  (all : list IChainedHandlerEntry) (response : CommandResponse)
  : Eff (option ICommandResponse) :=
  match remaining with
  | [] =>
      let response := succeeded response in
      let response := endProgressBar response in
      json <- finishResponse (chainedResponse st) ;;
      ret (Some json)
  | chainedHandler :: rest =>
      outcome <-
        chainedStep chainedHandler st params_arguments prepared all response ;;
      match outcome with
      | LoadFailed response =>
          json <- finishResponse (Some response) ;;
          ret (Some json)
      | Rejected chainedResponse processErr =>
          chainedResponse <-
            handleHandlerError processErr chainedResponse
              (chained_handler chainedHandler) ;;
          json <- finishResponse (Some chainedResponse) ;;
          ret (Some json)
      | Fulfilled chainedResponse =>
          chainedLoop rest (chainNext st chainedResponse) params_arguments
            prepared all response
      end
  end.

(** The checks at the head of [invoke]: the parameters with the response
    format defaulted, the arguments, and the positional list. *)
Definition ensureParameters (params : option IInvokeCommandParms)
  : Eff (IInvokeCommandParms * Arguments * list string) :=
  params <-
    ImperativeExpect_toNotBeNullOrUndefined params
      (ERROR_TAG ++ " invoke(): No parameters supplied.") ;;
  params_arguments <-
    ImperativeExpect_toNotBeNullOrUndefined (arguments params)
      (ERROR_TAG ++ " invoke(): No command arguments supplied.") ;;
  let params_responseFormat :=
    match responseFormat params with
    | None => "default"
    | Some f => f
    end in
  let params :=
    {| arguments := arguments params; silent := silent params;
       responseFormat := Some params_responseFormat |} in
  let responseOptions := ["default"; "json"] in
  ImperativeExpect_toBeOneOf params_responseFormat responseOptions
    (ERROR_TAG ++ " invoke(): Response format must be one of the following: "
       ++ join "," responseOptions) ;;;
  underscore <-
    ImperativeExpect_toBeAnArray (underscore params_arguments)
      (ERROR_TAG ++ " invoke(): The command arguments object supplied "
         ++ "does not contain an array of args.") ;;
  match chainedHandlers definition with
  | None =>
      definition_handler <-
        ImperativeExpect_toNotBeNullOrUndefined (handler definition)
          (ERROR_TAG ++ " invoke(): Cannot invoke the command " ++ dq
             ++ name definition ++ dq
             ++ ". It has no handler and no chained handlers.") ;;
      ImperativeExpect_toNotBeEqual (trim definition_handler) EmptyString
        (ERROR_TAG ++ " invoke(): Cannot invoke the handler for command " ++ dq
           ++ name definition ++ dq ++ ". The handler is blank.")
  | Some _ => ret tt
  end ;;;
  ret (params, params_arguments, underscore).

(** The part of [invoke] that invokes the handler or the chain; it falls
    off the end of the function when the command has neither. *)
Definition execute (params_arguments : Arguments) (prepared : ICommandPrepared)
  (response : CommandResponse) : Eff (option ICommandResponse) :=
  match handler definition with
  | Some handlerPath =>
      invokeHandler handlerPath params_arguments prepared response
  | None =>
      match chainedHandlers definition with
      | Some chain =>
          chainedLoop chain chainStart params_arguments prepared chain response
      | None => ret None
      end
  end.

Definition invoke (params : option IInvokeCommandParms)
  : Eff (option ICommandResponse) :=
  (* Ensure parameters are correct *)
  '(params, params_arguments, underscore) <- ensureParameters params ;;
  (* Build the response object *)
  let response := constructResponseObject params in
  let response := succeeded response in
  (* Validate that the syntax is correct for the command *)
  '(response, validator) <- validate params_arguments response ;;
  match validator with
  | Throw e => onValidatorError e response
  | Normal validator =>
      if negb (valid validator) then onSyntaxInvalid underscore response
      else
        (* Prepare for command processing *)
        '(response, prepared) <- prepare response params_arguments ;;
        match prepared with
        | Throw prepareErr => onPrepareError prepareErr response
        | Normal (params_arguments, prepared) =>
            (* Invoke the handler *)
            execute params_arguments prepared response
        end
  end.

(** ** Notions used to state the properties of the pipeline *)

(** The steps of [steps] all return, taking the loop variables from [st]
    to [st']. *)
Inductive ChainRun (params_arguments : Arguments) (prepared : ICommandPrepared)
  (all : list IChainedHandlerEntry) (response : CommandResponse)
  : list IChainedHandlerEntry -> ChainState -> ChainState -> Prop :=
| ChainRun_nil (st : ChainState) :
    ChainRun params_arguments prepared all response [] st st
| ChainRun_cons (chainedHandler : IChainedHandlerEntry)
    (rest : list IChainedHandlerEntry) (st st' : ChainState)
    (chainedResponse : CommandResponse) :
    completion
      (chainedStep chainedHandler st params_arguments prepared all response)
    = Normal (Fulfilled chainedResponse) ->
    ChainRun params_arguments prepared all response rest
      (chainNext st chainedResponse) st' ->
    ChainRun params_arguments prepared all response
      (chainedHandler :: rest) st st'.

(** The message of the error record of a handler that could not be
    instantiated. *)
Definition instantiationMessage (path : string) : string :=
  couldNotInstatiateCommandHandler H
    (let n := normalize H path in
     if String.eqb n EmptyString
     then (dq ++ "undefined or not specified" ++ dq)%string else n)
    (name definition).

(** The hint written when the syntax is invalid. *)
Definition helpHint (u : list string) : string :=
  match u with
  | [] =>
      (nl ++ "Use " ++ dq ++ name definition ++ " --help" ++ dq
          ++ " to view command description, usage, and options.")%string
  | _ =>
      (nl ++ "Use " ++ dq ++ rootCommand ++ " " ++ join " " u
          ++ " --help" ++ dq
          ++ " to view command description, usage, and options.")%string
  end.

(** The message reported for a preparation error with message [m]. *)
Definition preparationMessage (m : string) : string :=
  if String.eqb m EmptyString
  then "Internal Error: No cause message present." else m.

End Processor.

(** [b] begins with [a]. *)
Definition extends {A : Type} (a b : list A) : Prop :=
  exists rest, b = a ++ rest.

(** [r'] is [r] after some calls of a collaborator: same mode, same error
    record, and buffers that only grew. *)
Record grown (r r' : CommandResponse) : Prop := mkGrown {
  grown_silent : mSilent r' = mSilent r;
  grown_format : mResponseFormat r' = mResponseFormat r;
  grown_error : mError r' = mError r;
  grown_stdout : extends (mStdout r) (mStdout r');
  grown_stderr : extends (mStderr r) (mStderr r')
}.

(** The formats [finishResponse] accepts. *)
Definition format_ok (r : CommandResponse) : Prop :=
  mResponseFormat r = "default" \/ mResponseFormat r = "json".

(** The calls to collaborators among the events, in order, leaving out the
    writes to the streams. *)
Definition calls (t : list Event) : list Event :=
  filter (fun e => match e with
                   | WriteStdout _ | WriteStderr _ | WriteJson _ => false
                   | _ => true
                   end) t.

(** The handlers whose [process] was entered, in order. *)
Definition processed (t : list Event) : list string :=
  flat_map (fun e => match e with
                     | CallProcess p => [p]
                     | _ => []
                     end) t.

(** The text of a chunk. *)
Definition chunk_text (c : Chunk) : string :=
  match c with
  | Text s => s
  | Header s => s
  | Raw s => s
  end.

(** The error record [handleHandlerError] attaches for a thrown value, by
    the shape of the value; [None] when it attaches none. *)
Definition error_mapping (handlerErr : JsValue) : option IImperativeError :=
  match handlerErr with
  | JsImperativeError m ad ce st =>
      Some {| msg := m; additionalDetails := ad; causeErrors := ce;
              stack := st |}
  | JsError m st | JsTypeError m st =>
      Some {| msg := m; additionalDetails := JsUndefined;
              causeErrors := JsUndefined; stack := st |}
  | JsString s =>
      Some {| msg := s; additionalDetails := JsUndefined;
              causeErrors := JsUndefined; stack := None |}
  | JsUndefined | JsNull =>
      Some {| msg := "Command Failed"; additionalDetails := JsUndefined;
              causeErrors := JsUndefined; stack := None |}
  | _ => None
  end.

End Cmd.

(* ================================================================== *)
(** * The command processor: construction, help, and notions on traces *)
(* ================================================================== *)

Module CmdMore.

Import Cmd.

(** [IHelpGenerator]: [buildHelp] gives the help text, or throws. *)
Record IHelpGenerator : Type := mkHelpGenerator {
  buildHelp : Completion string
}.

(** [IProfileManagerFactory]: the processor only stores it and hands it to
    the profile loader, which here is part of the [Host]. *)
Inductive IProfileManagerFactory : Type :=
| ProfileManagerFactory.

(** [ICommandProcessorParms], each field as the constructor finds it. *)
Record ICommandProcessorParms : Type := mkProcessorParms {
  cp_definition : option ICommandDefinition;
  cp_fullDefinition : option ICommandDefinition;
  cp_helpGenerator : option IHelpGenerator;
  cp_profileManagerFactory : option IProfileManagerFactory;
  cp_rootCommandName : option string
}.

(** A constructed processor: the fields [invoke] reads, with the help
    generator and the profile manager factory. *)
Record Instance : Type := mkInstance {
  processor : CommandProcessor;
  mHelpGenerator : IHelpGenerator;
  mProfileManagerFactory : IProfileManagerFactory
}.

(** Modelled from the spec: [ImperativeExpect.keysToBeDefinedAndNonBlank]
    for one key, missing from the sources: the value is present and is not
    blank once trimmed; otherwise an [ImperativeError] is thrown, as for the
    other expectations. *)
Definition ImperativeExpect_keyToBeDefinedAndNonBlank (value : option string)
  (msg : string) : Eff string :=
  match value with
  | Some s =>
      if String.eqb (trim s) EmptyString then throw (ImperativeError_of_msg msg)
      else ret s
  | None => throw (ImperativeError_of_msg msg)
  end.

(** The constructor of [CommandProcessor]. *)
Definition new_CommandProcessor (params : option ICommandProcessorParms)
  : Eff Instance :=
  params <-
    ImperativeExpect_toNotBeNullOrUndefined params
      (ERROR_TAG ++ " No parameters supplied to constructor.") ;;
  mDefinition <-
    ImperativeExpect_toNotBeNullOrUndefined (cp_definition params)
      (ERROR_TAG ++ " No command definition supplied.") ;;
  let mFullDefinition :=
    match cp_fullDefinition params with
    | None => mDefinition
    | Some full => full
    end in
  mHelpGenerator <-
    ImperativeExpect_toNotBeNullOrUndefined (cp_helpGenerator params)
      (ERROR_TAG ++ " No help generator supplied.") ;;
  mProfileManagerFactory <-
    ImperativeExpect_toNotBeNullOrUndefined (cp_profileManagerFactory params)
      (ERROR_TAG ++ " No profile manager factory supplied.") ;;
  (if String.eqb (type mDefinition) "command"
      && match chainedHandlers mDefinition with None => true | Some _ => false end
   then
     ImperativeExpect_keyToBeDefinedAndNonBlank (handler mDefinition)
       (ERROR_TAG ++ " " ++ "The definition supplied is of type "
          ++ dq ++ "command" ++ dq ++ ", " ++ "but no handler was specified.") ;;;
     ret tt
   else ret tt) ;;;
  mCommandRootName <-
    ImperativeExpect_keyToBeDefinedAndNonBlank (cp_rootCommandName params)
      (ERROR_TAG ++ " No root command supplied.") ;;
  ret {| processor :=
           {| mCommandRootName := mCommandRootName;
              mDefinition := mDefinition;
              mFullDefinition := mFullDefinition |};
         mHelpGenerator := mHelpGenerator;
         mProfileManagerFactory := mProfileManagerFactory |}.

(** [help(response)] *)
Definition help (this : Instance) (response : option CommandResponse)
  : Eff ICommandResponse :=
  response <-
    ImperativeExpect_toNotBeNullOrUndefined response
      (ERROR_TAG ++ " help(): No command response object supplied.") ;;
  help <- lift (buildHelp (mHelpGenerator this)) ;;
  let response := setObj response (JsString help) in
  response <- console_log response (Raw help) ;;
  let response :=
    setMessage response
      ("The help was constructed for command: "
         ++ name (mDefinition (processor this)) ++ ".") in
  finishResponse (Some response).

(** ** Notions on traces and on the calls of a collaborator *)

(** A write of console output to a stream. *)
Definition is_stream_write (e : Event) : bool :=
  match e with
  | WriteStdout _ | WriteStderr _ => true
  | _ => false
  end.

(** Everything written to the streams, console output and JSON documents. *)
Definition writes (t : list Event) : list Event :=
  filter (fun e => match e with
                   | WriteStdout _ | WriteStderr _ | WriteJson _ => true
                   | _ => false
                   end) t.

(** The JSON documents written, in order. *)
Definition documents (t : list Event) : list ICommandResponse :=
  flat_map (fun e => match e with
                     | WriteJson json => [json]
                     | _ => []
                     end) t.

(** What a collaborator logged on stdout and on stderr. *)
Definition logged_stdout (l : list ResponseAction) : list Chunk :=
  flat_map (fun a => match a with
                     | ConsoleLog c => [c]
                     | _ => []
                     end) l.

Definition logged_stderr (l : list ResponseAction) : list Chunk :=
  flat_map (fun a => match a with
                     | ConsoleError c => [c]
                     | ConsoleErrorHeader m => [Header m]
                     | _ => []
                     end) l.

(** The console output of a response whose silent flag is [b]: writes to
    the streams only, and none when silent. *)
Definition Chatter (b : bool) (t : list Event) : Prop :=
  Forall (fun e => is_stream_write e = true) t /\ (b = true -> t = []).

(** The calls of a single-handler command, in the order of the pipeline. *)
Definition pipeline (handlerPath : string) : list Event :=
  [CallValidate; CallReadStdin; CallLoadProfiles; CallRequire handlerPath;
   CallProcess handlerPath].

(** The calls of a chain: each step is loaded, then run. *)
Definition chainCalls (chain : list IChainedHandlerEntry) : list Event :=
  flat_map (fun e => [CallRequire (chained_handler e);
                      CallProcess (chained_handler e)]) chain.

(** The silent flag and the format of the response [invoke] builds. *)
Definition silentOf (p : IInvokeCommandParms) : bool :=
  match silent p with
  | Some s => s
  | None => false
  end.

(** A value whose [message] is a string, as that of an [Error] is. *)
Definition hasMessage (v : JsValue) : bool :=
  match get_prop v "message" with
  | Normal (JsString _) => true
  | _ => false
  end.

(** The silent flag of the response built for a step of a chain. *)
Definition stepSilent (e : IChainedHandlerEntry) : bool :=
  match chained_silent e with
  | Some s => s
  | None => false
  end.

Definition formatOf (p : IInvokeCommandParms) : string :=
  match responseFormat p with
  | Some f => f
  | None => "default"
  end.

(** The conditions of the pre-check of [invoke], taken together. *)
Definition wellFormed (this : CommandProcessor)
  (params : option IInvokeCommandParms) : bool :=
  match params with
  | None => false
  | Some p =>
      match arguments p with
      | None => false
      | Some args =>
          existsb (String.eqb (formatOf p)) ["default"; "json"]
          && match underscore args with
             | Some _ => true
             | None => false
             end
          && match chainedHandlers (mDefinition this) with
             | Some _ => true
             | None =>
                 match handler (mDefinition this) with
                 | Some h => negb (String.eqb (trim h) EmptyString)
                 | None => false
                 end
             end
      end
  end.

(** The steps of [steps] all return, taking the loop variables from [st]
    to [st']; [crs] are the responses they leave, in order. *)
Inductive ChainResults (H : Host) (this : CommandProcessor)
  (params_arguments : Arguments) (prepared : ICommandPrepared)
  (all : list IChainedHandlerEntry) (response : CommandResponse)
  : list IChainedHandlerEntry -> ChainState -> ChainState ->
    list CommandResponse -> Prop :=
| ChainResults_nil (st : ChainState) :
    ChainResults H this params_arguments prepared all response [] st st []
| ChainResults_cons (chainedHandler : IChainedHandlerEntry)
    (rest : list IChainedHandlerEntry) (st st' : ChainState)
    (chainedResponse : CommandResponse) (crs : list CommandResponse) :
    completion
      (chainedStep H this chainedHandler st params_arguments prepared all
         response)
    = Normal (Fulfilled chainedResponse) ->
    ChainResults H this params_arguments prepared all response rest
      (chainNext st chainedResponse) st' crs ->
    ChainResults H this params_arguments prepared all response
      (chainedHandler :: rest) st st' (chainedResponse :: crs).

(** An invocation that ends with a snapshot, or with a throw of a value
    that is not an [ImperativeError]. *)
Definition Settled (m : Eff (option ICommandResponse)) : Prop :=
  (exists json, completion m = Normal (Some json))
  \/ (exists v, completion m = Throw v /\ is_ImperativeError v = false).

(** The trace of a stage run on a response whose silent flag is [b]: its
    calls are [cs], it writes no JSON document, and nothing when silent. *)
Definition Front (b : bool) (cs t : list Event) : Prop :=
  calls t = cs /\ documents t = [] /\ (b = true -> writes t = []).

(** A block that ends by finishing a response whose silent flag is [b] and
    whose format is [fmt]: console output, then either a throw or the
    finishing of that response. *)
Definition Finishing (b : bool) (fmt : string)
  (m : Eff (option ICommandResponse)) : Prop :=
  exists s,
    Chatter b s
    /\ ((exists v, m = (s, Throw v))
        \/ (exists r,
              mSilent r = b /\ mResponseFormat r = fmt
              /\ m = (s ++ events (finishResponse (Some r)),
                      completion (json <- finishResponse (Some r) ;;
                                  ret (Some json))))).

(** A run of stages whose calls are taken, in order, from the head of
    [allowed], and which ends with a throw or with the finishing of a
    response whose silent flag is [b] and whose format is [fmt]. *)
Definition Staged (b : bool) (fmt : string) (allowed : list Event)
  (m : Eff (option ICommandResponse)) : Prop :=
  exists front,
    extends (calls front) allowed
    /\ documents front = []
    /\ (b = true -> writes front = [])
    /\ ((exists v, m = (front, Throw v))
        \/ (exists r,
              mSilent r = b /\ mResponseFormat r = fmt
              /\ m = (front ++ events (finishResponse (Some r)),
                      completion (json <- finishResponse (Some r) ;;
                                  ret (Some json))))).

End CmdMore.

(* ================================================================== *)
(** * The credential as it is stored *)
(* ================================================================== *)

Module CredentialMore.

(** The characters of a base64 string: the letters, the digits, '+', '/'
    and the padding '='. *)
Definition base64_char (c : ascii) : bool :=
  let k := nat_of_ascii c in
  (Nat.leb 65 k && Nat.leb k 90) || (Nat.leb 97 k && Nat.leb k 122)
  || (Nat.leb 48 k && Nat.leb k 57) || Nat.eqb k 43 || Nat.eqb k 47
  || Nat.eqb k 61.

End CredentialMore.

(* ================================================================== *)
(** * The main class of the framework: [Imperative] *)
(* ================================================================== *)

Module Imperative.

(** ** Data *)

(** [ICommandProfileTypeConfiguration], with the field read here. *)
Record ICommandProfileTypeConfiguration : Type := mkProfileType {
  type : string;
  schema : JsValue
}.

(** An entry of [logging.additionalLogging]. *)
Record IImperativeLoggingConfig : Type := mkLoggingConfig {
  apiName : string
}.

(** The [logging] object of the configuration. *)
Record IImperativeLogsConfig : Type := mkLogsConfig {
  additionalLogging : option (list IImperativeLoggingConfig)
}.

(** [IImperativeConfig], with the fields [Imperative] reads; [allowPlugins]
    is the truthiness of the field. *)
Record IImperativeConfig : Type := mkConfig {
  name : string;
  cfg_envVariablePrefix : option string;
  profiles : option (list ICommandProfileTypeConfiguration);
  logging : option IImperativeLogsConfig;
  allowPlugins : bool;
  primaryTextColor : string;
  progressBarSpinner : string;
  experimentalCommandDescription : string
}.

(** [ICommandDefinition], as a tree: its name, its options, and its
    children when it has the field. *)
Inductive ICommandDefinition : Type :=
| mkCommand (cmd_name : string) (cmd_options : list string)
            (cmd_children : option (list ICommandDefinition)).

Definition children (d : ICommandDefinition)
  : option (list ICommandDefinition) :=
  match d with
  | mkCommand _ _ c => c
  end.

Definition options (d : ICommandDefinition) : list string :=
  match d with
  | mkCommand _ o _ => o
  end.

(** A [Logger] object, known by its identity. *)
Inductive Logger : Type :=
| LoggerObject (id : nat).

(** A setting read from the environment. *)
Record IImperativeEnvironmentalVariableSetting : Type := mkSetting {
  key : string;
  value : option string
}.

Record IImperativeEnvironmentalVariableSettings : Type := mkSettings {
  imperativeLogLevel : IImperativeEnvironmentalVariableSetting;
  appLogLevel : IImperativeEnvironmentalVariableSetting
}.

(** [ImperativeApi]: what it was constructed from, and the loggers added
    to it by [addAdditionalLogger], in the order of the calls. *)
Record ImperativeApi : Type := mkApi {
  imperativeLogger : Logger;
  appLogger : Logger;
  api_config : IImperativeConfig;
  api_home : string;
  additionalLoggers : list (string * Logger)
}.

Definition addAdditionalLogger (api : ImperativeApi) (n : string)
  (l : Logger) : ImperativeApi :=
  {| imperativeLogger := imperativeLogger api; appLogger := appLogger api;
     api_config := api_config api; api_home := api_home api;
     additionalLoggers := additionalLoggers api ++ [(n, l)] |}.

(** [ImperativeHelpGeneratorFactory], by the arguments of its constructor. *)
Record IHelpGeneratorFactory : Type := mkHelpGeneratorFactory {
  factory_rootCommandName : option string;
  factory_config : IImperativeConfig
}.

(** The parameters of [CliProfileManager.initialize]. *)
Record IProfileManagerInit : Type := mkProfileManagerInit {
  configuration : list ICommandProfileTypeConfiguration;
  profileRootDirectory : string;
  reinitialize : bool
}.

(** What [defineCommands] hands to yargs with a command tree. *)
Record YargsParms : Type := mkYargsParms {
  yargs_api : ImperativeApi;
  yargs_helpGeneratorFactory : option IHelpGeneratorFactory;
  yargs_rootCommandName : option string;
  yargs_primaryTextColor : string;
  yargs_progressBarSpinner : string;
  yargs_experimentalCommandDescription : string
}.

(** ** State and collaborators *)

(** The private static fields of [Imperative], the two fields of
    [ImperativeConfig.instance] it writes, and the number of console
    loggers the [Logger] class has handed out. *)
Record Statics : Type := mkStatics {
  mApi : option ImperativeApi;
  mLog : option Logger;
  mConsoleLog : option Logger;
  mFullCommandTree : option ICommandDefinition;
  mRootCommandName : option string;
  mHelpGeneratorFactory : option IHelpGeneratorFactory;
  callerLocation : option string;
  loadedConfig : option IImperativeConfig;
  consoleLoggers : nat
}.

(** Nothing initialized yet. *)
Definition pristine : Statics :=
  {| mApi := None; mLog := None; mConsoleLog := None;
     mFullCommandTree := None; mRootCommandName := None;
     mHelpGeneratorFactory := None; callerLocation := None;
     loadedConfig := None; consoleLoggers := 0 |}.

(** The calls to the rest of the framework and to the host. *)
Inductive Call : Type :=
| LoadConfiguration
| ValidateConfiguration
| ConfigureLogger
| InitLogger
| ReadEnvironment (prefix : string)
| SetImperativeLogLevel (level : string)
| SetAppLogLevel (level : string)
| LoadOverrides
| InitPlugins
| ResolveCmdTree
| AddPluginsToHostCli
| PrepareCmdTree
| InitializeProfiles (parms : IProfileManagerInit)
| ConfigureYargs
| DefineOptions (opts : list string)
| DefineCommand (child : ICommandDefinition)
| GetConsoleLogger.

(** What [Imperative] imports: each call returns or throws; a call that
    is handed the configuration object may change it, and gives its
    contents after the call. *)
Record World : Type := mkWorld {
  (** [process.mainModule.filename] *)
  mainModule_filename : Completion string;
  (** [ConfigurationLoader.load(config, callerPackageJson, getCallerFile)] *)
  ConfigurationLoader_load :
    option IImperativeConfig -> Completion IImperativeConfig;
  (** [ConfigurationValidator.validate(config)] *)
  ConfigurationValidator_validate :
    IImperativeConfig -> Completion IImperativeConfig;
  (** [ImperativeConfig.instance.cliHome] *)
  cliHome : IImperativeConfig -> string;
  (** [LoggingConfigurer.configureLogger(cliHome, loadedConfig)] *)
  LoggingConfigurer_configureLogger :
    string -> IImperativeConfig -> Completion JsValue;
  (** [Logger.initLogger(loggingConfig)] *)
  Logger_initLogger : JsValue -> Completion unit;
  Logger_getImperativeLogger : Logger;
  Logger_getAppLogger : Logger;
  (** [Logger.getConsoleLogger()], by the number of earlier calls. *)
  Logger_getConsoleLogger : nat -> Logger;
  Logger_getLoggerCategory : string -> Logger;
  (** [EnvironmentalVariableSettings.read(prefix)] *)
  EnvironmentalVariableSettings_read :
    string -> Completion IImperativeEnvironmentalVariableSettings;
  (** [OverridesLoader.load(loadedConfig)] *)
  OverridesLoader_load : IImperativeConfig -> Completion IImperativeConfig;
  (** [ImperativeConfig.instance.findPackageBinName()] *)
  findPackageBinName : option string;
  (** [PluginManagementFacility.instance.init()] *)
  PluginManagementFacility_init :
    IImperativeConfig -> Completion IImperativeConfig;
  (** [ImperativeConfig.instance.resolvedCmdTree] *)
  resolvedCmdTree : IImperativeConfig -> Completion ICommandDefinition;
  (** [PluginManagementFacility.instance.addPluginsToHostCli(tree)]: the
      tree and the configuration after the call. *)
  addPluginsToHostCli :
    ICommandDefinition -> IImperativeConfig ->
    Completion (ICommandDefinition * IImperativeConfig);
  (** [ImperativeConfig.instance.getPreparedCmdTree(tree)] *)
  getPreparedCmdTree : ICommandDefinition -> Completion ICommandDefinition;
  (** [ProfileUtils.constructProfilesRootDirectory(cliHome)] *)
  constructProfilesRootDirectory : string -> string;
  (** [CliProfileManager.initialize(parms)] *)
  CliProfileManager_initialize : IProfileManagerInit -> Completion unit;
  (** [new YargsConfigurer(tree, ...).configure()] *)
  YargsConfigurer_configure : ICommandDefinition -> YargsParms -> Completion unit;
  (** [CommandYargs.defineOptionsToYargs(yargs, options)] *)
  CommandYargs_defineOptionsToYargs : list string -> Completion unit;
  (** [definer.define(child, callback, commandResponseParms)] *)
  YargsDefiner_define : ICommandDefinition -> YargsParms -> Completion unit
}.

(** ** Methods run on the statics, make calls, and return or throw *)

Definition M (A : Type) : Type :=
  Statics -> (list Call * Statics) * Completion A.

Definition ret {A : Type} (a : A) : M A := fun s => (([], s), Normal a).

Definition throw {A : Type} (v : JsValue) : M A :=
  fun s => (([], s), Throw v).

Definition bind {A B : Type} (m : M A) (k : A -> M B) : M B :=
  fun s =>
    match m s with
    | ((t, s'), Normal a) =>
        match k a s' with
        | ((t', s''), c) => ((t ++ t', s''), c)
        end
    | ((t, s'), Throw v) => ((t, s'), Throw v)
    end.

Notation "x <- m ;; k" := (bind m (fun x => k))
  (at level 61, m at next level, right associativity).
Notation "m ;;; k" := (bind m (fun _ => k))
  (at level 61, right associativity).

(** A call to a collaborator. *)
Definition call {A : Type} (c : Call) (r : Completion A) : M A :=
  fun s => (([c], s), r).

Definition lift {A : Type} (r : Completion A) : M A := fun s => (([], s), r).

Definition get : M Statics := fun s => (([], s), Normal s).

Definition modify (f : Statics -> Statics) : M unit :=
  fun s => (([], f s), Normal tt).

(** [try { m } catch (error) { h(error) }] *)
Definition try_catch {A : Type} (m : M A) (h : JsValue -> M A) : M A :=
  fun s =>
    match m s with
    | ((t, s'), Throw v) =>
        match h v s' with
        | ((t', s''), c) => ((t ++ t', s''), c)
        end
    | r => r
    end.

Definition calls {A : Type} (r : (list Call * Statics) * Completion A)
  : list Call := fst (fst r).
Definition statics {A : Type} (r : (list Call * Statics) * Completion A)
  : Statics := snd (fst r).
Definition completion {A : Type} (r : (list Call * Statics) * Completion A)
  : Completion A := snd r.

(** Assignments to the fields. *)
Definition set_mApi (v : ImperativeApi) (s : Statics) : Statics :=
  {| mApi := Some v; mLog := mLog s; mConsoleLog := mConsoleLog s;
     mFullCommandTree := mFullCommandTree s;
     mRootCommandName := mRootCommandName s;
     mHelpGeneratorFactory := mHelpGeneratorFactory s;
     callerLocation := callerLocation s; loadedConfig := loadedConfig s;
     consoleLoggers := consoleLoggers s |}.

Definition set_mLog (v : Logger) (s : Statics) : Statics :=
  {| mApi := mApi s; mLog := Some v; mConsoleLog := mConsoleLog s;
     mFullCommandTree := mFullCommandTree s;
     mRootCommandName := mRootCommandName s;
     mHelpGeneratorFactory := mHelpGeneratorFactory s;
     callerLocation := callerLocation s; loadedConfig := loadedConfig s;
     consoleLoggers := consoleLoggers s |}.

Definition set_mConsoleLog (v : Logger) (s : Statics) : Statics :=
  {| mApi := mApi s; mLog := mLog s; mConsoleLog := Some v;
     mFullCommandTree := mFullCommandTree s;
     mRootCommandName := mRootCommandName s;
     mHelpGeneratorFactory := mHelpGeneratorFactory s;
     callerLocation := callerLocation s; loadedConfig := loadedConfig s;
     consoleLoggers := consoleLoggers s |}.

(** One more console logger was handed out. *)
Definition count_consoleLogger (s : Statics) : Statics :=
  {| mApi := mApi s; mLog := mLog s; mConsoleLog := mConsoleLog s;
     mFullCommandTree := mFullCommandTree s;
     mRootCommandName := mRootCommandName s;
     mHelpGeneratorFactory := mHelpGeneratorFactory s;
     callerLocation := callerLocation s; loadedConfig := loadedConfig s;
     consoleLoggers := S (consoleLoggers s) |}.

Definition set_mFullCommandTree (v : ICommandDefinition) (s : Statics)
  : Statics :=
  {| mApi := mApi s; mLog := mLog s; mConsoleLog := mConsoleLog s;
     mFullCommandTree := Some v;
     mRootCommandName := mRootCommandName s;
     mHelpGeneratorFactory := mHelpGeneratorFactory s;
     callerLocation := callerLocation s; loadedConfig := loadedConfig s;
     consoleLoggers := consoleLoggers s |}.

Definition set_mRootCommandName (v : option string) (s : Statics) : Statics :=
  {| mApi := mApi s; mLog := mLog s; mConsoleLog := mConsoleLog s;
     mFullCommandTree := mFullCommandTree s;
     mRootCommandName := v;
     mHelpGeneratorFactory := mHelpGeneratorFactory s;
     callerLocation := callerLocation s; loadedConfig := loadedConfig s;
     consoleLoggers := consoleLoggers s |}.

Definition set_mHelpGeneratorFactory (v : IHelpGeneratorFactory) (s : Statics)
  : Statics :=
  {| mApi := mApi s; mLog := mLog s; mConsoleLog := mConsoleLog s;
     mFullCommandTree := mFullCommandTree s;
     mRootCommandName := mRootCommandName s;
     mHelpGeneratorFactory := Some v;
     callerLocation := callerLocation s; loadedConfig := loadedConfig s;
     consoleLoggers := consoleLoggers s |}.

Definition set_callerLocation (v : string) (s : Statics) : Statics :=
  {| mApi := mApi s; mLog := mLog s; mConsoleLog := mConsoleLog s;
     mFullCommandTree := mFullCommandTree s;
     mRootCommandName := mRootCommandName s;
     mHelpGeneratorFactory := mHelpGeneratorFactory s;
     callerLocation := Some v; loadedConfig := loadedConfig s;
     consoleLoggers := consoleLoggers s |}.

Definition set_loadedConfig (v : IImperativeConfig) (s : Statics) : Statics :=
  {| mApi := mApi s; mLog := mLog s; mConsoleLog := mConsoleLog s;
     mFullCommandTree := mFullCommandTree s;
     mRootCommandName := mRootCommandName s;
     mHelpGeneratorFactory := mHelpGeneratorFactory s;
     callerLocation := callerLocation s; loadedConfig := Some v;
     consoleLoggers := consoleLoggers s |}.

(** The configuration object, for a read of one of its fields: a
    [TypeError] while no configuration is loaded.  Inside [init] the local
    [config] and [ImperativeConfig.instance.loadedConfig] are the one
    object, loaded by the time the private methods run. *)
Definition the_loadedConfig (field : string) : M IImperativeConfig :=
  s <- get ;;
  match loadedConfig s with
  | Some config => ret config
  | None =>
      throw (TypeError ("Cannot read property '" ++ field ++ "' of undefined"))
  end.

(** A call of a method of [this.mLog]: a [TypeError] while there is no
    logger. *)
Definition log (method : string) : M unit :=
  s <- get ;;
  match mLog s with
  | Some _ => ret tt
  | None =>
      throw (TypeError ("Cannot read property '" ++ method ++ "' of undefined"))
  end.

(** A call that may change the loaded configuration object. *)
Definition call_on_config (c : Call)
  (f : IImperativeConfig -> Completion IImperativeConfig) (field : string)
  : M unit :=
  config <- the_loadedConfig field ;;
  config <- call c (f config) ;;
  modify (set_loadedConfig config).

(** ** The class *)

Section Class.

Variable W : World.

(** [get rootCommandName()] *)
Definition rootCommandName : M (option string) :=
  s <- get ;; ret (mRootCommandName s).

(** [get fullCommandTree()] *)
Definition fullCommandTree : M (option ICommandDefinition) :=
  s <- get ;; ret (mFullCommandTree s).

(** [Logger.getConsoleLogger()] *)
Definition getConsoleLogger : M Logger :=
  s <- get ;;
  modify count_consoleLogger ;;;
  call GetConsoleLogger (Normal (Logger_getConsoleLogger W (consoleLoggers s))).

(** [constructConsoleApi()] *)
Definition constructConsoleApi : M Logger :=
  s <- get ;;
  match mConsoleLog s with
  | None =>
      l <- getConsoleLogger ;;
      modify (set_mConsoleLog l) ;;;
      ret l
  | Some l => ret l
  end.

(** [get console()] *)
Definition console : M Logger := constructConsoleApi.

(** [getProfileConfiguration(type)] *)
Definition getProfileConfiguration (type0 : string)
  : M (option ICommandProfileTypeConfiguration) :=
  config <- the_loadedConfig "profiles" ;;
  match profiles config with
  | None => ret None
  | Some profileConfigs =>
      if Nat.eqb (List.length profileConfigs) 0 then ret None
      else
        ret (fold_left
               (fun foundConfig profile =>
                  if String.eqb (type profile) type0 then Some profile
                  else foundConfig)
               profileConfigs None)
  end.

(** [get api()] *)
Definition api : M ImperativeApi :=
  s <- get ;;
  match mApi s with
  | None =>
      (* the error is built with [logger: Imperative.console] *)
      console ;;;
      throw (ImperativeError_of_msg
               ("Imperative API object does not exist.  The Imperative.init() promise "
                  ++ "must be fullfilled before the API object can be accessed.  For issuing messages "
                  ++ "without the API object, use Imperative.console."))
  | Some a => ret a
  end.

(** [get envVariablePrefix()] *)
Definition envVariablePrefix : M string :=
  config <- the_loadedConfig "envVariablePrefix" ;;
  match cfg_envVariablePrefix config with
  | None => ret (name config)
  | Some prefix => ret prefix
  end.

(** [initLogging()] *)
Definition initLogging : M unit :=
  config <- the_loadedConfig "name" ;;
  loggingConfig <-
    call ConfigureLogger
      (LoggingConfigurer_configureLogger W (cliHome W config) config) ;;
  call InitLogger (Logger_initLogger W loggingConfig) ;;;
  modify (set_mLog (Logger_getImperativeLogger W)) ;;;
  prefix <- envVariablePrefix ;;
  envSettings <-
    call (ReadEnvironment prefix) (EnvironmentalVariableSettings_read W prefix) ;;
  match value (imperativeLogLevel envSettings) with
  | Some level =>
      call (SetImperativeLogLevel level) (Normal tt) ;;;
      log "info"
  | None => log "info"
  end ;;;
  match value (appLogLevel envSettings) with
  | Some level =>
      call (SetAppLogLevel level) (Normal tt) ;;;
      log "info"
  | None => log "info"
  end.

(** [initProfiles(config)] *)
Definition initProfiles : M unit :=
  config <- the_loadedConfig "profiles" ;;
  match profiles config with
  | Some (p :: ps) =>
      let parms :=
        {| configuration := p :: ps;
           profileRootDirectory :=
             constructProfilesRootDirectory W (cliHome W config);
           reinitialize := false |} in
      call (InitializeProfiles parms) (CliProfileManager_initialize W parms)
  | _ => ret tt
  end.

(** [constructDynamicLoggersApi(api)] *)
Definition constructDynamicLoggersApi (api0 : ImperativeApi)
  : M ImperativeApi :=
  loadedConfig <- the_loadedConfig "logging" ;;
  match logging loadedConfig with
  | None =>
      throw (TypeError "Cannot read property 'additionalLogging' of undefined")
  | Some logs =>
      match additionalLogging logs with
      | Some (l :: ls) =>
          ret (fold_left
                 (fun a logConfig =>
                    addAdditionalLogger a (apiName logConfig)
                      (Logger_getLoggerCategory W (apiName logConfig)))
                 (l :: ls) api0)
      | _ => ret api0
      end
  end.

(** [constructApiObject()] *)
Definition constructApiObject : M ImperativeApi :=
  config <- the_loadedConfig "logging" ;;
  let api0 :=
    {| imperativeLogger := Logger_getImperativeLogger W;
       appLogger := Logger_getAppLogger W;
       api_config := config; api_home := cliHome W config;
       additionalLoggers := [] |} in
  constructDynamicLoggersApi api0.

(** The loop of [defineCommands] over the children of the tree. *)
Fixpoint defineChildren (cs : list ICommandDefinition) (parms : YargsParms)
  : M unit :=
  match cs with
  | [] => ret tt
  | child :: rest =>
      call (DefineCommand child) (YargsDefiner_define W child parms) ;;;
      defineChildren rest parms
  end.

(** [defineCommands(preparedHostCliCmdTree)] *)
Definition defineCommands (preparedHostCliCmdTree : ICommandDefinition)
  : M unit :=
  log "debug" ;;;
  config <- the_loadedConfig "primaryTextColor" ;;
  a <- api ;;
  s <- get ;;
  let parms :=
    {| yargs_api := a;
       yargs_helpGeneratorFactory := mHelpGeneratorFactory s;
       yargs_rootCommandName := mRootCommandName s;
       yargs_primaryTextColor := primaryTextColor config;
       yargs_progressBarSpinner := progressBarSpinner config;
       yargs_experimentalCommandDescription :=
         experimentalCommandDescription config |} in
  call ConfigureYargs
    (YargsConfigurer_configure W preparedHostCliCmdTree parms) ;;;
  call (DefineOptions (options preparedHostCliCmdTree))
    (CommandYargs_defineOptionsToYargs W (options preparedHostCliCmdTree)) ;;;
  api ;;;
  match children preparedHostCliCmdTree with
  | None =>
      throw (TypeError "preparedHostCliCmdTree.children is not iterable")
  | Some cs => defineChildren cs parms
  end ;;;
  modify (set_mFullCommandTree preparedHostCliCmdTree).

(** The body of the [try] of [init]. *)
Definition initialize (config : option IImperativeConfig) : M unit :=
  filename <- lift (mainModule_filename W) ;;
  modify (set_callerLocation filename) ;;;
  config <- call LoadConfiguration (ConfigurationLoader_load W config) ;;
  config <- call ValidateConfiguration
              (ConfigurationValidator_validate W config) ;;
  modify (set_loadedConfig config) ;;;
  initLogging ;;;
  call_on_config LoadOverrides (OverridesLoader_load W) "loadedConfig" ;;;
  match findPackageBinName W with
  | Some bin => modify (set_mRootCommandName (Some bin))
  | None =>
      s <- get ;;
      modify (set_mRootCommandName (callerLocation s)) ;;;
      log "debug"
  end ;;;
  config <- the_loadedConfig "allowPlugins" ;;
  (if allowPlugins config
   then call_on_config InitPlugins (PluginManagementFacility_init W)
          "allowPlugins"
   else ret tt) ;;;
  a <- constructApiObject ;;
  modify (set_mApi a) ;;;
  root <- rootCommandName ;;
  config <- the_loadedConfig "loadedConfig" ;;
  modify (set_mHelpGeneratorFactory
            {| factory_rootCommandName := root; factory_config := config |}) ;;;
  log "debug" ;;;
  resolvedHostCliCmdTree <- call ResolveCmdTree (resolvedCmdTree W config) ;;
  config <- the_loadedConfig "allowPlugins" ;;
  resolvedHostCliCmdTree <-
    (if allowPlugins config
     then
       r <- call AddPluginsToHostCli
              (addPluginsToHostCli W resolvedHostCliCmdTree config) ;;
       modify (set_loadedConfig (snd r)) ;;;
       ret (fst r)
     else ret resolvedHostCliCmdTree) ;;
  preparedHostCliCmdTree <-
    call PrepareCmdTree (getPreparedCmdTree W resolvedHostCliCmdTree) ;;
  initProfiles ;;;
  defineCommands preparedHostCliCmdTree.

(** [init(config)]: the promise is fulfilled, or rejected with the value
    thrown here. *)
Definition init (config : option IImperativeConfig) : M unit :=
  try_catch (initialize config)
    (fun error =>
       throw (if is_ImperativeError error then error
              else JsImperativeError "UNEXPECTED ERROR ENCOUNTERED" JsUndefined
                     error None)).

End Class.

(** A world in which no call throws; the configuration has its [logging]
    object and the prepared command tree its [children], whatever the
    calls do to them. *)
Record Cooperative (W : World) : Prop := mkCooperative {
  coop_filename : exists f, mainModule_filename W = Normal f;
  coop_load :
    forall c, exists c', ConfigurationLoader_load W c = Normal c';
  coop_validate :
    forall c, exists c',
      ConfigurationValidator_validate W c = Normal c' /\ logging c' <> None;
  coop_configureLogger :
    forall h c, exists l, LoggingConfigurer_configureLogger W h c = Normal l;
  coop_initLogger : forall l, Logger_initLogger W l = Normal tt;
  coop_environment :
    forall p, exists e, EnvironmentalVariableSettings_read W p = Normal e;
  coop_overrides :
    forall c, exists c',
      OverridesLoader_load W c = Normal c' /\ logging c' <> None;
  coop_plugins :
    forall c, exists c',
      PluginManagementFacility_init W c = Normal c' /\ logging c' <> None;
  coop_resolve : forall c, exists t, resolvedCmdTree W c = Normal t;
  coop_addPlugins :
    forall t c, exists r, addPluginsToHostCli W t c = Normal r;
  coop_prepare :
    forall t, exists t',
      getPreparedCmdTree W t = Normal t' /\ children t' <> None;
  coop_profiles : forall p, CliProfileManager_initialize W p = Normal tt;
  coop_configure : forall t p, YargsConfigurer_configure W t p = Normal tt;
  coop_options : forall o, CommandYargs_defineOptionsToYargs W o = Normal tt;
  coop_define : forall c p, YargsDefiner_define W c p = Normal tt
}.

(** [m] runs from [s] to [s'], making the calls [t] and returning [a]. *)
Definition Runs {A : Type} (m : M A) (s : Statics) (t : list Call)
  (s' : Statics) (a : A) : Prop :=
  m s = ((t, s'), Normal a).

(** From a state that satisfies [I], [m] makes only calls that [allowed]
    accepts, keeps [I], and returns only values that satisfy [Q]. *)
Definition Triple {A : Type} (allowed : Call -> bool) (I : Statics -> Prop)
  (m : M A) (Q : A -> Prop) : Prop :=
  forall s, I s ->
    forallb allowed (calls (m s)) = true
    /\ I (statics (m s))
    /\ forall a, completion (m s) = Normal a -> Q a.

(** The calls to the plugin management facility. *)
Definition pluginCall (c : Call) : bool :=
  match c with
  | InitPlugins | AddPluginsToHostCli => true
  | _ => false
  end.

Definition notPluginCall (c : Call) : bool := negb (pluginCall c).

(** The loaded configuration, if any, does not allow plugins. *)
Definition PluginsOff (s : Statics) : Prop :=
  forall c, loadedConfig s = Some c -> allowPlugins c = false.

(** [m] keeps the plugins off and makes no call to the plugin management
    facility. *)
Definition Quiet {A : Type} (m : M A) : Prop :=
  Triple notPluginCall PluginsOff m (fun _ => True).

(** The value [init] rejects with for an error thrown inside it. *)
Definition rejection (error : JsValue) : JsValue :=
  if is_ImperativeError error then error
  else JsImperativeError "UNEXPECTED ERROR ENCOUNTERED" JsUndefined error None.

(** The callback [defineCommands] gives for each command: the exit code
    of the process it sets, if any. *)
Definition ERROR_EXIT_CODE : Z := 1%Z.

Definition commandCallback (response_success : bool) : option Z :=
  if negb response_success then Some ERROR_EXIT_CODE else None.

End Imperative.

(* ================================================================== *)
(** * A handler: [UseDependentProfile] *)
(* ================================================================== *)

Module Handlers.

Import Cmd.

(** Sequencing of the calls a handler makes on its response. *)
Definition iret {A : Type} (a : A) : Interaction A := ([], Normal a).

Definition ilift {A : Type} (c : Completion A) : Interaction A := ([], c).

Definition ibind {A B : Type} (m : Interaction A) (k : A -> Interaction B)
  : Interaction B :=
  match snd m with
  | Normal a => (fst m ++ fst (k a), snd (k a))
  | Throw e => (fst m, Throw e)
  end.

Section UseDependentProfile.

(** [params.profiles.get(type)] *)
Variable CommandProfiles_get : JsValue -> string -> Completion JsValue.

(** The text [response.console.log(format, values)] logs. *)
Variable formatMessage : string -> list (string * JsValue) -> string.

(** [response.console.log(format, {name: profile.name, type: profile.type})]:
    the arguments are evaluated first. *)
Definition logProfile (format : string) (profile : JsValue)
  : Interaction unit :=
  ibind (ilift (get_prop profile "name")) (fun profile_name =>
  ibind (ilift (get_prop profile "type")) (fun profile_type =>
  ([ConsoleLog
      (Text (formatMessage format
               [("name", profile_name); ("type", profile_type)]))],
   Normal tt))).

(** [process(params)] *)
Definition UseDependentProfile_process (params : IHandlerParameters)
  : Interaction unit :=
  ibind (ilift (CommandProfiles_get (hp_profiles params) "profile-a"))
    (fun dependencyProfile =>
  ibind (logProfile "Loaded profile dependency {{name}} of type {{type}}"
           dependencyProfile) (fun _ =>
  ibind (ilift (CommandProfiles_get (hp_profiles params)
                  "profile-with-dependency")) (fun mainProfile =>
  logProfile "Loaded main profile {{name}} of type {{type}}" mainProfile))).

Definition UseDependentProfile : ICommandHandler :=
  {| process := Some UseDependentProfile_process |}.

End UseDependentProfile.

End Handlers.

(* ================================================================== *)
(** * Concrete commands, hosts and handlers *)
(* ================================================================== *)

Module Scenario.

Import Cmd.

Definition greetDefinition : ICommandDefinition :=
  {| name := "greet"; type := "command"; handler := Some "/cli/greet.handler";
     chainedHandlers := None |}.

Definition greet : CommandProcessor :=
  {| mCommandRootName := "sample"; mDefinition := greetDefinition;
     mFullDefinition := greetDefinition |}.

Definition greetArguments : Arguments :=
  {| underscore := Some ["greet"]; options := [("name", JsString "Ada")] |}.

Definition greetParms : option IInvokeCommandParms :=
  Some {| arguments := Some greetArguments; silent := None;
          responseFormat := None |}.

Definition validSyntax
  : ICommandDefinition -> ICommandDefinition -> Arguments ->
    Interaction ICommandValidatorResponse :=
  fun _ _ _ => ([], Normal {| valid := true |}).

Definition missingName
  : ICommandDefinition -> ICommandDefinition -> Arguments ->
    Interaction ICommandValidatorResponse :=
  fun _ _ _ =>
    ([ConsoleErrorHeader "Syntax Error";
      ConsoleError (Text "Missing Required Option: --name")],
     Normal {| valid := false |}).

Definition brokenValidator
  : ICommandDefinition -> ICommandDefinition -> Arguments ->
    Interaction ICommandValidatorResponse :=
  fun _ _ _ => ([], Throw (JsError "boom" None)).

Definition noProfiles : ICommandDefinition -> Arguments -> Completion JsValue :=
  fun _ _ => Normal (JsObject []).

(** A handler that greets, then ends as [ending] says. *)
Definition greeter (ending : Completion unit) : ICommandHandler :=
  {| process :=
       Some (fun params =>
               ([ConsoleLog (Text "hello");
                 DataSetObj (JsObject [("greeted", JsString "Ada")])],
                ending)) |}.

(** A host with a given validator, profile loader and module loader; the
    other collaborators do nothing special. *)
Definition host
  (validator : ICommandDefinition -> ICommandDefinition -> Arguments ->
               Interaction ICommandValidatorResponse)
  (loader : ICommandDefinition -> Arguments -> Completion JsValue)
  (modules : string -> Completion ICommandHandler) : Host :=
  {| JSON_OPTION := "response-format-json";
     couldNotInstatiateCommandHandler :=
       fun commandHandler definitionName =>
         ("Could not instantiate the handler " ++ commandHandler
            ++ " for command " ++ definitionName)%string;
     normalize := fun p => p;
     SyntaxValidator_validate := validator;
     readStdinIfRequested := fun args _ => ([], Normal args);
     loadProfiles := loader;
     require_default := modules;
     getArguments := fun _ _ _ _ args => Normal args |}.

(** The handler of [greet] throws the number 42. *)
Definition throws42 : Host :=
  host validSyntax noProfiles (fun _ => Normal (greeter (Throw (JsNumber 42)))).

(** The handler of [greet] throws an [ImperativeError]. *)
Definition throwsImperative : Host :=
  host validSyntax noProfiles
    (fun _ => Normal (greeter (Throw (JsImperativeError "Not found"
                                        (JsString "No such user") JsUndefined
                                        None)))).

(** The arguments lack the required option. *)
Definition invalidSyntax : Host :=
  host missingName noProfiles (fun _ => Normal (greeter (Normal tt))).

(** The validator itself throws. *)
Definition validatorThrows : Host :=
  host brokenValidator noProfiles (fun _ => Normal (greeter (Normal tt))).

(** The validator throws a string. *)
Definition validatorThrowsString : Host :=
  host (fun _ _ _ => ([], Throw (JsString "boom"))) noProfiles
    (fun _ => Normal (greeter (Normal tt))).

(** The module loader throws a string. *)
Definition loaderThrowsString : Host :=
  host validSyntax noProfiles (fun _ => Throw (JsString "boom")).

(** The handler of [greet] greets and returns. *)
Definition greetHost : Host :=
  host validSyntax noProfiles (fun _ => Normal (greeter (Normal tt))).

(** [greet] with a handler and an empty list of chained handlers. *)
Definition greetWithEmptyChain : CommandProcessor :=
  {| mCommandRootName := "sample";
     mDefinition :=
       {| name := "greet"; type := "command";
          handler := Some "/cli/greet.handler"; chainedHandlers := Some [] |};
     mFullDefinition := greetDefinition |}.

(** Profile loading fails with the given error. *)
Definition prepareThrows (e : JsValue) : Host :=
  host validSyntax (fun _ _ => Throw e) (fun _ => Normal (greeter (Normal tt))).

(** The constructor of the handler throws. *)
Definition constructorThrows : Host :=
  host validSyntax noProfiles (fun _ => Throw (JsError "boom" None)).

(** The root command invoked with an empty positional list. *)
Definition rootArguments : Arguments :=
  {| underscore := Some []; options := [] |}.

Definition rootParms : option IInvokeCommandParms :=
  Some {| arguments := Some rootArguments; silent := None;
          responseFormat := None |}.

(** A chain of three steps; the second one rejects with a string. *)
Definition step (path : string) : IChainedHandlerEntry :=
  {| chained_handler := path; chained_silent := Some true; mapping := [] |}.

Definition chainDefinition (chain : list IChainedHandlerEntry)
  : ICommandDefinition :=
  {| name := "deploy"; type := "command"; handler := None;
     chainedHandlers := Some chain |}.

Definition deploy (chain : list IChainedHandlerEntry) : CommandProcessor :=
  {| mCommandRootName := "sample"; mDefinition := chainDefinition chain;
     mFullDefinition := chainDefinition chain |}.

Definition deployParms : option IInvokeCommandParms :=
  Some {| arguments :=
            Some {| underscore := Some ["deploy"]; options := [] |};
          silent := None; responseFormat := None |}.

Definition logs (text : string) (ending : Completion unit) : ICommandHandler :=
  {| process := Some (fun _ => ([ConsoleLog (Text text)], ending)) |}.

Definition chainHost : Host :=
  host validSyntax noProfiles
    (fun path =>
       if String.eqb path "/cli/build" then Normal (logs "built" (Normal tt))
       else if String.eqb path "/cli/test" then
         Normal (logs "testing" (Throw (JsString "tests failed")))
       else Normal (logs "published" (Normal tt))).

Definition threeSteps : list IChainedHandlerEntry :=
  [step "/cli/build"; step "/cli/test"; step "/cli/publish"].

End Scenario.

(* ================================================================== *)
(** * Further commands, hosts and handlers *)
(* ================================================================== *)

Module ScenarioMore.

Import Cmd CmdMore Scenario.

(** [greet] invoked silently, and with the JSON format. *)
Definition silentParms : IInvokeCommandParms :=
  {| arguments := Some greetArguments; silent := Some true;
     responseFormat := None |}.

Definition jsonParms : IInvokeCommandParms :=
  {| arguments := Some greetArguments; silent := None;
     responseFormat := Some "json" |}.

(** The handler of [greet] returns. *)
Definition greets : Host :=
  host validSyntax noProfiles (fun _ => Normal (greeter (Normal tt))).

(** A host each of whose collaborators throws on some arguments: the
    validator when no command is given, the stdin reader when stdin is
    asked for, the profile loader when no profile is named, the module
    loader for every module but that of [greet], whose handler throws the
    number 42. *)
Definition picky : Host :=
  {| JSON_OPTION := "response-format-json";
     couldNotInstatiateCommandHandler :=
       fun commandHandler definitionName =>
         ("Could not instantiate the handler " ++ commandHandler
            ++ " for command " ++ definitionName)%string;
     normalize := fun p => p;
     SyntaxValidator_validate :=
       fun _ _ args =>
         match underscore args with
         | Some (_ :: _) => ([], Normal {| valid := true |})
         | _ => ([], Throw (JsError "No command was given" None))
         end;
     readStdinIfRequested :=
       fun args _ =>
         match assoc "stdin" (options args) with
         | JsUndefined => ([], Normal args)
         | _ => ([], Throw (ImperativeError_of_msg "No stdin to read"))
         end;
     loadProfiles :=
       fun _ args =>
         match assoc "name" (options args) with
         | JsUndefined =>
             Throw (JsImperativeError "Profile missing"
                      (JsString "No profile of type main") JsUndefined None)
         | _ => Normal (JsObject [])
         end;
     require_default :=
       fun path =>
         if String.eqb path "/cli/greet.handler"
         then Normal (greeter (Throw (JsNumber 42)))
         else Throw (JsError "Cannot find module" None);
     getArguments := fun _ _ _ _ args => Normal args |}.

(** A handler that greets, marks the response as failed, and returns. *)
Definition sulks : ICommandHandler :=
  {| process :=
       Some (fun _ => ([ConsoleLog (Text "hello"); MarkFailed], Normal tt)) |}.

Definition sulking : Host :=
  host validSyntax noProfiles (fun _ => Normal sulks).

(** The module of the handler exports a class without [process]. *)
Definition noProcess : Host :=
  host validSyntax noProfiles (fun _ => Normal {| process := None |}).

(** A step that is not marked silent. *)
Definition loud (path : string) : IChainedHandlerEntry :=
  {| chained_handler := path; chained_silent := None; mapping := [] |}.

(** The modules of the build and publish steps exist; no other does. *)
Definition buildHost : Host :=
  host validSyntax noProfiles
    (fun path =>
       if String.eqb path "/cli/build" then Normal (logs "built" (Normal tt))
       else if String.eqb path "/cli/publish" then
         Normal (logs "published" (Normal tt))
       else Throw (JsError "Cannot find module" None)).

Definition deployArguments : Arguments :=
  {| underscore := Some ["deploy"]; options := [] |}.

(** [deploy] invoked silently, with the JSON option among the arguments. *)
Definition jsonDeployArguments : Arguments :=
  {| underscore := Some ["deploy"];
     options := [("response-format-json", JsBoolean true)] |}.

Definition silentJsonDeployParms : option IInvokeCommandParms :=
  Some {| arguments := Some jsonDeployArguments; silent := Some true;
          responseFormat := None |}.

(** [deploy] invoked silently, in the default format. *)
Definition silentDeployParms : option IInvokeCommandParms :=
  Some {| arguments := Some deployArguments; silent := Some true;
          responseFormat := None |}.

(** A step that sets the data of its response and logs. *)
Definition builds : ICommandHandler :=
  {| process :=
       Some (fun _ =>
               ([DataSetObj (JsObject [("artifact", JsString "app.tgz")]);
                 ConsoleLog (Text "built")],
                Normal tt)) |}.

Definition artifactHost : Host :=
  host validSyntax noProfiles (fun _ => Normal builds).

Definition noProfilesPrepared : ICommandPrepared :=
  {| profiles := JsObject [] |}.

(** The response [invoke] starts from, for the default parameters. *)
Definition fresh : CommandResponse := new_CommandResponse None false None.

(** The help generator and the constructor parameters of [greet]. *)
Definition greetHelp : IHelpGenerator :=
  {| buildHelp := Normal "Usage: sample greet" |}.

Definition greetProcessorParms : ICommandProcessorParms :=
  {| cp_definition := Some greetDefinition; cp_fullDefinition := None;
     cp_helpGenerator := Some greetHelp;
     cp_profileManagerFactory := Some ProfileManagerFactory;
     cp_rootCommandName := Some "sample" |}.

Definition greetInstance : Instance :=
  {| processor := greet; mHelpGenerator := greetHelp;
     mProfileManagerFactory := ProfileManagerFactory |}.

End ScenarioMore.

(* ================================================================== *)
(** * A concrete application and its environment *)
(* ================================================================== *)

Module ImperativeScenario.

Import Imperative.

Definition zosmf : ICommandProfileTypeConfiguration :=
  {| type := "zosmf"; schema := JsObject [("title", JsString "z/OSMF")] |}.

Definition tso : ICommandProfileTypeConfiguration :=
  {| type := "tso"; schema := JsObject [("title", JsString "TSO")] |}.

(** A second configuration of the type of the first. *)
Definition zosmfAgain : ICommandProfileTypeConfiguration :=
  {| type := "zosmf"; schema := JsObject [("title", JsString "again")] |}.

Definition noLogs : IImperativeLogsConfig :=
  {| additionalLogging := None |}.

Definition sampleConfig : IImperativeConfig :=
  {| name := "sample"; cfg_envVariablePrefix := None;
     profiles := Some [zosmf; tso; zosmfAgain];
     logging :=
       Some {| additionalLogging :=
                 Some [{| apiName := "audit" |}; {| apiName := "trace" |}] |};
     allowPlugins := true; primaryTextColor := "yellow";
     progressBarSpinner := "-oO0)|(0Oo-";
     experimentalCommandDescription := "experimental" |}.

Definition sampleTree : ICommandDefinition :=
  mkCommand "sample" ["help"] (Some [mkCommand "greet" [] None]).

(** The configuration, with a [logging] object when it had none. *)
Definition withLogging (c : IImperativeConfig) : IImperativeConfig :=
  {| name := name c; cfg_envVariablePrefix := cfg_envVariablePrefix c;
     profiles := profiles c;
     logging := Some match logging c with
                     | Some logs => logs
                     | None => noLogs
                     end;
     allowPlugins := allowPlugins c; primaryTextColor := primaryTextColor c;
     progressBarSpinner := progressBarSpinner c;
     experimentalCommandDescription := experimentalCommandDescription c |}.

(** An environment where every call returns; the validator is a
    parameter. *)
Definition world
  (validate : IImperativeConfig -> Completion IImperativeConfig) : World :=
  {| mainModule_filename := Normal "/usr/lib/sample/lib/main.js";
     ConfigurationLoader_load := fun _ => Normal sampleConfig;
     ConfigurationValidator_validate := validate;
     cliHome := fun _ => "/home/user/.sample";
     LoggingConfigurer_configureLogger := fun _ _ => Normal (JsObject []);
     Logger_initLogger := fun _ => Normal tt;
     Logger_getImperativeLogger := LoggerObject 0;
     Logger_getAppLogger := LoggerObject 1;
     Logger_getConsoleLogger := fun n => LoggerObject (100 + n);
     Logger_getLoggerCategory :=
       fun category => LoggerObject (2 + String.length category);
     EnvironmentalVariableSettings_read :=
       fun prefix =>
         Normal {| imperativeLogLevel :=
                     {| key := (prefix ++ "_IMPERATIVE_LOG_LEVEL")%string;
                        value := Some "TRACE" |};
                   appLogLevel :=
                     {| key := (prefix ++ "_APP_LOG_LEVEL")%string; value := None |} |};
     OverridesLoader_load := fun c => Normal (withLogging c);
     findPackageBinName := None;
     PluginManagementFacility_init := fun c => Normal (withLogging c);
     resolvedCmdTree := fun _ => Normal sampleTree;
     addPluginsToHostCli := fun t c => Normal (t, c);
     getPreparedCmdTree := fun _ => Normal sampleTree;
     constructProfilesRootDirectory := fun home => (home ++ "/profiles")%string;
     CliProfileManager_initialize := fun _ => Normal tt;
     YargsConfigurer_configure := fun _ _ => Normal tt;
     CommandYargs_defineOptionsToYargs := fun _ => Normal tt;
     YargsDefiner_define := fun _ _ => Normal tt |}.

Definition friendly : World := world (fun c => Normal (withLogging c)).

(** The validator refuses the configuration. *)
Definition strict : World :=
  world (fun _ => Throw (JsError "The configuration has no definitions" None)).

(** The configuration, with the plugins turned off. *)
Definition withoutPlugins (c : IImperativeConfig) : IImperativeConfig :=
  {| name := name c; cfg_envVariablePrefix := cfg_envVariablePrefix c;
     profiles := profiles c; logging := logging c;
     allowPlugins := false; primaryTextColor := primaryTextColor c;
     progressBarSpinner := progressBarSpinner c;
     experimentalCommandDescription := experimentalCommandDescription c |}.

(** The validator turns the plugins off. *)
Definition cautious : World :=
  world (fun c => Normal (withoutPlugins (withLogging c))).

(** The statics once [sampleConfig] is loaded. *)
Definition loaded : Statics := set_loadedConfig sampleConfig pristine.

End ImperativeScenario.

(* ================================================================== *)
(** * A command handled by [UseDependentProfile] *)
(* ================================================================== *)

Module HandlerScenario.

Import Cmd Scenario Handlers.

Definition profileOf (n t : string) : JsValue :=
  JsObject [("name", JsString n); ("type", JsString t)].

(** Both profiles are loaded. *)
Definition bothProfiles : JsValue -> string -> Completion JsValue :=
  fun _ profileType =>
    if String.eqb profileType "profile-a"
    then Normal (profileOf "first" "profile-a")
    else Normal (profileOf "main" "profile-with-dependency").

(** The main profile is not loaded. *)
Definition onlyDependency : JsValue -> string -> Completion JsValue :=
  fun _ profileType =>
    if String.eqb profileType "profile-a"
    then Normal (profileOf "first" "profile-a")
    else Normal JsUndefined.

(** A rendering that appends the values to the format. *)
Definition render (format : string) (values : list (string * JsValue))
  : string :=
  (format ++ " <- " ++ join "," (map (fun kv => ToString (snd kv)) values))%string.

Definition reporting (get : JsValue -> string -> Completion JsValue) : Host :=
  host validSyntax noProfiles (fun _ => Normal (UseDependentProfile get render)).

End HandlerScenario.

(* ================================================================== *)
(** * Properties of the base64 wrapping *)
(* ================================================================== *)

Module BufferFacts.

Import Buffer.
Local Open Scope N_scope.

Ltac euclid := zify; Z.to_euclidean_division_equations; lia.

(** Lists can be taken apart three elements at a time, as [encode] does. *)
Lemma list_ind3 {A : Type} (P : list A -> Prop) :
  P [] ->
  (forall a, P [a]) ->
  (forall a b, P [a; b]) ->
  (forall a b c l, P l -> P (a :: b :: c :: l)) ->
  forall l, P l.
Proof.
  intros H0 H1 H2 H3 l.
  assert (G : P l /\ (forall a, P (a :: l)) /\ (forall a b, P (a :: b :: l))).
  { induction l as [|c l [IH0 [IH1 IH2]]].
    - repeat split; auto.
    - repeat split; auto. }
  exact (proj1 G).
Qed.

Lemma sextet_table :
  forallb sextet_ok (map N.of_nat (seq 0 64)) = true.
Proof. vm_compute. reflexivity. Qed.

Lemma sextet_roundtrip (n : N) :
  n < 64 ->
  decode_sextet (encode_sextet n) = Some n
  /\ Ascii.eqb (encode_sextet n) pad = false.
Proof.
  intros Hn.
  pose proof sextet_table as T.
  rewrite forallb_forall in T.
  assert (Hin : In n (map N.of_nat (seq 0 64))).
  { rewrite <- (N2Nat.id n). apply in_map. apply in_seq. lia. }
  specialize (T n Hin). unfold sextet_ok in T.
  apply andb_true_iff in T. destruct T as [T1 T2].
  split.
  - destruct (decode_sextet (encode_sextet n)) as [m|]; [|discriminate].
    apply N.eqb_eq in T1. now subst.
  - now apply negb_true_iff in T2.
Qed.

Lemma sextets_cons (n : N) (r : list ascii) :
  n < 64 -> sextets (encode_sextet n :: r) = n :: sextets r.
Proof.
  intros Hn. destruct (sextet_roundtrip n Hn) as [Hd He].
  cbn [sextets]. now rewrite He, Hd.
Qed.

Lemma sextets_pad (r : list ascii) : sextets (pad :: r) = [].
Proof. reflexivity. Qed.

Lemma byte_of (a : ascii) (n : N) : n = N_of_ascii a -> ascii_of_N n = a.
Proof. intros ->. apply ascii_N_embedding. Qed.

(** Decoding the encoding of a buffer gives the buffer back. *)
Lemma decode_encode (b : Buffer) : bytes_of_sextets (sextets (encode b)) = b.
Proof.
  induction b as [|a|a b|a b c l IH] using list_ind3.
  - reflexivity.
  - pose proof (N_ascii_bounded a) as Ha.
    cbn [encode]. rewrite !sextets_cons, sextets_pad by euclid.
    cbn [bytes_of_sextets]. f_equal. apply byte_of. euclid.
  - pose proof (N_ascii_bounded a) as Ha.
    pose proof (N_ascii_bounded b) as Hb.
    cbn [encode]. rewrite !sextets_cons, sextets_pad by euclid.
    cbn [bytes_of_sextets]. repeat f_equal; apply byte_of; euclid.
  - pose proof (N_ascii_bounded a) as Ha.
    pose proof (N_ascii_bounded b) as Hb.
    pose proof (N_ascii_bounded c) as Hc.
    cbn [encode]. rewrite !sextets_cons by euclid.
    cbn [bytes_of_sextets]. rewrite IH.
    repeat f_equal; apply byte_of; euclid.
Qed.

(** ** The UTF-8 conversions *)

Lemma byte_in_spec (lo hi : N) (c : ascii) :
  byte_in lo hi c = true <-> lo <= N_of_ascii c <= hi.
Proof.
  unfold byte_in. rewrite andb_true_iff, !N.leb_le. tauto.
Qed.

Lemma byte_in_false (lo hi : N) (c : ascii) :
  byte_in lo hi c = false <-> N_of_ascii c < lo \/ hi < N_of_ascii c.
Proof.
  unfold byte_in. rewrite andb_false_iff, !N.leb_gt. tauto.
Qed.

(** A byte other than ED is encoded as itself. *)
Lemma encode_utf8_cons (a : ascii) (l : list ascii) :
  N_of_ascii a <> 237 -> encode_utf8 (a :: l) = a :: encode_utf8 l.
Proof.
  intros Ha. apply N.eqb_neq in Ha.
  destruct l as [|b [|c rest]]; cbn [encode_utf8]; try reflexivity.
  now rewrite Ha.
Qed.

(** ED before a byte below A0 is encoded as itself. *)
Lemma encode_utf8_cons_ED (a b : ascii) (l : list ascii) :
  byte_in 160 191 b = false ->
  encode_utf8 (a :: b :: l) = a :: encode_utf8 (b :: l).
Proof.
  intros Hb. destruct l as [|c rest]; [reflexivity|].
  cbn [encode_utf8]. rewrite Hb, andb_false_r. reflexivity.
Qed.

Ltac bounds :=
  repeat match goal with
         | H : byte_in _ _ _ = true |- _ => apply byte_in_spec in H
         | H : byte_in _ _ _ = false |- _ => apply byte_in_false in H
         | H : (_ <? _) = true |- _ => apply N.ltb_lt in H
         | H : (_ <? _) = false |- _ => apply N.ltb_ge in H
         | H : (_ =? _) = true |- _ => apply N.eqb_eq in H
         | H : (_ =? _) = false |- _ => apply N.eqb_neq in H
         | H : _ && _ = true |- _ => apply andb_true_iff in H; destruct H
         end.

(** Well-formed text is its own encoding. *)
Lemma encode_utf8_well_formed (n : nat) (bs : list ascii) :
  (List.length bs <= n)%nat -> well_formed bs = true -> encode_utf8 bs = bs.
Proof.
  revert bs. induction n as [|n IH]; intros bs L W.
  - destruct bs; [reflexivity | cbn in L; lia].
  - destruct bs as [|a r]; [reflexivity|].
    cbn [well_formed] in W. cbn [List.length] in L.
    destruct (N_of_ascii a <? 128) eqn:E1.
    { rewrite encode_utf8_cons by (bounds; lia).
      f_equal. apply IH; [lia | exact W]. }
    destruct (byte_in 194 223 a) eqn:E2.
    { destruct r as [|b r1]; [discriminate|]. bounds.
      rewrite !encode_utf8_cons by lia.
      do 2 f_equal. apply IH; [cbn in L; lia | assumption]. }
    destruct (byte_in 224 239 a) eqn:E3.
    { destruct r as [|b [|c r2]]; try discriminate.
      apply andb_true_iff in W. destruct W as [W W2].
      apply andb_true_iff in W. destruct W as [Wb Wc].
      assert (Hb : byte_in 160 191 b = false \/ N_of_ascii a <> 237).
      { destruct (N_of_ascii a =? 237) eqn:E; [left | right; bounds; lia].
        destruct (N_of_ascii a =? 224); bounds; apply byte_in_false; lia. }
      assert (St : encode_utf8 (a :: b :: c :: r2)
                   = a :: encode_utf8 (b :: c :: r2)).
      { destruct Hb as [Hb | Hb];
          [now apply encode_utf8_cons_ED | now apply encode_utf8_cons]. }
      rewrite St.
      assert (N_of_ascii b <> 237)
        by (destruct (N_of_ascii a =? 224), (N_of_ascii a =? 237);
            bounds; lia).
      assert (N_of_ascii c <> 237) by (bounds; lia).
      rewrite !encode_utf8_cons by assumption.
      do 3 f_equal. apply IH; [cbn in L; lia | assumption]. }
    destruct (byte_in 240 244 a) eqn:E4; [|discriminate].
    destruct r as [|b [|c [|d r3]]]; try discriminate.
    apply andb_true_iff in W. destruct W as [W W3].
    apply andb_true_iff in W. destruct W as [W Wd].
    apply andb_true_iff in W. destruct W as [Wb Wc].
    assert (N_of_ascii a <> 237) by (bounds; lia).
    assert (N_of_ascii b <> 237)
      by (destruct (N_of_ascii a =? 240), (N_of_ascii a =? 244);
          bounds; lia).
    assert (N_of_ascii c <> 237) by (bounds; lia).
    assert (N_of_ascii d <> 237) by (bounds; lia).
    rewrite !encode_utf8_cons by assumption.
    do 4 f_equal. apply IH; [cbn in L; lia | assumption].
Qed.

(** Well-formed bytes decode to themselves. *)
Lemma decode_utf8_well_formed (n : nat) (bs : list ascii) :
  (List.length bs <= n)%nat -> well_formed bs = true -> decode_utf8 bs = bs.
Proof.
  revert bs. induction n as [|n IH]; intros bs L W.
  - destruct bs; [reflexivity | cbn in L; lia].
  - destruct bs as [|a r]; [reflexivity|].
    cbn [well_formed] in W. cbn [decode_utf8]. cbn [List.length] in L.
    destruct (N_of_ascii a <? 128).
    { f_equal. apply IH; [lia | exact W]. }
    destruct (byte_in 194 223 a).
    { destruct r as [|b r1]; [discriminate|].
      apply andb_true_iff in W. destruct W as [-> W].
      do 2 f_equal. apply IH; [cbn in L; lia | assumption]. }
    destruct (byte_in 224 239 a).
    { destruct r as [|b [|c r2]]; try discriminate.
      apply andb_true_iff in W. destruct W as [W W2].
      apply andb_true_iff in W. destruct W as [-> ->].
      do 3 f_equal. apply IH; [cbn in L; lia | assumption]. }
    destruct (byte_in 240 244 a); [|discriminate].
    destruct r as [|b [|c [|d r3]]]; try discriminate.
    apply andb_true_iff in W. destruct W as [W W3].
    apply andb_true_iff in W. destruct W as [W ->].
    apply andb_true_iff in W. destruct W as [-> ->].
    do 4 f_equal. apply IH; [cbn in L; lia | assumption].
Qed.

Lemma encode_utf8_three (a b c : ascii) (rest : list ascii) :
  encode_utf8 (a :: b :: c :: rest)
  = if (N_of_ascii a =? 237) && byte_in 160 191 b && byte_in 128 191 c
    then replacement ++ encode_utf8 rest
    else a :: encode_utf8 (b :: c :: rest).
Proof. reflexivity. Qed.

(** Encoding keeps the number of bytes: U+FFFD takes three, as an
    unpaired surrogate does. *)
Lemma encode_utf8_length (n : nat) (bs : list ascii) :
  (List.length bs <= n)%nat ->
  List.length (encode_utf8 bs) = List.length bs.
Proof.
  revert bs. induction n as [|n IH]; intros bs L.
  - destruct bs; [reflexivity | cbn in L; lia].
  - destruct bs as [|a [|b [|c rest]]]; [reflexivity..|].
    rewrite encode_utf8_three.
    destruct ((N_of_ascii a =? 237) && byte_in 160 191 b
              && byte_in 128 191 c).
    + cbn [replacement app List.length]. rewrite IH; [reflexivity|].
      cbn in L. lia.
    + cbn [List.length]. f_equal.
      rewrite (IH (b :: c :: rest)); [reflexivity | cbn in *; lia].
Qed.

(** Decoding the stored form gives the bytes [Buffer.from] made of the
    string. *)
Lemma base64_bytes_roundtrip (s : string) :
  from_base64 (toString_base64 (from s)) = from s.
Proof.
  unfold from_base64, toString_base64.
  rewrite list_ascii_of_string_of_list_ascii. apply decode_encode.
Qed.

(** A string without unpaired surrogates is the string of its bytes. *)
Lemma utf8_roundtrip (s : string) :
  isWellFormed s = true -> toString (from s) = s.
Proof.
  unfold isWellFormed, toString, from. intros W.
  rewrite (encode_utf8_well_formed _ _ (Nat.le_refl _) W).
  rewrite (decode_utf8_well_formed _ _ (Nat.le_refl _) W).
  apply string_of_list_ascii_of_string.
Qed.

Lemma base64_roundtrip (s : string) :
  isWellFormed s = true ->
  toString (from_base64 (toString_base64 (from s))) = s.
Proof.
  intros W. rewrite base64_bytes_roundtrip. now apply utf8_roundtrip.
Qed.

Example base64_hello : toString_base64 (from "hello!!") = "aGVsbG8hIQ=="%string.
Proof. reflexivity. Qed.

End BufferFacts.

(* ================================================================== *)
(** * Properties of the credential manager *)
(* ================================================================== *)

Module CredentialManagerFacts.

Import CredentialManager.

Lemma missing_test (v : SecureValue) :
  negb (isNullOrUndefined v) && notEmptyString v = false <-> missing v.
Proof.
  unfold missing. destruct v as [| |s]; cbn.
  - intuition.
  - intuition.
  - destruct s; cbn; intuition congruence.
Qed.

(** C8. [save(account, secureValue)] throws an [ImperativeError] with the
    message "Missing Secure Field" exactly when [secureValue] is
    [undefined], [null] or the empty string, and then leaves the backing
    store as it was; for every other value it hands the base64 form to
    [saveCredentials], which, on a backing store that does not throw,
    completes without error. *)
Theorem save_rejects_exactly_missing_secret {Store : Type} `{Backing Store}
  (nonthrowing : forall a c st, snd (saveCredentials a c st) = Normal tt)
  (account : string) (secureValue : SecureValue) (st : Store) :
  (missing secureValue ->
   save account secureValue st
   = (st, Throw (ImperativeError_of_msg "Missing Secure Field")))
  /\ (~ missing secureValue ->
      save account secureValue st
      = saveCredentials account
          (Buffer.toString_base64 (Buffer.from (template secureValue))) st
      /\ snd (save account secureValue st) = Normal tt).
Proof.
  unfold save. split; intros Hm.
  - apply missing_test in Hm. rewrite Hm. reflexivity.
  - destruct (negb (isNullOrUndefined secureValue) && notEmptyString secureValue)
      eqn:E.
    + split; [reflexivity | apply nonthrowing].
    + apply missing_test in E. contradiction.
Qed.

Lemma save_rejects_exactly_missing_secret_witness :
  save "zosmf_prod_pass" (Str "s3cret") ([] : MemoryStore)
  = ([("zosmf_prod_pass", "czNjcmV0")], Normal tt)
  /\ save "zosmf_prod_pass" (Str EmptyString) ([] : MemoryStore)
     = ([], Throw (ImperativeError_of_msg "Missing Secure Field")).
Proof.
  pose proof (save_rejects_exactly_missing_secret
                (fun _ _ _ => eq_refl) "zosmf_prod_pass" (Str "s3cret")
                ([] : MemoryStore)) as [_ Hs].
  pose proof (save_rejects_exactly_missing_secret
                (fun _ _ _ => eq_refl) "zosmf_prod_pass" (Str EmptyString)
                ([] : MemoryStore)) as [Hm _].
  split.
  - destruct Hs as [Hs _].
    + intros [E | [E | E]]; discriminate E.
    + rewrite Hs. reflexivity.
  - apply Hm. right. right. reflexivity.
Defined.

(** C9, as the code has it. With a backing store whose [loadCredentials]
    returns what [saveCredentials] stored for the account, [load(a)] after
    [save(a, s)] returns [s], for every non-empty secret [s] that has no
    unpaired surrogate: [save] stores the base64 form of the UTF-8 bytes
    of [s], and [load] decodes them. *)
Theorem load_after_save {Store : Type} `{Backing Store}
  (faithful : forall a c st st',
      saveCredentials a c st = (st', Normal tt) ->
      snd (loadCredentials a st') = Normal c)
  (account s : string) (st st' : Store) :
  s <> EmptyString ->
  Buffer.isWellFormed s = true ->
  save account (Str s) st = (st', Normal tt) ->
  snd (load account st') = Normal s.
Proof.
  intros Hs Hw Hsave. unfold save, isNullOrUndefined, notEmptyString in Hsave.
  destruct (String.eqb s EmptyString) eqn:E.
  - apply String.eqb_eq in E. contradiction.
  - cbn [negb andb] in Hsave. apply faithful in Hsave.
    unfold load, bind.
    destruct (loadCredentials account st') as [st'' [c|v]]; cbn [snd] in *.
    + injection Hsave as ->. unfold ret, template.
      rewrite (BufferFacts.base64_roundtrip s Hw). reflexivity.
    + discriminate.
Qed.

Lemma memory_faithful (a : string) (c : SecureCredential) (st st' : MemoryStore) :
  saveCredentials a c st = (st', Normal tt) ->
  snd (loadCredentials a st') = Normal c.
Proof.
  cbn. intros E. injection E as <-. cbn. now rewrite String.eqb_refl.
Qed.

Lemma load_after_save_witness :
  snd (load "zosmf_prod_pass" [("zosmf_prod_pass", "czNjcmV0")])
  = Normal "s3cret".
Proof.
  apply (load_after_save memory_faithful "zosmf_prod_pass" "s3cret"
           ([] : MemoryStore)).
  - discriminate.
  - reflexivity.
  - reflexivity.
Defined.

(** The secret is the unpaired surrogate U+D800: [save] stores the
    credential of U+FFFD, "77+9", and U+FFFD is what [load] returns. *)
Lemma load_after_save_counterexample :
  save "zosmf_prod_pass" (Str (bytes [237; 160; 128])) ([] : MemoryStore)
  = ([("zosmf_prod_pass", "77+9")], Normal tt)
  /\ snd (load "zosmf_prod_pass" [("zosmf_prod_pass", "77+9")])
     = Normal (bytes [239; 191; 189])
  /\ snd (load "zosmf_prod_pass" [("zosmf_prod_pass", "77+9")])
     <> Normal (bytes [237; 160; 128]).
Proof.
  split; [reflexivity|]. split; [reflexivity|].
  intros E. vm_compute in E. discriminate E.
Qed.

End CredentialManagerFacts.


(* ================================================================== *)
(** * Properties of the command processor *)
(* ================================================================== *)

Module CmdFacts.

Import Cmd.

(** ** Sequencing *)

Lemma completion_bind {A B : Type} (m : Eff A) (k : A -> Eff B) (a : A) :
  completion m = Normal a -> completion (bind m k) = completion (k a).
Proof. unfold completion, bind. intros ->. reflexivity. Qed.

Lemma completion_bind_throw {A B : Type} (m : Eff A) (k : A -> Eff B)
  (v : JsValue) :
  completion m = Throw v -> completion (bind m k) = Throw v.
Proof. unfold completion, bind. intros ->. reflexivity. Qed.

Lemma events_bind {A B : Type} (m : Eff A) (k : A -> Eff B) (a : A) :
  completion m = Normal a -> events (bind m k) = events m ++ events (k a).
Proof. unfold completion, events, bind. intros ->. reflexivity. Qed.

Lemma events_bind_throw {A B : Type} (m : Eff A) (k : A -> Eff B)
  (v : JsValue) :
  completion m = Throw v -> events (bind m k) = events m.
Proof. unfold completion, events, bind. intros ->. reflexivity. Qed.

Lemma completion_bind_pair {A B : Type} (t : list Event) (a : A)
  (k : A -> Eff B) :
  completion (bind (t, Normal a) k) = completion (k a).
Proof. reflexivity. Qed.

Lemma events_bind_pair {A B : Type} (t : list Event) (a : A)
  (k : A -> Eff B) :
  events (bind (t, Normal a) k) = t ++ events (k a).
Proof. reflexivity. Qed.

Lemma bind_assoc {A B C : Type} (m : Eff A) (k1 : A -> Eff B)
  (k2 : B -> Eff C) :
  bind (bind m k1) k2 = bind m (fun a => bind (k1 a) k2).
Proof.
  unfold bind. destruct m as [t [a|v]]; cbn; [|reflexivity].
  destruct (k1 a) as [t1 [b|v]]; cbn; now rewrite ?app_assoc.
Qed.

Lemma completion_emit {B : Type} (e : Event) (k : unit -> Eff B) :
  completion (bind (emit e) k) = completion (k tt).
Proof. reflexivity. Qed.

Lemma events_emit {B : Type} (e : Event) (k : unit -> Eff B) :
  events (bind (emit e) k) = e :: events (k tt).
Proof. reflexivity. Qed.

Lemma calls_app (t t' : list Event) : calls (t ++ t') = calls t ++ calls t'.
Proof. apply filter_app. Qed.

Lemma processed_app (t t' : list Event) :
  processed (t ++ t') = processed t ++ processed t'.
Proof. apply flat_map_app. Qed.

Lemma extends_refl {A : Type} (a : list A) : extends a a.
Proof. exists []. now rewrite app_nil_r. Qed.

Lemma extends_trans {A : Type} (a b c : list A) :
  extends a b -> extends b c -> extends a c.
Proof. intros [x ->] [y ->]. exists (x ++ y). now rewrite app_assoc. Qed.

Lemma extends_app {A : Type} (a x : list A) : extends a (a ++ x).
Proof. now exists x. Qed.

(** ** What the calls on a response keep *)

Lemma grown_refl (r : CommandResponse) : grown r r.
Proof. split; auto using extends_refl. Qed.

Lemma grown_trans (a b c : CommandResponse) :
  grown a b -> grown b c -> grown a c.
Proof.
  intros [] []. split; try congruence; eauto using extends_trans.
Qed.

Lemma apply_action_grown (r : CommandResponse) (a : ResponseAction) :
  exists r', completion (apply_action r a) = Normal r'
             /\ grown r r' /\ calls (events (apply_action r a)) = [].
Proof.
  destruct a; cbn; eexists; (split; [reflexivity|]); split;
    try (split; cbn; auto using extends_refl, extends_app);
    try reflexivity;
    destruct (mSilent r); reflexivity.
Qed.

Lemma apply_actions_grown (l : list ResponseAction) (r : CommandResponse) :
  exists r', completion (apply_actions r l) = Normal r'
             /\ grown r r' /\ calls (events (apply_actions r l)) = [].
Proof.
  revert r. induction l as [|a l IH]; intros r.
  - exists r. cbn. auto using grown_refl.
  - cbn [apply_actions].
    destruct (apply_action_grown r a) as (r1 & E1 & G1 & C1).
    destruct (IH r1) as (r2 & E2 & G2 & C2).
    exists r2. rewrite (completion_bind _ _ _ E1), (events_bind _ _ _ E1).
    rewrite calls_app, C1, C2. eauto using grown_trans.
Qed.

Lemma interact_grown {A : Type} (r : CommandResponse) (x : Interaction A) :
  exists r', completion (interact r x) = Normal (r', snd x)
             /\ grown r r' /\ calls (events (interact r x)) = [].
Proof.
  unfold interact.
  destruct (apply_actions_grown (fst x) r) as (r' & E & G & C).
  exists r'. rewrite (completion_bind _ _ _ E), (events_bind _ _ _ E).
  rewrite calls_app, C. cbn. auto.
Qed.

(** ** The stages of the pipeline *)

Section Stages.

Variable H : Host.
Variable this : CommandProcessor.

Lemma ensureParameters_inv (params : option IInvokeCommandParms)
  (p : IInvokeCommandParms) (args : Arguments) (u : list string) :
  completion (ensureParameters this params) = Normal (p, args, u) ->
  arguments p = Some args /\ underscore args = Some u
  /\ (responseFormat p = Some "default" \/ responseFormat p = Some "json")
  /\ (chainedHandlers (definition this) = None ->
      handler (definition this) <> None)
  /\ exists p0, params = Some p0 /\ silent p = silent p0
                /\ arguments p0 = Some args
                /\ responseFormat p
                   = Some (match responseFormat p0 with
                           | Some f => f
                           | None => "default"
                           end).
Proof.
  unfold ensureParameters, completion.
  destruct params as [p0|]; [|discriminate].
  destruct p0 as [a s f]. destruct a as [args0|]; [|discriminate].
  cbn -[trim String.append join].
  set (fmt := match f with Some f0 => f0 | None => "default" end).
  unfold ImperativeExpect_toBeOneOf.
  destruct (existsb (String.eqb fmt) ["default"; "json"]) eqn:Efmt;
    [|discriminate].
  destruct (underscore args0) as [u0|] eqn:Eu; [|discriminate].
  assert (Hfmt : Some fmt = Some "default" \/ Some fmt = Some "json").
  { cbn in Efmt. rewrite !orb_true_iff in Efmt.
    destruct Efmt as [E | [E | E]]; try discriminate;
      apply String.eqb_eq in E; rewrite E; auto. }
  destruct (chainedHandlers (definition this)) as [chain|].
  - cbn -[trim String.append join]. intros E. injection E as <- <- <-.
    cbn. repeat split; eauto; discriminate.
  - destruct (handler (definition this)) as [h|]; [|discriminate].
    cbn -[trim String.append join]. unfold ImperativeExpect_toNotBeEqual.
    destruct (String.eqb (trim h) EmptyString); [discriminate|].
    cbn -[trim String.append join]. intros E. injection E as <- <- <-.
    cbn. repeat split; eauto; discriminate.
Qed.

Lemma ensureParameters_events (params : option IInvokeCommandParms) :
  events (ensureParameters this params) = [].
Proof.
  unfold ensureParameters, events.
  destruct params as [p0|]; [|reflexivity].
  destruct p0 as [a s f]. destruct a as [args0|]; [|reflexivity].
  cbn -[trim String.append join].
  unfold ImperativeExpect_toBeOneOf.
  destruct (existsb _ _); [|reflexivity].
  destruct (underscore args0) as [u0|]; [|reflexivity].
  destruct (chainedHandlers (definition this)) as [chain|]; [reflexivity|].
  destruct (handler (definition this)) as [h|]; [|reflexivity].
  cbn -[trim String.append join]. unfold ImperativeExpect_toNotBeEqual.
  destruct (String.eqb (trim h) EmptyString); reflexivity.
Qed.

(** A failed expectation is a thrown [ImperativeError]. *)
Lemma ensureParameters_throws (params : option IInvokeCommandParms)
  (v : JsValue) :
  completion (ensureParameters this params) = Throw v ->
  is_ImperativeError v = true.
Proof.
  unfold ensureParameters, completion.
  destruct params as [p0|]; [|intros E; injection E as <-; reflexivity].
  destruct p0 as [a s f].
  destruct a as [args0|]; [|intros E; injection E as <-; reflexivity].
  cbn -[trim String.append join].
  unfold ImperativeExpect_toBeOneOf.
  destruct (existsb _ _); [|intros E; injection E as <-; reflexivity].
  destruct (underscore args0) as [u0|];
    [|intros E; injection E as <-; reflexivity].
  destruct (chainedHandlers (definition this)) as [chain|]; [discriminate|].
  destruct (handler (definition this)) as [h|];
    [|intros E; injection E as <-; reflexivity].
  cbn -[trim String.append join]. unfold ImperativeExpect_toNotBeEqual.
  destruct (String.eqb (trim h) EmptyString);
    [intros E; injection E as <-; reflexivity | discriminate].
Qed.

Lemma finishResponse_ok (r : CommandResponse) :
  mResponseFormat r = "default" \/ mResponseFormat r = "json" ->
  completion (finishResponse (Some r)) = Normal (buildJsonResponse r)
  /\ calls (events (finishResponse (Some r))) = [].
Proof.
  unfold finishResponse, completion, events.
  intros [E | E]; rewrite E; destruct (mSilent r); cbn; auto.
Qed.

Lemma validate_grown (args : Arguments) (r : CommandResponse) :
  exists r',
    completion (validate H this args r)
    = Normal (r', snd (SyntaxValidator_validate H (mDefinition this)
                         (mFullDefinition this) args))
    /\ grown r r' /\ calls (events (validate H this args r)) = [CallValidate].
Proof.
  unfold validate.
  destruct (interact_grown r
              (SyntaxValidator_validate H (mDefinition this)
                 (mFullDefinition this) args)) as (r' & E & G & C).
  exists r'. rewrite completion_emit, events_emit. cbn [calls filter].
  fold (calls (events (interact r
                         (SyntaxValidator_validate H (mDefinition this)
                            (mFullDefinition this) args)))).
  rewrite C. auto.
Qed.

Lemma processed_calls (t : list Event) : processed (calls t) = processed t.
Proof.
  unfold processed, calls.
  induction t as [|e t IH]; [reflexivity|].
  destruct e; cbn; rewrite ?IH; reflexivity.
Qed.

Lemma processed_of_calls (t c : list Event) :
  calls t = c -> processed t = processed c.
Proof. intros <-. symmetry. apply processed_calls. Qed.

Lemma prepare_grown (args : Arguments) (r : CommandResponse) :
  exists r' o,
    completion (prepare H this r args) = Normal (r', o) /\ grown r r'
    /\ processed (events (prepare H this r args)) = [].
Proof.
  unfold prepare.
  destruct (interact_grown r (readStdinIfRequested H args (type (definition this))))
    as (r' & E & G & C).
  rewrite completion_emit, events_emit, (completion_bind _ _ _ E),
    (events_bind _ _ _ E).
  apply processed_of_calls in C. cbn in C.
  change (processed (CallReadStdin :: ?t)) with (processed t).
  rewrite processed_app, C.
  destruct (snd (readStdinIfRequested H args (type (definition this))))
    as [args'|e].
  - rewrite completion_emit, events_emit.
    destruct (loadProfiles H (definition this) args');
      do 2 eexists; (split; [reflexivity | split; [assumption | reflexivity]]).
  - do 2 eexists; (split; [reflexivity | split; [assumption | reflexivity]]).
Qed.

Lemma finish_completion (r : CommandResponse) :
  format_ok r ->
  completion (json <- finishResponse (Some r) ;; ret (Some json))
  = Normal (Some (buildJsonResponse r)).
Proof.
  intros F. destruct (finishResponse_ok r F) as [E _].
  now rewrite (completion_bind _ _ _ E).
Qed.

Lemma finish_calls (r : CommandResponse) :
  format_ok r ->
  calls (events (json <- finishResponse (Some r) ;; ret (Some json))) = [].
Proof.
  intros F. destruct (finishResponse_ok r F) as [E C].
  rewrite (events_bind _ _ _ E), calls_app, C. reflexivity.
Qed.

(** The response the pipeline starts from has a format [finishResponse]
    accepts. *)
Lemma initial_format (params : option IInvokeCommandParms)
  (p : IInvokeCommandParms) (args : Arguments) (u : list string) :
  completion (ensureParameters this params) = Normal (p, args, u) ->
  format_ok (succeeded (constructResponseObject p))
  /\ mError (succeeded (constructResponseObject p)) = None.
Proof.
  intros E. apply ensureParameters_inv in E.
  destruct E as (_ & _ & F & _). unfold format_ok. cbn.
  destruct F as [-> | ->]; auto.
Qed.

Lemma grown_format_ok (r r' : CommandResponse) :
  grown r r' -> format_ok r -> format_ok r'.
Proof. intros G. unfold format_ok. now rewrite (grown_format _ _ G). Qed.

Ltac run E := rewrite (completion_bind _ _ _ E); cbv beta iota zeta.

(** One call on the console, or one value read, in a sequence. *)
Ltac console :=
  match goal with
  | |- context [completion (bind (console_errorHeader ?r ?m) ?k)] =>
      rewrite (completion_bind (console_errorHeader r m) k _ eq_refl)
  | |- context [completion (bind (console_error ?r ?c) ?k)] =>
      rewrite (completion_bind (console_error r c) k _ eq_refl)
  | |- context [completion (bind (lift (Normal ?a)) ?k)] =>
      rewrite (completion_bind (lift (Normal a)) k a eq_refl)
  | |- context [completion (bind (ret ?a) ?k)] =>
      rewrite (completion_bind (ret a) k a eq_refl)
  | |- context [bind (bind _ _) _] => rewrite bind_assoc
  end; cbv beta iota zeta.

(** ** The pre-check *)

(** C2, as the code has it. When the pre-check of [invoke] fails (the
    parameters are null, the arguments are null, the response format is
    neither "default" nor "json", or the command has neither a handler
    nor chained handlers), [invoke] throws an [ImperativeError] to its
    caller before any response is built and before any collaborator is
    called. *)
Theorem precheck_failure_rejects (params : option IInvokeCommandParms) :
  params = None
  \/ (exists p, params = Some p /\ arguments p = None)
  \/ (exists p f, params = Some p /\ responseFormat p = Some f
                  /\ f <> "default" /\ f <> "json")
  \/ (handler (definition this) = None
      /\ chainedHandlers (definition this) = None) ->
  exists v, invoke H this params = ([], Throw v)
            /\ is_ImperativeError v = true.
Proof.
  intros V.
  destruct (completion (ensureParameters this params))
    as [[[p args] u]|v] eqn:E.
  - exfalso. apply ensureParameters_inv in E.
    destruct E as (_ & _ & F & Hh & p0 & -> & _ & Ha & Hf).
    destruct V as [V | [(q & V & Hq) | [(q & f & V & Hq & N1 & N2) | [V1 V2]]]].
    + discriminate.
    + injection V as <-. congruence.
    + injection V as <-. rewrite Hq in Hf. rewrite Hf in F.
      destruct F as [F | F]; injection F as F; contradiction.
    + now apply Hh.
  - exists v. split.
    + assert (Hc : completion (invoke H this params) = Throw v)
        by (unfold invoke; now apply completion_bind_throw).
      assert (He : events (invoke H this params) = []).
      { unfold invoke. rewrite (events_bind_throw _ _ _ E).
        apply ensureParameters_events. }
      unfold completion in Hc. unfold events in He.
      destruct (invoke H this params) as [t c]. cbn in *. now subst.
    + eapply ensureParameters_throws; eauto.
Qed.

(** ** An empty chain *)

(** C10, as the code has it. For a command whose [chainedHandlers] is an
    empty list and that has no handler, [invoke] on arguments that pass
    the pre-check, are valid and can be prepared for does not return a
    snapshot: after the loop, [finishResponse] is applied to a chained
    response that was never built, and the call is rejected with the
    [TypeError] this raises.  (With a handler the chain is not looked at,
    and invalid syntax or a failed preparation end the invocation before
    it.) *)
Theorem empty_chain_rejects (params : option IInvokeCommandParms)
  (p : IInvokeCommandParms) (args args' : Arguments) (u : list string)
  (r1 r2 : CommandResponse) (v : ICommandValidatorResponse)
  (prepared : ICommandPrepared) :
  handler (definition this) = None ->
  chainedHandlers (definition this) = Some [] ->
  completion (ensureParameters this params) = Normal (p, args, u) ->
  completion (validate H this args (succeeded (constructResponseObject p)))
  = Normal (r1, Normal v) ->
  valid v = true ->
  completion (prepare H this r1 args) = Normal (r2, Normal (args', prepared)) ->
  completion (invoke H this params)
  = Throw (TypeError "Cannot read property 'buildJsonResponse' of undefined")
  /\ forall json, completion (invoke H this params) <> Normal (Some json).
Proof.
  intros Hh Hc Hpre Hval Hv Hprep.
  assert (E : completion (invoke H this params)
              = Throw (TypeError
                         "Cannot read property 'buildJsonResponse' of undefined")).
  { unfold invoke. run Hpre. run Hval. rewrite Hv. cbn [negb].
    run Hprep. unfold execute. rewrite Hh, Hc. reflexivity. }
  split; [exact E|]. intros json. rewrite E. discriminate.
Qed.

(** ** The validator throws *)

(** C7, as the code has it. When the syntax validator throws a value [e]
    whose [message] is a string [m] (an [Error], say), [invoke] returns
    the finalized, failed response; its error record has the message
    "Unexpected syntax validation error" and carries the exception's
    message as additional details (no cause is recorded), and the message
    of the response is that text followed by the exception's message. *)
Theorem validator_exception_response (params : option IInvokeCommandParms)
  (p : IInvokeCommandParms) (args : Arguments) (u : list string)
  (r1 : CommandResponse) (e : JsValue) (m : string) :
  completion (ensureParameters this params) = Normal (p, args, u) ->
  completion (validate H this args (succeeded (constructResponseObject p)))
  = Normal (r1, Throw e) ->
  get_prop e "message" = Normal (JsString m) ->
  exists json,
    completion (invoke H this params) = Normal (Some json)
    /\ success json = false
    /\ exitCode json = 1%Z
    /\ message json
       = ("Unexpected syntax validation error" ++ ": " ++ m)%string
    /\ error json
       = Some {| msg := "Unexpected syntax validation error";
                 additionalDetails := JsString m; causeErrors := JsUndefined;
                 stack := None |}
    /\ stderr json
       = mStderr r1 ++ [Header "Unexpected syntax validation error"; Text m].
Proof.
  intros Hpre Hval Hm.
  destruct (validate_grown args (succeeded (constructResponseObject p)))
    as (r1' & E & G & _).
  rewrite Hval in E. injection E as <- _.
  destruct (initial_format _ _ _ _ Hpre) as [F0 _].
  pose proof (grown_format_ok _ _ G F0) as F1.
  eexists. split.
  - unfold invoke. run Hpre. run Hval. unfold onValidatorError.
    rewrite Hm.
    rewrite (completion_bind (lift (Normal (JsString m))) _ _ eq_refl).
    cbv beta zeta.
    cbn [completion bind snd fst console_errorHeader console_error
           console_error_of toString_method lift ToString].
    apply finish_completion. exact F1.
  - cbn. rewrite <- app_assoc. auto.
Qed.

(** A validator that throws a value without a message, a string say: the
    [catch] of the validation block itself throws, on the call of
    [console.error] with a message that is [undefined], and [invoke]
    is rejected. *)
Lemma validator_exception_without_message
  (params : option IInvokeCommandParms) (p : IInvokeCommandParms)
  (args : Arguments) (u : list string) (r1 : CommandResponse)
  (e : JsValue) :
  completion (ensureParameters this params) = Normal (p, args, u) ->
  completion (validate H this args (succeeded (constructResponseObject p)))
  = Normal (r1, Throw e) ->
  get_prop e "message" = Normal JsUndefined ->
  completion (invoke H this params)
  = Throw (TypeError "Cannot read property 'toString' of undefined").
Proof.
  intros Hpre Hval Hm.
  unfold invoke. run Hpre. run Hval. unfold onValidatorError.
  rewrite Hm. reflexivity.
Qed.

Ltac grows :=
  cbn; repeat rewrite <- app_assoc;
  first [ apply extends_refl | apply extends_app ].

(** ** Errors thrown by a handler *)

Lemma handleHandlerError_spec (v : JsValue) (r : CommandResponse)
  (path : string) :
  exists r',
    completion (handleHandlerError v r path) = Normal r'
    /\ mSilent r' = mSilent r
    /\ mResponseFormat r' = mResponseFormat r
    /\ mSucceeded r' = false
    /\ mError r' = match error_mapping v with
                   | Some e => Some e
                   | None => mError r
                   end
    /\ (error_mapping v = None -> mData r' = v)
    /\ extends (mStdout r) (mStdout r')
    /\ extends (mStderr r) (mStderr r')
    /\ calls (events (handleHandlerError v r path)) = [].
Proof.
  assert (S : forall c : Chunk,
             calls (if mSilent r then [] else [WriteStderr c]) = [])
    by (intros c; destruct (mSilent r); reflexivity).
  destruct v
    as [ | | b | n | s | items | fields | m st | m ad ce st | m st ].
  1-7: cbn; eexists; repeat split; try discriminate; try grows;
       rewrite ?calls_app, ?S; reflexivity.
  - destruct (String.eqb m EmptyString) eqn:Em;
      destruct st as [s|]; [destruct (String.eqb s EmptyString) eqn:Es| |
                            destruct (String.eqb s EmptyString) eqn:Es|];
      cbn; rewrite ?Em, ?Es; cbn;
      eexists; repeat split; try discriminate; try grows;
      rewrite ?calls_app, ?S; reflexivity.
  - destruct ad; cbn; eexists; repeat split; try discriminate; try grows;
      rewrite ?calls_app, ?S; reflexivity.
  - destruct (String.eqb m EmptyString) eqn:Em;
      destruct st as [s|]; [destruct (String.eqb s EmptyString) eqn:Es| |
                            destruct (String.eqb s EmptyString) eqn:Es|];
      cbn; rewrite ?Em, ?Es; cbn;
      eexists; repeat split; try discriminate; try grows;
      rewrite ?calls_app, ?S; reflexivity.
Qed.

Lemma attemptHandlerLoad_ok (r : CommandResponse) (path : string)
  (h : ICommandHandler) :
  require_default H path = Normal h ->
  attemptHandlerLoad H this r path = ([CallRequire path], Normal (r, Some h)).
Proof. unfold attemptHandlerLoad. intros ->. reflexivity. Qed.

Lemma attemptHandlerLoad_failed (r : CommandResponse) (path : string)
  (e : JsValue) (m : string) :
  require_default H path = Throw e ->
  get_prop e "message" = Normal (JsString m) ->
  exists r',
    completion (attemptHandlerLoad H this r path) = Normal (r', None)
    /\ mSilent r' = mSilent r
    /\ mResponseFormat r' = mResponseFormat r
    /\ mSucceeded r' = false
    /\ mMessage r' = instantiationMessage H this path
    /\ mError r'
       = Some {| msg := instantiationMessage H this path;
                 additionalDetails := JsString m;
                 causeErrors := JsUndefined; stack := None |}
    /\ mStdout r' = mStdout r
    /\ mStderr r'
       = mStderr r ++ [Header "Handler Instantiation Failed";
                       Text (instantiationMessage H this path);
                       Header "Error Details"; Text m]
    /\ processed (events (attemptHandlerLoad H this r path)) = [].
Proof.
  intros Hr Hm. unfold attemptHandlerLoad. rewrite Hr, Hm.
  rewrite completion_emit, events_emit.
  rewrite (completion_bind (lift (Normal (JsString m))) _ _ eq_refl).
  rewrite (events_bind (lift (Normal (JsString m))) _ _ eq_refl).
  cbv beta zeta.
  cbn [completion bind snd fst console_errorHeader console_error ret
         console_error_of toString_method lift ToString].
  eexists. split; [reflexivity|]. cbn.
  repeat rewrite <- app_assoc. repeat split.
  destruct (mSilent r); reflexivity.
Qed.

(** A load that throws gives no handler. *)
Lemma attemptHandlerLoad_none (r r' : CommandResponse) (path : string)
  (e : JsValue) (h : option ICommandHandler) :
  require_default H path = Throw e ->
  completion (attemptHandlerLoad H this r path) = Normal (r', h) ->
  h = None.
Proof.
  intros Hr. unfold attemptHandlerLoad. rewrite Hr, completion_emit.
  destruct (get_prop e "message") as [m|v]; [|discriminate].
  rewrite (completion_bind (lift (Normal m)) _ _ eq_refl). cbv beta zeta.
  unfold console_error_of.
  destruct (toString_method m) as [text|v]; cbn; [|discriminate].
  intros E. now injection E as _ <-.
Qed.

Lemma call_process_completion (h : ICommandHandler) (path : string)
  (params : IHandlerParameters) (r : CommandResponse)
  (f : IHandlerParameters -> Interaction unit) :
  process h = Some f ->
  exists r',
    completion (call_process h path params r) = Normal (r', snd (f params))
    /\ grown r r'
    /\ calls (events (call_process h path params r)) = [CallProcess path].
Proof.
  intros Hp. unfold call_process. rewrite Hp.
  destruct (interact_grown r (f params)) as (r' & E & G & C).
  exists r'. rewrite completion_emit, events_emit. cbn [calls filter].
  fold (calls (events (interact r (f params)))). rewrite C. auto.
Qed.

(** C1, as the code has it. When the handler of a command throws a value
    [thrown], [invoke] returns the finalized, failed response, and the
    error record of that response is given by the shape of [thrown] alone:
    the details of an [ImperativeError]; the message and stack of another
    [Error]; the string itself; "Command Failed" for [null] and
    [undefined]. For any other value (the number 42, say) no error record
    is attached: the value becomes the data of the response. *)
Theorem handler_error_mapping (params : option IInvokeCommandParms)
  (p : IInvokeCommandParms) (args args' : Arguments) (u : list string)
  (r1 r2 : CommandResponse) (v : ICommandValidatorResponse)
  (prepared : ICommandPrepared) (handlerPath : string) (h : ICommandHandler)
  (f : IHandlerParameters -> Interaction unit) (thrown : JsValue) :
  completion (ensureParameters this params) = Normal (p, args, u) ->
  completion (validate H this args (succeeded (constructResponseObject p)))
  = Normal (r1, Normal v) ->
  valid v = true ->
  completion (prepare H this r1 args) = Normal (r2, Normal (args', prepared)) ->
  handler (definition this) = Some handlerPath ->
  require_default H handlerPath = Normal h ->
  process h = Some f ->
  snd (f {| hp_profiles := profiles prepared; hp_arguments := args';
            hp_definition := definition this;
            hp_fullDefinition := fullDefinition this; isChained := false |})
  = Throw thrown ->
  exists json,
    completion (invoke H this params) = Normal (Some json)
    /\ success json = false
    /\ exitCode json = 1%Z
    /\ error json = error_mapping thrown
    /\ (error_mapping thrown = None -> data json = thrown).
Proof.
  intros Hpre Hval Hv Hprep Hh Hreq Hproc Hthrow.
  destruct (initial_format _ _ _ _ Hpre) as [F0 N0].
  destruct (validate_grown args (succeeded (constructResponseObject p)))
    as (r1' & E1 & G1 & _).
  rewrite Hval in E1. injection E1 as <- _.
  destruct (prepare_grown args r1) as (r2' & o & E2 & G2 & _).
  rewrite Hprep in E2. injection E2 as <- _.
  set (hp := {| hp_profiles := profiles prepared; hp_arguments := args';
                hp_definition := definition this;
                hp_fullDefinition := fullDefinition this;
                isChained := false |}) in *.
  destruct (call_process_completion h handlerPath hp r2 f Hproc)
    as (r3 & E3 & G3 & _).
  rewrite Hthrow in E3.
  destruct (handleHandlerError_spec thrown r3 handlerPath)
    as (r4 & E4 & S4 & F4 & Su4 & Er4 & D4 & _).
  pose proof (grown_trans _ _ _ (grown_trans _ _ _ G1 G2) G3) as G.
  exists (buildJsonResponse r4). split.
  - unfold invoke. run Hpre. run Hval. rewrite Hv. cbn [negb].
    run Hprep. unfold execute. rewrite Hh. unfold invokeHandler.
    rewrite (attemptHandlerLoad_ok _ _ _ Hreq).
    rewrite completion_bind_pair. cbv beta iota zeta.
    fold hp. run E3. run E4.
    apply finish_completion. unfold format_ok. rewrite F4.
    exact (grown_format_ok _ _ G F0).
  - cbn. rewrite Su4, Er4. repeat split; auto.
    destruct (error_mapping thrown); [reflexivity|].
    rewrite (grown_error _ _ G). exact N0.
Qed.

(** ** The handler cannot be instantiated *)

(** C6, as the code has it. When loading or instantiating the handler of
    a command throws a value [e] whose [message] is a string [m] (an
    [Error]: the module cannot be loaded, it has no usable export, or the
    constructor throws one), [invoke] returns the finalized, failed
    response: the console shows the header "Handler Instantiation
    Failed", the message of the response and of its error record is the
    instantiation message, formatted with the normalized handler path and
    the command name, and the additional details are the message of the
    value thrown. *)
Theorem handler_load_failure_response (params : option IInvokeCommandParms)
  (p : IInvokeCommandParms) (args args' : Arguments) (u : list string)
  (r1 r2 : CommandResponse) (v : ICommandValidatorResponse)
  (prepared : ICommandPrepared) (handlerPath : string) (e : JsValue)
  (m : string) :
  completion (ensureParameters this params) = Normal (p, args, u) ->
  completion (validate H this args (succeeded (constructResponseObject p)))
  = Normal (r1, Normal v) ->
  valid v = true ->
  completion (prepare H this r1 args) = Normal (r2, Normal (args', prepared)) ->
  handler (definition this) = Some handlerPath ->
  require_default H handlerPath = Throw e ->
  get_prop e "message" = Normal (JsString m) ->
  exists json,
    completion (invoke H this params) = Normal (Some json)
    /\ success json = false
    /\ exitCode json = 1%Z
    /\ message json = instantiationMessage H this handlerPath
    /\ error json
       = Some {| msg := instantiationMessage H this handlerPath;
                 additionalDetails := JsString m; causeErrors := JsUndefined;
                 stack := None |}
    /\ stderr json
       = mStderr r2 ++ [Header "Handler Instantiation Failed";
                        Text (instantiationMessage H this handlerPath);
                        Header "Error Details"; Text m].
Proof.
  intros Hpre Hval Hv Hprep Hh Hreq Hm.
  destruct (initial_format _ _ _ _ Hpre) as [F0 _].
  destruct (validate_grown args (succeeded (constructResponseObject p)))
    as (r1' & E1 & G1 & _).
  rewrite Hval in E1. injection E1 as <- _.
  destruct (prepare_grown args r1) as (r2' & o & E2 & G2 & _).
  rewrite Hprep in E2. injection E2 as <- _.
  destruct (attemptHandlerLoad_failed r2 handlerPath e m Hreq Hm)
    as (r3 & E3 & S3 & F3 & Su3 & M3 & Er3 & _ & Se3 & _).
  exists (buildJsonResponse r3). split.
  - unfold invoke. run Hpre. run Hval. rewrite Hv. cbn [negb].
    run Hprep. unfold execute. rewrite Hh. unfold invokeHandler.
    run E3. apply finish_completion. unfold format_ok. rewrite F3.
    exact (grown_format_ok _ _ (grown_trans _ _ _ G1 G2) F0).
  - cbn. rewrite Su3. auto.
Qed.

(** ** Invalid syntax *)

(** C5, as the code has it. When syntax validation completes with
    [valid = false], [invoke] marks the response failed, sets its message
    to "Command syntax invalid", writes the hint to the console and
    returns the finalized response; no stdin is read, no profile is loaded
    and no handler is loaded or run. The hint names the root command and
    the positional path when the positional list is not empty, and the
    name of the command when it is empty. *)
Theorem syntax_invalid_response (params : option IInvokeCommandParms)
  (p : IInvokeCommandParms) (args : Arguments) (u : list string)
  (r1 : CommandResponse) (v : ICommandValidatorResponse) :
  completion (ensureParameters this params) = Normal (p, args, u) ->
  completion (validate H this args (succeeded (constructResponseObject p)))
  = Normal (r1, Normal v) ->
  valid v = false ->
  exists json,
    completion (invoke H this params) = Normal (Some json)
    /\ success json = false
    /\ message json = "Command syntax invalid"
    /\ stderr json = mStderr r1 ++ [Text (helpHint this u)]
    /\ (mSilent r1 = false ->
        In (WriteStderr (Text (helpHint this u))) (events (invoke H this params)))
    /\ calls (events (invoke H this params)) = [CallValidate].
Proof.
  intros Hpre Hval Hv.
  destruct (initial_format _ _ _ _ Hpre) as [F0 _].
  destruct (validate_grown args (succeeded (constructResponseObject p)))
    as (r1' & E1 & G1 & C1).
  rewrite Hval in E1. injection E1 as <- _.
  pose proof (grown_format_ok _ _ G1 F0) as F1.
  set (r2 := bufferStderr (failed (setMessage r1 "Command syntax invalid"))
               [Text (helpHint this u)]).
  assert (F2 : format_ok r2) by exact F1.
  assert (Hhint : forall r,
             console_error r
               (Text (if Nat.ltb 0 (List.length u)
                      then (nl ++ "Use " ++ dq ++ rootCommand this ++ " "
                               ++ join " " u ++ " --help" ++ dq
                               ++ " to view command description, usage, and options.")%string
                      else (nl ++ "Use " ++ dq ++ name (definition this)
                               ++ " --help" ++ dq
                               ++ " to view command description, usage, and options.")%string))
             = console_error r (Text (helpHint this u)))
    by (intros r; destruct u; reflexivity).
  exists (buildJsonResponse r2). split; [|split; [|split; [|split; [|split]]]].
  - unfold invoke. run Hpre. run Hval. rewrite Hv. cbn [negb].
    unfold onSyntaxInvalid. cbv zeta. rewrite Hhint.
    rewrite (completion_bind (console_error _ _) _ r2 eq_refl).
    apply finish_completion. exact F2.
  - reflexivity.
  - reflexivity.
  - reflexivity.
  - intros Hs. unfold invoke.
    rewrite (events_bind _ _ _ Hpre). cbv beta iota zeta.
    rewrite (events_bind _ _ _ Hval). cbv beta iota zeta.
    rewrite Hv. cbn [negb]. unfold onSyntaxInvalid. cbv zeta. rewrite Hhint.
    rewrite (events_bind (console_error _ _) _ r2 eq_refl).
    apply in_or_app. right. apply in_or_app. right. apply in_or_app. left.
    unfold console_error, events. cbn [fst mSilent failed setMessage].
    rewrite Hs. left. reflexivity.
  - unfold invoke.
    rewrite (events_bind _ _ _ Hpre). cbv beta iota zeta.
    rewrite (events_bind _ _ _ Hval). cbv beta iota zeta.
    rewrite Hv. cbn [negb]. unfold onSyntaxInvalid. cbv zeta. rewrite Hhint.
    rewrite (events_bind (console_error _ _) _ r2 eq_refl).
    rewrite !calls_app, ensureParameters_events, C1, (finish_calls _ F2).
    unfold console_error, events. cbn [fst].
    destruct (mSilent _); reflexivity.
Qed.

(** ** Preparation fails *)

Lemma onPrepareError_imperative (m : string) (ad ce : JsValue)
  (st : option string) (r : CommandResponse) :
  format_ok r ->
  exists json,
    completion (onPrepareError (JsImperativeError m ad ce st) r)
    = Normal (Some json)
    /\ success json = false
    /\ exitCode json = 1%Z
    /\ message json = preparationMessage m
    /\ error json
       = Some {| msg := preparationMessage m;
                 additionalDetails :=
                   match ad with
                   | JsString s => JsString s
                   | _ => JsUndefined
                   end;
                 causeErrors := JsUndefined; stack := None |}.
Proof.
  intros F.
  assert (Herr : ToString
                   (if ToBoolean (JsString m) then JsString m
                    else JsString "Internal Error: No cause message present.")
                 = preparationMessage m).
  { unfold preparationMessage, ToBoolean, ToString.
    destruct (String.eqb m EmptyString); reflexivity. }
  assert (Hmsg : get_prop (JsImperativeError m ad ce st) "message"
                 = Normal (JsString m)) by reflexivity.
  assert (Hdet : get_prop (JsImperativeError m ad ce st) "details"
                 = Normal (details_object m ad ce st)) by reflexivity.
  assert (Had : get_prop (details_object m ad ce st) "additionalDetails"
                = Normal ad) by reflexivity.
  unfold onPrepareError. rewrite Hmsg, Hdet.
  console. rewrite Herr. console. console. console. rewrite Had. console.
  destruct ad; repeat console;
    (eexists; split; [apply finish_completion; exact F |]);
    repeat split.
Qed.

(** C4, as the code has it. When the Prepare stage (stdin read or profile
    loading) fails with an [ImperativeError], [invoke] returns the
    finalized, failed response; the message of the response and of its
    error record is the message of the error, or "Internal Error: No cause
    message present." when that message is empty; the additional details
    of the error record are those of the error when they are a string, and
    are absent otherwise. *)
Theorem prepare_failure_response (params : option IInvokeCommandParms)
  (p : IInvokeCommandParms) (args : Arguments) (u : list string)
  (r1 r2 : CommandResponse) (v : ICommandValidatorResponse)
  (m : string) (ad ce : JsValue) (st : option string) :
  completion (ensureParameters this params) = Normal (p, args, u) ->
  completion (validate H this args (succeeded (constructResponseObject p)))
  = Normal (r1, Normal v) ->
  valid v = true ->
  completion (prepare H this r1 args)
  = Normal (r2, Throw (JsImperativeError m ad ce st)) ->
  exists json,
    completion (invoke H this params) = Normal (Some json)
    /\ success json = false
    /\ exitCode json = 1%Z
    /\ message json = preparationMessage m
    /\ error json
       = Some {| msg := preparationMessage m;
                 additionalDetails :=
                   match ad with
                   | JsString s => JsString s
                   | _ => JsUndefined
                   end;
                 causeErrors := JsUndefined; stack := None |}.
Proof.
  intros Hpre Hval Hv Hprep.
  destruct (initial_format _ _ _ _ Hpre) as [F0 _].
  destruct (validate_grown args (succeeded (constructResponseObject p)))
    as (r1' & E1 & G1 & _).
  rewrite Hval in E1. injection E1 as <- _.
  destruct (prepare_grown args r1) as (r2' & o & E2 & G2 & _).
  rewrite Hprep in E2. injection E2 as <- _.
  pose proof (grown_format_ok _ _ (grown_trans _ _ _ G1 G2) F0) as F2.
  assert (Hrun : completion (invoke H this params)
                 = completion
                     (onPrepareError (JsImperativeError m ad ce st) r2)).
  { unfold invoke. run Hpre. run Hval. rewrite Hv. cbn [negb].
    run Hprep. reflexivity. }
  rewrite Hrun. apply onPrepareError_imperative. exact F2.
Qed.

(** ** Chained handlers *)

Lemma newChainedResponse_spec (e : IChainedHandlerEntry) (args : Arguments)
  (st : ChainState) :
  format_ok (newChainedResponse H e args st)
  /\ mStdout (newChainedResponse H e args st) = bufferedStdOut st
  /\ mStderr (newChainedResponse H e args st) = bufferedStdErr st.
Proof.
  unfold format_ok. cbn.
  destruct (ToBoolean _); auto.
Qed.

(** What a turn of the loop that was not stopped by a load failure leaves:
    the response built for the step, grown by the step. *)
Lemma chainedStep_spec (e : IChainedHandlerEntry) (st : ChainState)
  (args : Arguments) (prepared : ICommandPrepared)
  (all : list IChainedHandlerEntry) (r : CommandResponse) (o : StepOutcome) :
  completion (chainedStep H this e st args prepared all r) = Normal o ->
  match o with
  | LoadFailed _ => True
  | Rejected cr _ => grown (newChainedResponse H e args st) cr
  | Fulfilled cr =>
      grown (newChainedResponse H e args st) cr
      /\ processed (events (chainedStep H this e st args prepared all r))
         = [chained_handler e]
  end.
Proof.
  unfold chainedStep.
  destruct (require_default H (chained_handler e)) as [h|e0] eqn:Hreq.
  - rewrite (attemptHandlerLoad_ok _ _ _ Hreq).
    rewrite completion_bind_pair, events_bind_pair. cbv beta iota zeta.
    destruct (getArguments H (mCommandRootName this) all
                (chainedHandlerIndex st) (chainedResponses st) args)
      as [a|e1].
    + destruct (process h) as [f|] eqn:Hp.
      * match goal with
        | |- context [call_process h ?path ?hp ?cr] =>
            destruct (call_process_completion h path hp cr f Hp)
              as (cr' & E & G & C)
        end.
        rewrite (completion_bind _ _ _ E), (events_bind _ _ _ E).
        cbv beta iota zeta. apply processed_of_calls in C.
        destruct (snd (f _)) as [[]|pe]; intros Ho; injection Ho as <-.
        -- split; [exact G|]. rewrite !processed_app, C. reflexivity.
        -- exact G.
      * unfold call_process. rewrite Hp.
        intros Ho. injection Ho as <-. apply grown_refl.
    + intros Ho. injection Ho as <-. apply grown_refl.
  - destruct (completion (attemptHandlerLoad H this r (chained_handler e)))
      as [[r' h']|v0] eqn:E.
    + rewrite (attemptHandlerLoad_none _ _ _ _ _ Hreq E) in E.
      rewrite (completion_bind _ _ _ E). cbv beta iota zeta.
      intros Ho. injection Ho as <-. exact I.
    + rewrite (completion_bind_throw _ _ _ E). intros Ho. discriminate Ho.
Qed.


Section Chain.

Variables (args : Arguments) (prepared : ICommandPrepared)
  (all : list IChainedHandlerEntry) (response : CommandResponse).

(** Steps that return are passed over by the loop; each enters its
    handler once, and the buffered output only grows. *)
Lemma chainedLoop_run (pre rest : list IChainedHandlerEntry)
  (st st' : ChainState) :
  ChainRun H this args prepared all response pre st st' ->
  completion (chainedLoop H this (pre ++ rest) st args prepared all response)
  = completion (chainedLoop H this rest st' args prepared all response)
  /\ processed
       (events (chainedLoop H this (pre ++ rest) st args prepared all response))
     = map chained_handler pre
         ++ processed
              (events (chainedLoop H this rest st' args prepared all response))
  /\ extends (bufferedStdOut st) (bufferedStdOut st')
  /\ extends (bufferedStdErr st) (bufferedStdErr st').
Proof.
  induction 1 as [st | e es st st' cr Hstep Hrun IH].
  - cbn. auto using extends_refl.
  - destruct IH as (IHc & IHp & IHo & IHe).
    pose proof (chainedStep_spec _ _ _ _ _ _ _ Hstep) as [G P].
    destruct (newChainedResponse_spec e args st) as (_ & So & Se).
    cbn [app chainedLoop map].
    rewrite (completion_bind _ _ _ Hstep), (events_bind _ _ _ Hstep).
    cbv beta iota zeta. rewrite processed_app, P, IHc, IHp.
    repeat split.
    + eapply extends_trans; [|exact IHo]. cbn [chainNext bufferedStdOut stdout
                                               buildJsonResponse].
      rewrite <- So. exact (grown_stdout _ _ G).
    + eapply extends_trans; [|exact IHe]. cbn [chainNext bufferedStdErr stderr
                                               buildJsonResponse].
      rewrite <- Se. exact (grown_stderr _ _ G).
Qed.



End Chain.

(** Once the pre-check, the validation and the preparation have
    succeeded, [invoke] is the execution of the handler or of the chain. *)
Lemma invoke_execute (params : option IInvokeCommandParms)
  (p : IInvokeCommandParms) (args args' : Arguments) (u : list string)
  (r1 r2 : CommandResponse) (v : ICommandValidatorResponse)
  (prepared : ICommandPrepared) :
  completion (ensureParameters this params) = Normal (p, args, u) ->
  completion (validate H this args (succeeded (constructResponseObject p)))
  = Normal (r1, Normal v) ->
  valid v = true ->
  completion (prepare H this r1 args) = Normal (r2, Normal (args', prepared)) ->
  completion (invoke H this params)
  = completion (execute H this args' prepared r2)
  /\ processed (events (invoke H this params))
     = processed (events (execute H this args' prepared r2))
  /\ format_ok r2.
Proof.
  intros Hpre Hval Hv Hprep.
  destruct (initial_format _ _ _ _ Hpre) as [F0 _].
  destruct (validate_grown args (succeeded (constructResponseObject p)))
    as (r1' & E1 & G1 & C1).
  rewrite Hval in E1. injection E1 as <- _.
  destruct (prepare_grown args r1) as (r2' & o & E2 & G2 & P2).
  rewrite Hprep in E2. injection E2 as <- _.
  apply processed_of_calls in C1.
  repeat split.
  - unfold invoke. run Hpre. run Hval. rewrite Hv. cbn [negb].
    run Hprep. reflexivity.
  - unfold invoke.
    rewrite (events_bind _ _ _ Hpre), ensureParameters_events.
    cbv beta iota zeta.
    rewrite (events_bind _ _ _ Hval). cbv beta iota zeta.
    rewrite Hv. cbn [negb].
    rewrite (events_bind _ _ _ Hprep). cbv beta iota zeta.
    rewrite !processed_app, C1, P2. reflexivity.
  - exact (grown_format_ok _ _ (grown_trans _ _ _ G1 G2) F0).
Qed.


End Stages.

End CmdFacts.

(* ================================================================== *)
(** * The properties on concrete commands *)
(* ================================================================== *)

Module ScenarioFacts.

Import Cmd Scenario.

(** The handler of [greet] throws 42: the response carries no error
    record, and 42 is its data. *)
Lemma handler_error_mapping_witness :
  exists json,
    completion (invoke throws42 greet greetParms) = Normal (Some json)
    /\ success json = false
    /\ exitCode json = 1%Z
    /\ error json = error_mapping (JsNumber 42)
    /\ (error_mapping (JsNumber 42) = None -> data json = JsNumber 42).
Proof.
  eapply (CmdFacts.handler_error_mapping throws42 greet greetParms);
    reflexivity.
Defined.

Lemma handler_throws_42_counterexample :
  ~ (exists json e,
        completion (invoke throws42 greet greetParms) = Normal (Some json)
        /\ error json = Some e
        /\ additionalDetails e = JsString "42").
Proof.
  intros (json & e & Hc & He & _).
  vm_compute in Hc. injection Hc as <-. discriminate He.
Qed.

(** [invoke] without parameters. *)
Lemma precheck_failure_rejects_witness :
  exists v, invoke throws42 greet None = ([], Throw v)
            /\ is_ImperativeError v = true.
Proof.
  apply (CmdFacts.precheck_failure_rejects throws42 greet None).
  left. reflexivity.
Defined.

Lemma precheck_failure_counterexample :
  ~ (exists json,
        completion (invoke throws42 greet None) = Normal (Some json)).
Proof.
  intros (json & Hc). vm_compute in Hc. discriminate Hc.
Qed.


(** Profile loading fails with an [ImperativeError]. *)
Lemma prepare_failure_response_witness :
  exists json,
    completion
      (invoke (prepareThrows
                 (JsImperativeError "Profile missing"
                    (JsString "No profile of type main") JsUndefined None))
         greet greetParms)
    = Normal (Some json)
    /\ success json = false
    /\ exitCode json = 1%Z
    /\ message json = "Profile missing"
    /\ error json
       = Some {| msg := "Profile missing";
                 additionalDetails := JsString "No profile of type main";
                 causeErrors := JsUndefined; stack := None |}.
Proof.
  eapply (CmdFacts.prepare_failure_response
            (prepareThrows
               (JsImperativeError "Profile missing"
                  (JsString "No profile of type main") JsUndefined None))
            greet greetParms)
    with (m := "Profile missing") (ad := JsString "No profile of type main");
    reflexivity.
Defined.

(** The error thrown by the preparation has an empty message: the
    response does not carry that message. *)
Lemma prepare_failure_empty_message_counterexample :
  ~ (exists json,
        completion
          (invoke (prepareThrows
                     (JsImperativeError EmptyString JsUndefined JsUndefined
                        None))
             greet greetParms)
        = Normal (Some json)
        /\ message json = EmptyString).
Proof.
  intros (json & Hc & Hm).
  vm_compute in Hc. injection Hc as <-. discriminate Hm.
Qed.

(** For a plain [Error], which has no [details], the [catch] of the
    preparation itself throws. *)
Lemma prepare_failure_plain_error :
  completion
    (invoke (prepareThrows (JsError "disk failure" None)) greet greetParms)
  = Throw (TypeError "Cannot read property 'additionalDetails' of undefined").
Proof. reflexivity. Qed.

(** A required option is missing. *)
Lemma syntax_invalid_response_witness :
  exists json,
    completion (invoke invalidSyntax greet greetParms) = Normal (Some json)
    /\ success json = false
    /\ message json = "Command syntax invalid"
    /\ stderr json
       = [Header "Syntax Error"; Text "Missing Required Option: --name";
          Text (nl ++ "Use " ++ dq ++ "sample greet --help" ++ dq
                   ++ " to view command description, usage, and options.")]
    /\ calls (events (invoke invalidSyntax greet greetParms)) = [CallValidate].
Proof.
  edestruct (CmdFacts.syntax_invalid_response invalidSyntax greet greetParms)
    as (json & Hc & Hs & Hm & He & _ & Hcalls).
  - reflexivity.
  - reflexivity.
  - reflexivity.
  - exists json. repeat split; assumption.
Defined.

(** With an empty positional list the hint does not name the root
    command. *)
Lemma syntax_invalid_hint_counterexample :
  ~ (exists json,
        completion (invoke invalidSyntax greet rootParms) = Normal (Some json)
        /\ existsb
             (fun c => includes (chunk_text c) ("Use " ++ dq ++ "sample"))
             (stderr json)
           = true).
Proof.
  intros (json & Hc & Hh).
  vm_compute in Hc. injection Hc as <-. vm_compute in Hh. discriminate Hh.
Qed.

(** The constructor of the handler throws. *)
Lemma handler_load_failure_response_witness :
  exists json,
    completion (invoke constructorThrows greet greetParms) = Normal (Some json)
    /\ success json = false
    /\ error json
       = Some {| msg := "Could not instantiate the handler /cli/greet.handler for command greet";
                 additionalDetails := JsString "boom";
                 causeErrors := JsUndefined; stack := None |}.
Proof.
  edestruct (CmdFacts.handler_load_failure_response constructorThrows greet
               greetParms)
    as (json & Hc & Hs & _ & _ & He & _).
  - reflexivity.
  - reflexivity.
  - reflexivity.
  - reflexivity.
  - reflexivity.
  - reflexivity.
  - reflexivity.
  - exists json. repeat split; assumption.
Defined.

Lemma handler_load_failure_counterexample :
  ~ (exists json e s,
        completion (invoke constructorThrows greet greetParms)
        = Normal (Some json)
        /\ error json = Some e
        /\ additionalDetails e = JsString s
        /\ includes s "/cli/greet.handler" = true).
Proof.
  intros (json & e & s & Hc & He & Hd & Hi).
  vm_compute in Hc. injection Hc as <-.
  injection He as <-. cbn in Hd. injection Hd as <-.
  vm_compute in Hi. discriminate Hi.
Qed.

(** The validator throws. *)
Lemma validator_exception_response_witness :
  exists json,
    completion (invoke validatorThrows greet greetParms) = Normal (Some json)
    /\ success json = false
    /\ exitCode json = 1%Z
    /\ message json = "Unexpected syntax validation error: boom"
    /\ error json
       = Some {| msg := "Unexpected syntax validation error";
                 additionalDetails := JsString "boom";
                 causeErrors := JsUndefined; stack := None |}
    /\ stderr json
       = [Header "Unexpected syntax validation error"; Text "boom"].
Proof.
  edestruct (CmdFacts.validator_exception_response validatorThrows greet
               greetParms)
    with (m := "boom"%string) as (json & Hc & Hs & Hx & Hm & He & Hd).
  - reflexivity.
  - reflexivity.
  - reflexivity.
  - exists json. repeat split; assumption.
Defined.

Lemma validator_exception_counterexample :
  ~ (exists json e,
        completion (invoke validatorThrows greet greetParms)
        = Normal (Some json)
        /\ error json = Some e
        /\ causeErrors e <> JsUndefined).
Proof.
  intros (json & e & Hc & He & Hn).
  vm_compute in Hc. injection Hc as <-.
  injection He as <-. apply Hn. reflexivity.
Qed.

(** The validator throws a string: [invoke] is rejected. *)
Lemma validator_throws_string :
  completion (invoke validatorThrowsString greet greetParms)
  = Throw (TypeError "Cannot read property 'toString' of undefined").
Proof.
  eapply (CmdFacts.validator_exception_without_message validatorThrowsString
            greet greetParms);
    reflexivity.
Qed.

(** The module loader throws a string: [invoke] is rejected. *)
Lemma loader_throws_string :
  completion (invoke loaderThrowsString greet greetParms)
  = Throw (TypeError "Cannot read property 'toString' of undefined").
Proof. reflexivity. Qed.

(** A command with an empty chain. *)
Lemma empty_chain_rejects_witness :
  completion (invoke chainHost (deploy []) deployParms)
  = Throw (TypeError "Cannot read property 'buildJsonResponse' of undefined")
  /\ forall json,
      completion (invoke chainHost (deploy []) deployParms)
      <> Normal (Some json).
Proof.
  eapply (CmdFacts.empty_chain_rejects chainHost (deploy []) deployParms);
    reflexivity.
Defined.

(** A command with an empty chain and a handler: the handler is run and
    [invoke] returns the snapshot of a success. *)
Lemma empty_chain_counterexample :
  ~ (forall json,
        completion (invoke greetHost greetWithEmptyChain greetParms)
        <> Normal (Some json)).
Proof.
  intros R.
  apply (R {| success := true; exitCode := 0%Z; message := EmptyString;
              stdout := [Text "hello"]; stderr := [];
              data := JsObject [("greeted", JsString "Ada")];
              error := None |}).
  reflexivity.
Qed.

End ScenarioFacts.

(* ================================================================== *)
(** * Further properties of the command processor *)
(* ================================================================== *)

Module CmdMoreFacts.

Import Cmd CmdMore CmdFacts.

(** ** Traces of sequences *)

Lemma eff_eta {A : Type} (m : Eff A) : m = (events m, completion m).
Proof. destruct m; reflexivity. Qed.

Lemma events_bind_gen {A B : Type} (m : Eff A) (k : A -> Eff B) :
  events (bind m k)
  = events m ++ match completion m with
                | Normal a => events (k a)
                | Throw _ => []
                end.
Proof.
  unfold events, completion, bind.
  destruct (snd m); cbn; now rewrite ?app_nil_r.
Qed.

Lemma completion_bind_gen {A B : Type} (m : Eff A) (k : A -> Eff B) :
  completion (bind m k)
  = match completion m with
    | Normal a => completion (k a)
    | Throw v => Throw v
    end.
Proof. unfold completion, bind. destruct (snd m); reflexivity. Qed.

Lemma writes_app (t t' : list Event) : writes (t ++ t') = writes t ++ writes t'.
Proof. apply filter_app. Qed.

Lemma documents_app (t t' : list Event) :
  documents (t ++ t') = documents t ++ documents t'.
Proof. apply flat_map_app. Qed.

(** ** Console output *)

Lemma Chatter_nil (b : bool) : Chatter b [].
Proof. split; auto. Qed.

Lemma Chatter_app (b : bool) (t t' : list Event) :
  Chatter b t -> Chatter b t' -> Chatter b (t ++ t').
Proof.
  intros [F S] [F' S']. split.
  - apply Forall_app. auto.
  - intros Hb. now rewrite (S Hb), (S' Hb).
Qed.

Lemma Chatter_calls (b : bool) (t : list Event) : Chatter b t -> calls t = [].
Proof.
  intros [F _]. induction F as [|e t He _ IH]; [reflexivity|].
  destruct e; try discriminate He; exact IH.
Qed.

Lemma Chatter_documents (b : bool) (t : list Event) :
  Chatter b t -> documents t = [].
Proof.
  intros [F _]. induction F as [|e t He _ IH]; [reflexivity|].
  destruct e; try discriminate He; exact IH.
Qed.

Lemma Chatter_silent (t : list Event) : Chatter true t -> t = [].
Proof. intros [_ S]. now apply S. Qed.

Lemma Chatter_if (b : bool) (e : Event) :
  is_stream_write e = true -> Chatter b (if b then [] else [e]).
Proof. intros He. destruct b; split; auto; intros; discriminate. Qed.

Lemma Chatter_console_error (r : CommandResponse) (c : Chunk) :
  Chatter (mSilent r) (events (console_error r c)).
Proof.
  unfold console_error, events. cbn [fst].
  destruct (mSilent r); split; auto; intros; discriminate.
Qed.

Lemma Chatter_console_log (r : CommandResponse) (c : Chunk) :
  Chatter (mSilent r) (events (console_log r c)).
Proof.
  unfold console_log, events. cbn [fst].
  destruct (mSilent r); split; auto; intros; discriminate.
Qed.

Lemma logged_stdout_cons (a : ResponseAction) (l : list ResponseAction) :
  logged_stdout (a :: l) = logged_stdout [a] ++ logged_stdout l.
Proof. unfold logged_stdout. cbn. now rewrite app_nil_r. Qed.

Lemma logged_stderr_cons (a : ResponseAction) (l : list ResponseAction) :
  logged_stderr (a :: l) = logged_stderr [a] ++ logged_stderr l.
Proof. unfold logged_stderr. cbn. now rewrite app_nil_r. Qed.

(** The calls of a collaborator on a response: where they leave the
    buffers, and what reaches the streams. *)
Lemma apply_actions_logged (l : list ResponseAction) (r : CommandResponse) :
  exists r',
    apply_actions r l = (events (apply_actions r l), Normal r')
    /\ mSilent r' = mSilent r
    /\ mResponseFormat r' = mResponseFormat r
    /\ mError r' = mError r
    /\ mStdout r' = mStdout r ++ logged_stdout l
    /\ mStderr r' = mStderr r ++ logged_stderr l
    /\ Chatter (mSilent r) (events (apply_actions r l)).
Proof.
  revert r. induction l as [|a l IH]; intros r.
  - exists r. cbn. rewrite !app_nil_r. repeat split; auto.
  - assert (Ha : exists r1,
               completion (apply_action r a) = Normal r1
               /\ mSilent r1 = mSilent r
               /\ mResponseFormat r1 = mResponseFormat r
               /\ mError r1 = mError r
               /\ mStdout r1
                  = mStdout r ++ logged_stdout [a]
               /\ mStderr r1
                  = mStderr r ++ logged_stderr [a]
               /\ Chatter (mSilent r) (events (apply_action r a))).
    { destruct a; cbn -[Chatter]; eexists; (split; [reflexivity|]);
        cbn -[Chatter]; rewrite ?app_nil_r;
        (do 5 (split; [reflexivity|]));
        first [ apply Chatter_nil | apply Chatter_if; reflexivity ]. }
    destruct Ha as (r1 & E1 & S1 & F1 & Er1 & O1 & X1 & C1).
    destruct (IH r1) as (r2 & E2 & S2 & F2 & Er2 & O2 & X2 & C2).
    exists r2. cbn [apply_actions].
    assert (Ec : completion (apply_actions r1 l) = Normal r2)
      by (rewrite E2; reflexivity).
    split.
    { rewrite (eff_eta (bind _ _)). f_equal.
      rewrite (completion_bind _ _ _ E1). exact Ec. }
    rewrite (events_bind _ _ _ E1).
    split; [congruence|]. split; [congruence|]. split; [congruence|].
    split; [|split].
    + now rewrite O2, O1, (logged_stdout_cons a l), app_assoc.
    + now rewrite X2, X1, (logged_stderr_cons a l), app_assoc.
    + apply Chatter_app; [exact C1|]. now rewrite <- S1.
Qed.

Lemma bind_normal_eq {A B : Type} (m : Eff A) (k : A -> Eff B) (a : A) :
  completion m = Normal a ->
  bind m k = (events m ++ events (k a), completion (k a)).
Proof.
  intros E. rewrite (eff_eta (bind m k)).
  now rewrite (events_bind _ _ _ E), (completion_bind _ _ _ E).
Qed.

Lemma bind_throw_eq {A B : Type} (m : Eff A) (k : A -> Eff B) (v : JsValue) :
  completion m = Throw v -> bind m k = (events m, Throw v).
Proof.
  intros E. rewrite (eff_eta (bind m k)).
  now rewrite (events_bind_throw _ _ _ E), (completion_bind_throw _ _ _ E).
Qed.

(** ** Stages and finishing blocks *)

Lemma Front_app (b : bool) (cs cs' t t' : list Event) :
  Front b cs t -> Front b cs' t' -> Front b (cs ++ cs') (t ++ t').
Proof.
  intros (C & D & W) (C' & D' & W'). repeat split.
  - now rewrite calls_app, C, C'.
  - now rewrite documents_app, D, D'.
  - intros Hb. now rewrite writes_app, (W Hb), (W' Hb).
Qed.

Lemma Front_Chatter (b : bool) (t : list Event) : Chatter b t -> Front b [] t.
Proof.
  intros C. repeat split.
  - exact (Chatter_calls _ _ C).
  - exact (Chatter_documents _ _ C).
  - intros ->. now rewrite (Chatter_silent _ C).
Qed.

Lemma Front_call (b : bool) (e : Event) (t : list Event) :
  calls [e] = [e] -> Front b [] t -> Front b [e] (e :: t).
Proof.
  intros He F. change (e :: t) with ([e] ++ t).
  change [e] with ([e] ++ []) at 1. apply Front_app; [|exact F].
  repeat split; auto; destruct e; try discriminate He; reflexivity.
Qed.

Lemma Finishing_finish (r : CommandResponse) :
  Finishing (mSilent r) (mResponseFormat r)
    (json <- finishResponse (Some r) ;; ret (Some json)).
Proof.
  exists []. split; [apply Chatter_nil|]. right. exists r.
  repeat split. rewrite (eff_eta (bind _ _)) at 1. f_equal.
  rewrite events_bind_gen.
  destruct (completion (finishResponse (Some r))); apply app_nil_r.
Qed.

Lemma Finishing_step {A : Type} (b : bool) (fmt : string) (op : Eff A)
  (k : A -> Eff (option ICommandResponse)) :
  Chatter b (events op) ->
  (forall a, completion op = Normal a -> Finishing b fmt (k a)) ->
  Finishing b fmt (bind op k).
Proof.
  intros C K. destruct (completion op) as [a|v] eqn:E.
  - destruct (K a eq_refl) as (s & Cs & [(v & Ek) | (r & S & F & Ek)]).
    + exists (events op ++ s). split; [now apply Chatter_app|]. left. exists v.
      rewrite (bind_normal_eq _ _ _ E), Ek. reflexivity.
    + exists (events op ++ s). split; [now apply Chatter_app|]. right.
      exists r. repeat split; auto.
      rewrite (bind_normal_eq _ _ _ E), Ek. cbn [events completion fst snd].
      now rewrite app_assoc.
  - exists (events op). split; [exact C|]. left. exists v.
    now apply bind_throw_eq.
Qed.

Lemma Staged_of_Finishing (b : bool) (fmt : string) (allowed : list Event)
  (m : Eff (option ICommandResponse)) :
  Finishing b fmt m -> Staged b fmt allowed m.
Proof.
  intros (s & C & D). exists s.
  destruct (Front_Chatter _ _ C) as (Cc & Cd & Cw).
  rewrite Cc. repeat split; auto. now exists allowed.
Qed.

Lemma Staged_stage {A : Type} (b : bool) (fmt : string)
  (cs allowed : list Event) (op : Eff A)
  (k : A -> Eff (option ICommandResponse)) :
  Front b cs (events op) ->
  (forall a, completion op = Normal a -> Staged b fmt allowed (k a)) ->
  Staged b fmt (cs ++ allowed) (bind op k).
Proof.
  intros (Fc & Fd & Fw) K. destruct (completion op) as [a|v] eqn:E.
  - destruct (K a eq_refl)
      as (front & [rest Hx] & Hd & Hw & Hm).
    exists (events op ++ front). repeat split.
    + exists rest. rewrite calls_app, Fc, Hx. now rewrite app_assoc.
    + now rewrite documents_app, Fd, Hd.
    + intros Hb. now rewrite writes_app, (Fw Hb), (Hw Hb).
    + destruct Hm as [(v & Ek) | (r & S & F & Ek)].
      * left. exists v. rewrite (bind_normal_eq _ _ _ E), Ek. reflexivity.
      * right. exists r. repeat split; auto.
        rewrite (bind_normal_eq _ _ _ E), Ek. cbn [events completion fst snd].
        now rewrite app_assoc.
  - exists (events op). repeat split; auto.
    + exists allowed. now rewrite Fc.
    + left. exists v. now apply bind_throw_eq.
Qed.

Ltac fstep :=
  cbv beta iota zeta;
  lazymatch goal with
  | |- Finishing _ _ (bind (bind _ _) _) => rewrite bind_assoc
  | |- Finishing _ _ (bind (finishResponse (Some ?r)) _) =>
      exact (Finishing_finish r)
  | |- Finishing _ _ (bind (console_error ?r ?c) _) =>
      apply Finishing_step;
      [ exact (Chatter_console_error r c)
      | let a := fresh "a" in
        let E := fresh "E" in
        intros a E; unfold completion, console_error in E; cbn [snd] in E;
        injection E as <- ]
  | |- Finishing _ _ (bind (console_error_of _ _) _) =>
      unfold console_error_of
  | |- Finishing _ _ (bind (console_errorHeader ?r ?m) _) =>
      apply Finishing_step;
      [ exact (Chatter_console_error r (Header m))
      | let a := fresh "a" in
        let E := fresh "E" in
        intros a E;
        unfold completion, console_errorHeader, console_error in E;
        cbn [snd] in E; injection E as <- ]
  | |- Finishing _ _ (bind (ret ?x) _) =>
      apply Finishing_step;
      [ apply Chatter_nil
      | let a := fresh "a" in
        let E := fresh "E" in
        intros a E; unfold completion, ret in E; cbn [snd] in E;
        injection E as <- ]
  | |- Finishing _ _ (bind (lift _) _) =>
      apply Finishing_step; [ apply Chatter_nil | intros ? _ ]
  end.

Ltac run E := rewrite (completion_bind _ _ _ E); cbv beta iota zeta.

Section Blocks.

Variable H : Host.
Variable this : CommandProcessor.

Lemma onValidatorError_finishing (e : JsValue) (r : CommandResponse) :
  Finishing (mSilent r) (mResponseFormat r) (onValidatorError e r).
Proof. unfold onValidatorError. repeat fstep. Qed.

Lemma onSyntaxInvalid_finishing (u : list string) (r : CommandResponse) :
  Finishing (mSilent r) (mResponseFormat r) (onSyntaxInvalid this u r).
Proof. unfold onSyntaxInvalid. repeat fstep. Qed.

Lemma onPrepareError_finishing (e : JsValue) (r : CommandResponse) :
  Finishing (mSilent r) (mResponseFormat r) (onPrepareError e r).
Proof.
  unfold onPrepareError. do 5 fstep.
  match goal with
  | |- context [match ?d with JsString _ => _ | _ => _ end] => destruct d
  end; repeat fstep.
Qed.

Lemma handleHandlerError_chatter (v : JsValue) (r : CommandResponse)
  (path : string) :
  Chatter (mSilent r) (events (handleHandlerError v r path)).
Proof.
  assert (C : forall e, is_stream_write e = true ->
                        Chatter (mSilent r) (if mSilent r then [] else [e]))
    by (intros; now apply Chatter_if).
  destruct v
    as [ | | b | n | s | items | fields | m st | m ad ce st | m st ].
  1-7: cbn -[Chatter]; rewrite ?app_nil_r;
       repeat (apply Chatter_app || apply Chatter_nil || (apply C; reflexivity)).
  - destruct (String.eqb m EmptyString) eqn:Em;
      destruct st as [s|]; [destruct (String.eqb s EmptyString) eqn:Es| |
                            destruct (String.eqb s EmptyString) eqn:Es|];
      cbn -[Chatter]; rewrite ?Em, ?Es; cbn -[Chatter]; rewrite ?app_nil_r;
      repeat (apply Chatter_app || apply Chatter_nil || (apply C; reflexivity)).
  - destruct ad; cbn -[Chatter]; rewrite ?app_nil_r;
      repeat (apply Chatter_app || apply Chatter_nil || (apply C; reflexivity)).
  - destruct (String.eqb m EmptyString) eqn:Em;
      destruct st as [s|]; [destruct (String.eqb s EmptyString) eqn:Es| |
                            destruct (String.eqb s EmptyString) eqn:Es|];
      cbn -[Chatter]; rewrite ?Em, ?Es; cbn -[Chatter]; rewrite ?app_nil_r;
      repeat (apply Chatter_app || apply Chatter_nil || (apply C; reflexivity)).
Qed.

(** The block after a handler threw. *)
Lemma afterThrow_finishing (v : JsValue) (r : CommandResponse) (path : string) :
  Finishing (mSilent r) (mResponseFormat r)
    (response <- handleHandlerError v r path ;;
     json <- finishResponse (Some response) ;;
     ret (Some json)).
Proof.
  apply Finishing_step; [apply handleHandlerError_chatter|].
  intros r' E.
  destruct (handleHandlerError_spec v r path) as (r'' & E' & S & F & _).
  rewrite E' in E. injection E as <-. rewrite <- S, <- F.
  apply Finishing_finish.
Qed.

(** ** The stages *)

Lemma interact_logged {A : Type} (r : CommandResponse) (x : Interaction A) :
  exists r',
    completion (interact r x) = Normal (r', snd x)
    /\ mSilent r' = mSilent r
    /\ mResponseFormat r' = mResponseFormat r
    /\ mError r' = mError r
    /\ mStdout r' = mStdout r ++ logged_stdout (fst x)
    /\ mStderr r' = mStderr r ++ logged_stderr (fst x)
    /\ Chatter (mSilent r) (events (interact r x)).
Proof.
  unfold interact.
  destruct (apply_actions_logged (fst x) r)
    as (r' & E & S & F & Er & O & X & C).
  assert (Ec : completion (apply_actions r (fst x)) = Normal r')
    by (rewrite E; reflexivity).
  exists r'. rewrite (completion_bind _ _ _ Ec), (events_bind _ _ _ Ec).
  split; [reflexivity|]. do 5 (split; [assumption|]).
  cbn [events ret fst]. now rewrite app_nil_r.
Qed.

Lemma validate_front (args : Arguments) (r : CommandResponse) :
  exists r',
    completion (validate H this args r)
    = Normal (r', snd (SyntaxValidator_validate H (mDefinition this)
                         (mFullDefinition this) args))
    /\ mSilent r' = mSilent r
    /\ mResponseFormat r' = mResponseFormat r
    /\ Front (mSilent r) [CallValidate] (events (validate H this args r)).
Proof.
  unfold validate.
  destruct (interact_logged r
              (SyntaxValidator_validate H (mDefinition this)
                 (mFullDefinition this) args))
    as (r' & E & S & F & _ & _ & _ & C).
  exists r'. rewrite completion_emit, events_emit.
  split; [exact E|]. split; [exact S|]. split; [exact F|].
  apply Front_call; auto using Front_Chatter.
Qed.

Lemma prepare_front (args : Arguments) (r : CommandResponse) :
  exists r' o,
    completion (prepare H this r args) = Normal (r', o)
    /\ mSilent r' = mSilent r
    /\ mResponseFormat r' = mResponseFormat r
    /\ ((exists e, o = Throw e
                   /\ Front (mSilent r) [CallReadStdin]
                        (events (prepare H this r args)))
        \/ Front (mSilent r) [CallReadStdin; CallLoadProfiles]
             (events (prepare H this r args))).
Proof.
  unfold prepare.
  destruct (interact_logged r
              (readStdinIfRequested H args (type (definition this))))
    as (r' & E & S & F & _ & _ & _ & C).
  rewrite completion_emit, events_emit, (completion_bind _ _ _ E),
    (events_bind _ _ _ E).
  cbv beta iota zeta.
  destruct (snd (readStdinIfRequested H args (type (definition this))))
    as [args'|e].
  - rewrite completion_emit, events_emit.
    assert (Fr : forall t, t = [] ->
                Front (mSilent r) [CallReadStdin; CallLoadProfiles]
                  (CallReadStdin
                     :: events (interact r
                                  (readStdinIfRequested H args
                                     (type (definition this))))
                     ++ CallLoadProfiles :: t)).
    { intros t ->.
      change [CallReadStdin; CallLoadProfiles]
        with ([CallReadStdin] ++ [CallLoadProfiles]).
      change (CallReadStdin :: ?a ++ ?b) with ((CallReadStdin :: a) ++ b).
      apply Front_app.
      - apply Front_call; auto using Front_Chatter.
      - apply Front_call; auto using Front_Chatter, Chatter_nil. }
    destruct (loadProfiles H (definition this) args');
      exists r'; eexists; (split; [reflexivity|]);
      (split; [exact S|]); (split; [exact F|]); right; apply Fr; reflexivity.
  - exists r'; eexists. split; [reflexivity|]. split; [exact S|].
    split; [exact F|]. left. eexists. split; [reflexivity|].
    cbn [events ret fst]. rewrite app_nil_r.
    apply Front_call; auto using Front_Chatter.
Qed.

Lemma attemptHandlerLoad_front (r : CommandResponse) (path : string) :
  Front (mSilent r) [CallRequire path]
    (events (attemptHandlerLoad H this r path))
  /\ forall r' o,
       completion (attemptHandlerLoad H this r path) = Normal (r', o) ->
       mSilent r' = mSilent r /\ mResponseFormat r' = mResponseFormat r.
Proof.
  unfold attemptHandlerLoad. rewrite events_emit, completion_emit.
  destruct (require_default H path) as [h|e].
  - split.
    + apply Front_call; auto using Front_Chatter, Chatter_nil.
    + intros r' o E. injection E as <- _. auto.
  - destruct (get_prop e "message") as [m|v] eqn:Hm.
    + rewrite (events_bind (lift (Normal m)) _ m eq_refl).
      rewrite (completion_bind (lift (Normal m)) _ m eq_refl).
      cbv beta iota zeta. unfold console_error_of.
      destruct (toString_method m) as [text|x]; split.
      * apply Front_call; [reflexivity|]. apply Front_Chatter.
        cbn -[Chatter]. rewrite ?app_nil_r.
        repeat (apply Chatter_app || apply Chatter_nil
                || (apply Chatter_if; reflexivity)).
      * cbn. intros r' o E. injection E as <- _. auto.
      * apply Front_call; [reflexivity|]. apply Front_Chatter.
        cbn -[Chatter]. rewrite ?app_nil_r.
        repeat (apply Chatter_app || apply Chatter_nil
                || (apply Chatter_if; reflexivity)).
      * cbn. intros r' o E. discriminate E.
    + split.
      * apply Front_call; auto using Front_Chatter, Chatter_nil.
      * intros r' o E. discriminate E.
Qed.

Lemma call_process_front (h : ICommandHandler) (path : string)
  (params : IHandlerParameters) (r : CommandResponse) :
  exists r' o,
    completion (call_process h path params r) = Normal (r', o)
    /\ mSilent r' = mSilent r
    /\ mResponseFormat r' = mResponseFormat r
    /\ (Front (mSilent r) [] (events (call_process h path params r))
        \/ Front (mSilent r) [CallProcess path]
             (events (call_process h path params r))).
Proof.
  unfold call_process. destruct (process h) as [f|].
  - destruct (interact_logged r (f params)) as (r' & E & S & F & _ & _ & _ & C).
    exists r'; eexists. rewrite completion_emit, events_emit.
    split; [exact E|]. split; [exact S|]. split; [exact F|]. right.
    apply Front_call; auto using Front_Chatter.
  - exists r; eexists. split; [reflexivity|]. split; [reflexivity|].
    split; [reflexivity|]. left. apply Front_Chatter, Chatter_nil.
Qed.

(** ** The pipeline of a single-handler command *)

Lemma invokeHandler_staged (h : string) (args : Arguments)
  (prepared : ICommandPrepared) (r : CommandResponse) :
  Staged (mSilent r) (mResponseFormat r) [CallRequire h; CallProcess h]
    (invokeHandler H this h args prepared r).
Proof.
  unfold invokeHandler.
  destruct (attemptHandlerLoad_front r h) as [Fl Ml].
  change [CallRequire h; CallProcess h]
    with ([CallRequire h] ++ [CallProcess h]).
  apply Staged_stage; [exact Fl|].
  intros [r1 [hd|]] E1; destruct (Ml _ _ E1) as [S1 F1];
    rewrite <- S1, <- F1.
  - match goal with
    | |- context [call_process hd h ?hp r1] =>
        destruct (call_process_front hd h hp r1)
          as (r2 & o & E2 & S2 & F2 & [Fc | Fc])
    end.
    + change [CallProcess h] with ([] ++ [CallProcess h]).
      apply Staged_stage; [exact Fc|].
      intros a Ea. rewrite E2 in Ea. injection Ea as <-.
      rewrite <- S2, <- F2. apply Staged_of_Finishing.
      destruct o as [[]|v].
      * exact (Finishing_finish (endProgressBar (succeeded r2))).
      * apply afterThrow_finishing.
    + change [CallProcess h] with ([CallProcess h] ++ []).
      apply Staged_stage; [exact Fc|].
      intros a Ea. rewrite E2 in Ea. injection Ea as <-.
      rewrite <- S2, <- F2. apply Staged_of_Finishing.
      destruct o as [[]|v].
      * exact (Finishing_finish (endProgressBar (succeeded r2))).
      * apply afterThrow_finishing.
  - apply Staged_of_Finishing. apply Finishing_finish.
Qed.

(** After the pre-check, [invoke] on a single-handler command runs the
    stages in the order of the pipeline and ends with a throw or with the
    finishing of a response with the silent flag and the format of the
    invocation. *)
Lemma invoke_staged (params : option IInvokeCommandParms)
  (p : IInvokeCommandParms) (args : Arguments) (u : list string) (h : string) :
  handler (definition this) = Some h ->
  completion (ensureParameters this params) = Normal (p, args, u) ->
  Staged (silentOf p)
    (mResponseFormat (succeeded (constructResponseObject p)))
    (pipeline h) (invoke H this params).
Proof.
  intros Hh Hpre. unfold invoke.
  rewrite (bind_normal_eq _ _ _ Hpre), ensureParameters_events.
  cbn [app]. rewrite <- eff_eta. cbv beta iota zeta.
  set (r0 := succeeded (constructResponseObject p)).
  change (silentOf p) with (mSilent r0).
  destruct (validate_front args r0) as (r1 & E1 & S1 & F1 & Fv).
  change (pipeline h)
    with ([CallValidate]
            ++ [CallReadStdin; CallLoadProfiles; CallRequire h; CallProcess h]).
  apply Staged_stage; [exact Fv|].
  intros a Ea. rewrite E1 in Ea. injection Ea as <-.
  rewrite <- S1, <- F1.
  destruct (snd (SyntaxValidator_validate H (mDefinition this)
                   (mFullDefinition this) args)) as [v|e].
  2: { apply Staged_of_Finishing, onValidatorError_finishing. }
  destruct (valid v); cbn [negb].
  2: { apply Staged_of_Finishing, onSyntaxInvalid_finishing. }
  destruct (prepare_front args r1)
    as (r2 & o & E2 & S2 & F2 & [(e & -> & Fp) | Fp]).
  - change [CallReadStdin; CallLoadProfiles; CallRequire h; CallProcess h]
      with ([CallReadStdin]
              ++ [CallLoadProfiles; CallRequire h; CallProcess h]).
    apply Staged_stage; [exact Fp|].
    intros a Ea. rewrite E2 in Ea. injection Ea as <-.
    rewrite <- S2, <- F2.
    apply Staged_of_Finishing, onPrepareError_finishing.
  - change [CallReadStdin; CallLoadProfiles; CallRequire h; CallProcess h]
      with ([CallReadStdin; CallLoadProfiles]
              ++ [CallRequire h; CallProcess h]).
    apply Staged_stage; [exact Fp|].
    intros a Ea. rewrite E2 in Ea. injection Ea as <-.
    rewrite <- S2, <- F2.
    destruct o as [[args' prepared]|e].
    + unfold execute. rewrite Hh. apply invokeHandler_staged.
    + apply Staged_of_Finishing, onPrepareError_finishing.
Qed.

(** What [finishResponse] does, by the mode of the response. *)
Lemma finishResponse_cases (r : CommandResponse) :
  (mSilent r = false /\ mResponseFormat r = "json"
   /\ finishResponse (Some r)
      = ([WriteJson (buildJsonResponse r)], Normal (buildJsonResponse r)))
  \/ ((mSilent r = true \/ mResponseFormat r = "default")
      /\ finishResponse (Some r) = ([], Normal (buildJsonResponse r)))
  \/ (mSilent r = false /\ mResponseFormat r <> "json"
      /\ mResponseFormat r <> "default"
      /\ exists v, finishResponse (Some r) = ([], Throw v)
                   /\ is_ImperativeError v = true).
Proof.
  unfold finishResponse. destruct (mSilent r) eqn:S; cbn [negb].
  - right; left. split; [now left | reflexivity].
  - destruct (String.eqb (mResponseFormat r) "json") eqn:J.
    + left. apply String.eqb_eq in J. repeat split; auto.
    + destruct (String.eqb (mResponseFormat r) "default") eqn:D.
      * right; left. apply String.eqb_eq in D. split; [now right | reflexivity].
      * right; right. apply String.eqb_neq in J, D.
        repeat split; auto. eexists. split; reflexivity.
Qed.

Lemma finishResponse_calls (r : CommandResponse) :
  calls (events (finishResponse (Some r))) = [].
Proof.
  destruct (finishResponse_cases r)
    as [(_ & _ & ->) | [(_ & ->) | (_ & _ & _ & v & -> & _)]]; reflexivity.
Qed.

Lemma finishResponse_silent (r : CommandResponse) :
  mSilent r = true -> events (finishResponse (Some r)) = [].
Proof.
  intros S. destruct (finishResponse_cases r)
    as [(S' & _) | [(_ & ->) | (_ & _ & _ & v & -> & _)]];
    [congruence | reflexivity | reflexivity].
Qed.

(** The shape of [invoke] on a single-handler command, pre-check
    included. *)
Lemma invoke_shape (p0 : IInvokeCommandParms) (h : string) :
  handler (definition this) = Some h ->
  Staged (silentOf p0) (formatOf p0) (pipeline h) (invoke H this (Some p0)).
Proof.
  intros Hh.
  destruct (completion (ensureParameters this (Some p0)))
    as [[[p args] u]|v] eqn:E.
  - pose proof (invoke_staged _ _ _ _ _ Hh E) as S.
    apply ensureParameters_inv in E.
    destruct E as (_ & _ & _ & _ & q & Hq & Hs & _ & Hf).
    injection Hq as <-.
    assert (Es : silentOf p = silentOf p0) by (unfold silentOf; now rewrite Hs).
    assert (Ef : mResponseFormat (succeeded (constructResponseObject p))
                 = formatOf p0) by (cbn; now rewrite Hf).
    now rewrite Es, Ef in S.
  - exists []. split; [exists (pipeline h); reflexivity|].
    split; [reflexivity|]. split; [reflexivity|]. left. exists v.
    unfold invoke. rewrite (bind_throw_eq _ _ _ E).
    now rewrite ensureParameters_events.
Qed.

(** X1. The collaborators of a single-handler command are called in the
    order of the pipeline: the validator, the stdin reader, the profile
    loader, the module loader, the handler; each at most once, and none
    after a stage that was skipped. *)
Theorem invoke_calls_follow_pipeline (params : option IInvokeCommandParms)
  (h : string) :
  handler (definition this) = Some h ->
  extends (calls (events (invoke H this params))) (pipeline h).
Proof.
  intros Hh. destruct params as [p0|].
  - destruct (invoke_shape p0 h Hh)
      as (front & X & _ & _ & [(v & ->) | (r & _ & _ & ->)]).
    + exact X.
    + unfold events at 1. cbn [fst].
      now rewrite calls_app, finishResponse_calls, app_nil_r.
  - exists (pipeline h). reflexivity.
Qed.

(** X2. A silent invocation of a single-handler command writes nothing
    to the streams, whatever the collaborators and the handler log and
    however it ends. *)
Theorem silent_invoke_writes_nothing (p0 : IInvokeCommandParms) (h : string) :
  handler (definition this) = Some h ->
  silent p0 = Some true ->
  writes (events (invoke H this (Some p0))) = [].
Proof.
  intros Hh Hs.
  assert (Eb : silentOf p0 = true) by (unfold silentOf; now rewrite Hs).
  destruct (invoke_shape p0 h Hh)
    as (front & _ & _ & W & [(v & ->) | (r & S & _ & ->)]);
    rewrite Eb in *.
  - now apply W.
  - unfold events at 1. cbn [fst].
    now rewrite writes_app, (W eq_refl), (finishResponse_silent r S).
Qed.

(** X3. An invocation of a single-handler command writes at most one JSON
    document: exactly the snapshot it returns when the format is "json"
    and the invocation is not silent, and none otherwise, in particular
    none when it ends with a throw. *)
Theorem invoke_json_document (p0 : IInvokeCommandParms) (h : string) :
  handler (definition this) = Some h ->
  documents (events (invoke H this (Some p0)))
  = match completion (invoke H this (Some p0)) with
    | Normal (Some json) =>
        if negb (silentOf p0) && String.eqb (formatOf p0) "json"
        then [json] else []
    | _ => []
    end.
Proof.
  intros Hh.
  destruct (invoke_shape p0 h Hh)
    as (front & _ & D & _ & [(v & ->) | (r & S & F & ->)]).
  - exact D.
  - unfold events at 1, completion at 1. cbn [fst snd].
    rewrite documents_app, D, <- S, <- F. cbn [app].
    destruct (finishResponse_cases r)
      as [(S' & F' & ->) | [(M & ->) | (_ & _ & _ & v & -> & _)]].
    + rewrite S', F'. reflexivity.
    + cbn. destruct M as [-> | ->]; [reflexivity|].
      now rewrite andb_false_r.
    + reflexivity.
Qed.

(** ** The pre-check, exactly *)

Lemma wellFormed_passes (params : option IInvokeCommandParms) :
  wellFormed this params = true ->
  exists p args u,
    completion (ensureParameters this params) = Normal (p, args, u).
Proof.
  unfold wellFormed, ensureParameters, completion, formatOf.
  destruct params as [p0|]; [|discriminate].
  destruct p0 as [a s f]. destruct a as [args0|]; [|discriminate].
  cbn -[trim String.append join existsb].
  unfold ImperativeExpect_toBeOneOf.
  destruct (existsb _ _); [|discriminate].
  destruct (underscore args0) as [u0|]; [|discriminate].
  cbn -[trim String.append join existsb].
  unfold definition.
  destruct (chainedHandlers (mDefinition this)) as [chain|].
  - intros _. cbn. eauto.
  - destruct (handler (mDefinition this)) as [h|]; [|discriminate].
    cbn -[trim String.append join]. unfold ImperativeExpect_toNotBeEqual.
    destruct (String.eqb (trim h) EmptyString); [discriminate|].
    intros _. cbn. eauto.
Qed.

Lemma wellFormed_fails (params : option IInvokeCommandParms) :
  wellFormed this params = false ->
  exists v, completion (ensureParameters this params) = Throw v.
Proof.
  unfold wellFormed, ensureParameters, completion, formatOf.
  destruct params as [p0|]; [|cbn; eauto].
  destruct p0 as [a s f]. destruct a as [args0|]; [|cbn; eauto].
  cbn -[trim String.append join existsb].
  unfold ImperativeExpect_toBeOneOf.
  destruct (existsb _ _); [|cbn; eauto].
  destruct (underscore args0) as [u0|]; [|cbn; eauto].
  cbn -[trim String.append join existsb].
  unfold definition.
  destruct (chainedHandlers (mDefinition this)) as [chain|]; [discriminate|].
  destruct (handler (mDefinition this)) as [h|]; [|cbn; eauto].
  cbn -[trim String.append join]. unfold ImperativeExpect_toNotBeEqual.
  destruct (String.eqb (trim h) EmptyString); [cbn; eauto | discriminate].
Qed.

(** X4. The pre-check of [invoke] fails exactly when the parameters or
    their arguments are missing, the response format is neither "default"
    nor "json", the positional arguments are not an array, or the command
    has no chained handlers and its handler is missing or blank. When it
    fails, [invoke] throws an [ImperativeError] and nothing has happened;
    when it passes, the validator is called first. *)
Theorem precheck_exact (params : option IInvokeCommandParms) :
  if wellFormed this params
  then exists t, events (invoke H this params) = CallValidate :: t
  else exists v, invoke H this params = ([], Throw v)
                 /\ is_ImperativeError v = true.
Proof.
  destruct (wellFormed this params) eqn:W.
  - destruct (wellFormed_passes _ W) as (p & args & u & E).
    unfold invoke. rewrite (events_bind _ _ _ E), ensureParameters_events.
    cbv beta iota zeta. cbn [app]. unfold validate.
    rewrite bind_assoc, events_emit. eauto.
  - destruct (wellFormed_fails _ W) as (v & E). exists v. split.
    + unfold invoke. rewrite (bind_throw_eq _ _ _ E).
      now rewrite ensureParameters_events.
    + eapply ensureParameters_throws; eauto.
Qed.

(** ** Invocations that return a snapshot *)

Lemma hasMessage_message (v : JsValue) :
  hasMessage v = true -> exists m, get_prop v "message" = Normal (JsString m).
Proof.
  unfold hasMessage.
  destruct (get_prop v "message") as [[ | | | | m | | | | | ]|x];
    try discriminate.
  eauto.
Qed.

Lemma onValidatorError_returns (e : JsValue) (r : CommandResponse) :
  hasMessage e = true -> format_ok r ->
  exists json, completion (onValidatorError e r) = Normal (Some json).
Proof.
  intros R F. destruct (hasMessage_message e R) as [m Hm].
  unfold onValidatorError. rewrite Hm.
  rewrite (completion_bind (lift (Normal (JsString m))) _ _ eq_refl).
  cbv beta zeta.
  cbn [completion bind snd fst console_errorHeader console_error
         console_error_of toString_method lift ToString].
  eexists. apply finish_completion. exact F.
Qed.

Lemma onSyntaxInvalid_returns (u : list string) (r : CommandResponse) :
  format_ok r ->
  exists json, completion (onSyntaxInvalid this u r) = Normal (Some json).
Proof.
  intros F. unfold onSyntaxInvalid.
  cbn [completion bind snd fst console_error].
  eexists. apply finish_completion. exact F.
Qed.

Lemma onPrepareError_returns (e : JsValue) (r : CommandResponse) :
  is_ImperativeError e = true -> format_ok r ->
  exists json, completion (onPrepareError e r) = Normal (Some json).
Proof.
  intros I F.
  destruct e
    as [ | | b | n | s | items | fields | m st | m ad ce st | m st ];
    try discriminate I.
  destruct (onPrepareError_imperative m ad ce st r F) as (json & E & _).
  eauto.
Qed.

Lemma prepare_outcome (args : Arguments) (r r' : CommandResponse)
  (e : JsValue) :
  completion (prepare H this r args) = Normal (r', Throw e) ->
  snd (readStdinIfRequested H args (type (definition this))) = Throw e
  \/ exists args', loadProfiles H (definition this) args' = Throw e.
Proof.
  unfold prepare.
  destruct (interact_logged r
              (readStdinIfRequested H args (type (definition this))))
    as (r1 & E & _).
  rewrite completion_emit, (completion_bind _ _ _ E). cbv beta iota zeta.
  destruct (snd (readStdinIfRequested H args (type (definition this))))
    as [args'|e0].
  - rewrite completion_emit.
    destruct (loadProfiles H (definition this) args') as [pr|e1] eqn:L.
    + discriminate.
    + intros X. injection X as _ <-. right. eauto.
  - intros X. injection X as _ <-. now left.
Qed.

Lemma invokeHandler_returns (h : string) (args : Arguments)
  (prepared : ICommandPrepared) (r : CommandResponse) :
  (forall e, require_default H h = Throw e -> hasMessage e = true) ->
  format_ok r ->
  exists json,
    completion (invokeHandler H this h args prepared r) = Normal (Some json).
Proof.
  intros R F. unfold invokeHandler.
  destruct (require_default H h) as [hd|e] eqn:Hreq.
  - rewrite (attemptHandlerLoad_ok _ _ _ _ _ Hreq).
    rewrite completion_bind_pair. cbv beta iota zeta.
    match goal with
    | |- context [call_process hd h ?hp r] =>
        destruct (call_process_front hd h hp r) as (r2 & o & E2 & _ & F2 & _)
    end.
    run E2. destruct o as [[]|v].
    + eexists. apply finish_completion. unfold format_ok. cbn.
      rewrite F2. exact F.
    + destruct (handleHandlerError_spec v r2 h) as (r3 & E3 & _ & F3 & _).
      run E3. eexists. apply finish_completion. unfold format_ok.
      rewrite F3, F2. exact F.
  - destruct (hasMessage_message e (R e eq_refl)) as [m Hm].
    destruct (attemptHandlerLoad_failed H this r h e m Hreq Hm)
      as (r' & E & _ & F' & _).
    run E. eexists. apply finish_completion. unfold format_ok.
    rewrite F'. exact F.
Qed.

Lemma chainedStep_total (e : IChainedHandlerEntry) (st : ChainState)
  (args : Arguments) (prepared : ICommandPrepared)
  (all : list IChainedHandlerEntry) (r : CommandResponse) :
  (forall x, require_default H (chained_handler e) = Throw x ->
             hasMessage x = true) ->
  exists o,
    completion (chainedStep H this e st args prepared all r) = Normal o
    /\ match o with
       | LoadFailed r' => mResponseFormat r' = mResponseFormat r
       | _ => True
       end.
Proof.
  intros R. unfold chainedStep.
  destruct (require_default H (chained_handler e)) as [hd|x] eqn:Hreq.
  - rewrite (attemptHandlerLoad_ok _ _ _ _ _ Hreq).
    rewrite completion_bind_pair. cbv beta iota zeta.
    destruct (getArguments H (mCommandRootName this) all
                (chainedHandlerIndex st) (chainedResponses st) args)
      as [a|e1].
    + match goal with
      | |- context [call_process hd ?path ?hp ?cr] =>
          destruct (call_process_front hd path hp cr) as (r2 & o & E2 & _)
      end.
      run E2. destruct o as [[]|v]; eexists; split; (reflexivity || exact I).
    + eexists. split; [reflexivity | exact I].
  - destruct (hasMessage_message x (R x eq_refl)) as [m Hm].
    destruct (attemptHandlerLoad_failed H this r (chained_handler e) x m
                Hreq Hm) as (r' & E & _ & F' & _).
    run E. eexists. split; [reflexivity | exact F'].
Qed.

Lemma chainedLoop_returns (args : Arguments) (prepared : ICommandPrepared)
  (all : list IChainedHandlerEntry) (response : CommandResponse)
  (rem : list IChainedHandlerEntry) :
  (forall e x, In e rem -> require_default H (chained_handler e) = Throw x ->
               hasMessage x = true) ->
  format_ok response ->
  forall st,
    (rem <> [] \/ exists cr, chainedResponse st = Some cr /\ format_ok cr) ->
    exists json,
      completion (chainedLoop H this rem st args prepared all response)
      = Normal (Some json).
Proof.
  intros R F. induction rem as [|e rest IH]; intros st Hst.
  - destruct Hst as [N | (cr & E & Fc)]; [contradiction|].
    cbn [chainedLoop]. rewrite E. eexists. apply finish_completion. exact Fc.
  - cbn [chainedLoop].
    destruct (chainedStep_total e st args prepared all response)
      as (o & Eo & Ho).
    { intros x. apply R. now left. }
    pose proof (chainedStep_spec H this _ _ _ _ _ _ _ Eo) as Sp.
    destruct (newChainedResponse_spec H e args st) as (Fn & _).
    run Eo. destruct o as [r' | cr pe | cr].
    + eexists. apply finish_completion. unfold format_ok. rewrite Ho. exact F.
    + destruct (handleHandlerError_spec pe cr (chained_handler e))
        as (r3 & E3 & _ & F3 & _).
      run E3. eexists. apply finish_completion. unfold format_ok.
      rewrite F3. exact (grown_format_ok _ _ Sp Fn).
    + apply IH.
      * intros e' x Hin. apply R. now right.
      * right. exists cr. split; [reflexivity|].
        exact (grown_format_ok _ _ (proj1 Sp) Fn).
Qed.

(** X5. [invoke] returns a snapshot, whatever the handlers do (they may
    throw any value, or lack a [process] method), provided the pre-check
    passes, the chain of a command without handler is not empty, the
    validator and the module loader throw only values whose message is a
    string (as an [Error] has), and the stdin reader and the profile
    loader throw only [ImperativeError]s. *)
Theorem invoke_returns_snapshot (params : option IInvokeCommandParms) :
  wellFormed this params = true ->
  (handler (definition this) = None ->
   chainedHandlers (definition this) <> Some []) ->
  (forall args e,
      snd (SyntaxValidator_validate H (mDefinition this) (mFullDefinition this)
             args) = Throw e ->
      hasMessage e = true) ->
  (forall args e,
      snd (readStdinIfRequested H args (type (definition this))) = Throw e ->
      is_ImperativeError e = true) ->
  (forall args e,
      loadProfiles H (definition this) args = Throw e ->
      is_ImperativeError e = true) ->
  (forall path e, require_default H path = Throw e -> hasMessage e = true) ->
  exists json, completion (invoke H this params) = Normal (Some json).
Proof.
  intros W Hchain Hval Hstdin Hprof Hreq.
  destruct (wellFormed_passes _ W) as (p & args & u & Hpre).
  destruct (initial_format _ _ _ _ _ Hpre) as [F0 _].
  destruct (validate_grown H this args (succeeded (constructResponseObject p)))
    as (r1 & E1 & G1 & _).
  pose proof (grown_format_ok _ _ G1 F0) as F1.
  unfold invoke. run Hpre. run E1.
  destruct (snd (SyntaxValidator_validate H (mDefinition this)
                   (mFullDefinition this) args)) as [v|e] eqn:Ev.
  2: { apply onValidatorError_returns; [|exact F1]. exact (Hval _ _ Ev). }
  destruct (valid v); cbn [negb].
  2: { now apply onSyntaxInvalid_returns. }
  destruct (prepare_grown H this args r1) as (r2 & o & E2 & G2 & _).
  pose proof (grown_format_ok _ _ G2 F1) as F2.
  run E2. destruct o as [[args' prepared]|e].
  - unfold execute.
    destruct (handler (definition this)) as [h|] eqn:Hh.
    + apply invokeHandler_returns; [|exact F2]. intros e. apply Hreq.
    + destruct (chainedHandlers (definition this)) as [chain|] eqn:Hc.
      * apply chainedLoop_returns; [|exact F2|].
        -- intros e x _. apply Hreq.
        -- left. intros ->. now apply Hchain.
      * apply ensureParameters_inv in Hpre.
        destruct Hpre as (_ & _ & _ & Hn & _). now destruct (Hn Hc).
  - apply onPrepareError_returns; [|exact F2].
    destruct (prepare_outcome _ _ _ _ E2) as [X | (a & X)].
    + exact (Hstdin _ _ X).
    + exact (Hprof _ _ X).
Qed.

(** ** What the handler logs *)

Lemma handleHandlerError_stdout (v : JsValue) (r r' : CommandResponse)
  (path : string) :
  completion (handleHandlerError v r path) = Normal r' ->
  mStdout r' = mStdout r.
Proof.
  destruct v
    as [ | | b | n | s | items | fields | m st | m ad ce st | m st ].
  1-7: cbn; intros E; injection E as <-; reflexivity.
  - destruct (String.eqb m EmptyString) eqn:Em;
      destruct st as [s|]; [destruct (String.eqb s EmptyString) eqn:Es| |
                            destruct (String.eqb s EmptyString) eqn:Es|];
      cbn; rewrite ?Em, ?Es; cbn; intros E; injection E as <-; reflexivity.
  - destruct ad; cbn; intros E; injection E as <-; reflexivity.
  - destruct (String.eqb m EmptyString) eqn:Em;
      destruct st as [s|]; [destruct (String.eqb s EmptyString) eqn:Es| |
                            destruct (String.eqb s EmptyString) eqn:Es|];
      cbn; rewrite ?Em, ?Es; cbn; intros E; injection E as <-; reflexivity.
Qed.

Lemma call_process_logged (h : ICommandHandler) (path : string)
  (params : IHandlerParameters) (r : CommandResponse)
  (f : IHandlerParameters -> Interaction unit) :
  process h = Some f ->
  exists r',
    completion (call_process h path params r) = Normal (r', snd (f params))
    /\ mResponseFormat r' = mResponseFormat r
    /\ mError r' = mError r
    /\ mStdout r' = mStdout r ++ logged_stdout (fst (f params))
    /\ mStderr r' = mStderr r ++ logged_stderr (fst (f params)).
Proof.
  intros Hp. unfold call_process. rewrite Hp.
  destruct (interact_logged r (f params)) as (r' & E & _ & F & Er & O & X & _).
  exists r'. rewrite completion_emit. auto.
Qed.

(** X6. When the handler of a command returns, [invoke] returns a
    snapshot that reports success with exit code 0 and no error, even if
    the handler had marked the response as failed; its stdout and stderr
    are those of the response as preparation left it, followed by what the
    handler logged, in order. *)
Theorem handler_return_response (params : option IInvokeCommandParms)
  (p : IInvokeCommandParms) (args args' : Arguments) (u : list string)
  (r1 r2 : CommandResponse) (v : ICommandValidatorResponse)
  (prepared : ICommandPrepared) (handlerPath : string) (h : ICommandHandler)
  (f : IHandlerParameters -> Interaction unit) (acts : list ResponseAction) :
  completion (ensureParameters this params) = Normal (p, args, u) ->
  completion (validate H this args (succeeded (constructResponseObject p)))
  = Normal (r1, Normal v) ->
  valid v = true ->
  completion (prepare H this r1 args) = Normal (r2, Normal (args', prepared)) ->
  handler (definition this) = Some handlerPath ->
  require_default H handlerPath = Normal h ->
  process h = Some f ->
  f {| hp_profiles := profiles prepared; hp_arguments := args';
       hp_definition := definition this;
       hp_fullDefinition := fullDefinition this; isChained := false |}
  = (acts, Normal tt) ->
  exists json,
    completion (invoke H this params) = Normal (Some json)
    /\ success json = true
    /\ exitCode json = 0%Z
    /\ error json = None
    /\ stdout json = mStdout r2 ++ logged_stdout acts
    /\ stderr json = mStderr r2 ++ logged_stderr acts.
Proof.
  intros Hpre Hval Hv Hprep Hh Hreq Hproc Hret.
  destruct (initial_format _ _ _ _ _ Hpre) as [F0 N0].
  destruct (validate_grown H this args (succeeded (constructResponseObject p)))
    as (r1' & E1 & G1 & _).
  rewrite Hval in E1. injection E1 as <- _.
  destruct (prepare_grown H this args r1) as (r2' & o & E2 & G2 & _).
  rewrite Hprep in E2. injection E2 as <- _.
  set (hp := {| hp_profiles := profiles prepared; hp_arguments := args';
                hp_definition := definition this;
                hp_fullDefinition := fullDefinition this;
                isChained := false |}) in *.
  destruct (call_process_logged h handlerPath hp r2 f Hproc)
    as (r3 & E3 & F3 & Er3 & O3 & X3).
  rewrite Hret in E3, O3, X3. cbn [fst snd] in E3, O3, X3.
  pose proof (grown_trans _ _ _ G1 G2) as G.
  exists (buildJsonResponse (endProgressBar (succeeded r3))). split.
  - unfold invoke. run Hpre. run Hval. rewrite Hv. cbn [negb].
    run Hprep. unfold execute. rewrite Hh. unfold invokeHandler.
    rewrite (attemptHandlerLoad_ok _ _ _ _ _ Hreq).
    rewrite completion_bind_pair. cbv beta iota zeta.
    fold hp. run E3.
    apply finish_completion. unfold format_ok. cbn. rewrite F3.
    exact (grown_format_ok _ _ G F0).
  - cbn. repeat split; auto.
    rewrite Er3, (grown_error _ _ G). exact N0.
Qed.

(** X7. When the handler of a command throws, what it logged before the
    throw is kept: the stdout of the snapshot is that of the response as
    preparation left it followed by what the handler logged, and its
    stderr begins with the same for stderr, the report of the error
    coming after. *)
Theorem handler_throw_keeps_output (params : option IInvokeCommandParms)
  (p : IInvokeCommandParms) (args args' : Arguments) (u : list string)
  (r1 r2 : CommandResponse) (v : ICommandValidatorResponse)
  (prepared : ICommandPrepared) (handlerPath : string) (h : ICommandHandler)
  (f : IHandlerParameters -> Interaction unit) (acts : list ResponseAction)
  (thrown : JsValue) :
  completion (ensureParameters this params) = Normal (p, args, u) ->
  completion (validate H this args (succeeded (constructResponseObject p)))
  = Normal (r1, Normal v) ->
  valid v = true ->
  completion (prepare H this r1 args) = Normal (r2, Normal (args', prepared)) ->
  handler (definition this) = Some handlerPath ->
  require_default H handlerPath = Normal h ->
  process h = Some f ->
  f {| hp_profiles := profiles prepared; hp_arguments := args';
       hp_definition := definition this;
       hp_fullDefinition := fullDefinition this; isChained := false |}
  = (acts, Throw thrown) ->
  exists json,
    completion (invoke H this params) = Normal (Some json)
    /\ success json = false
    /\ stdout json = mStdout r2 ++ logged_stdout acts
    /\ extends (mStderr r2 ++ logged_stderr acts) (stderr json).
Proof.
  intros Hpre Hval Hv Hprep Hh Hreq Hproc Hret.
  destruct (initial_format _ _ _ _ _ Hpre) as [F0 N0].
  destruct (validate_grown H this args (succeeded (constructResponseObject p)))
    as (r1' & E1 & G1 & _).
  rewrite Hval in E1. injection E1 as <- _.
  destruct (prepare_grown H this args r1) as (r2' & o & E2 & G2 & _).
  rewrite Hprep in E2. injection E2 as <- _.
  set (hp := {| hp_profiles := profiles prepared; hp_arguments := args';
                hp_definition := definition this;
                hp_fullDefinition := fullDefinition this;
                isChained := false |}) in *.
  destruct (call_process_logged h handlerPath hp r2 f Hproc)
    as (r3 & E3 & F3 & Er3 & O3 & X3).
  rewrite Hret in E3, O3, X3. cbn [fst snd] in E3, O3, X3.
  destruct (handleHandlerError_spec thrown r3 handlerPath)
    as (r4 & E4 & _ & F4 & Su4 & _ & _ & _ & X4 & _).
  pose proof (handleHandlerError_stdout _ _ _ _ E4) as O4.
  pose proof (grown_trans _ _ _ G1 G2) as G.
  exists (buildJsonResponse r4). split.
  - unfold invoke. run Hpre. run Hval. rewrite Hv. cbn [negb].
    run Hprep. unfold execute. rewrite Hh. unfold invokeHandler.
    rewrite (attemptHandlerLoad_ok _ _ _ _ _ Hreq).
    rewrite completion_bind_pair. cbv beta iota zeta.
    fold hp. run E3. run E4.
    apply finish_completion. unfold format_ok. rewrite F4, F3.
    exact (grown_format_ok _ _ G F0).
  - cbn. rewrite Su4, O4, O3, <- X3. auto.
Qed.

(** X8. When the loaded handler has no [process] method, the call of it
    raises a [TypeError] inside the [try] of [invoke]: the handler is
    never entered, and [invoke] returns a failed snapshot that reports
    the [TypeError] as an unexpected command error: the error record has
    the message of the [TypeError] and a stack, which begins with the
    name and the message of the error. *)
Theorem missing_process_method (params : option IInvokeCommandParms)
  (p : IInvokeCommandParms) (args args' : Arguments) (u : list string)
  (r1 r2 : CommandResponse) (v : ICommandValidatorResponse)
  (prepared : ICommandPrepared) (handlerPath : string) (h : ICommandHandler) :
  completion (ensureParameters this params) = Normal (p, args, u) ->
  completion (validate H this args (succeeded (constructResponseObject p)))
  = Normal (r1, Normal v) ->
  valid v = true ->
  completion (prepare H this r1 args) = Normal (r2, Normal (args', prepared)) ->
  handler (definition this) = Some handlerPath ->
  require_default H handlerPath = Normal h ->
  process h = None ->
  exists json,
    completion (invoke H this params) = Normal (Some json)
    /\ success json = false
    /\ exitCode json = 1%Z
    /\ (exists frames,
          error json
          = Some {| msg := "handler.process is not a function";
                    additionalDetails := JsUndefined;
                    causeErrors := JsUndefined;
                    stack :=
                      Some ("TypeError: handler.process is not a function"
                              ++ frames)%string |})
    /\ message json
       = (unexpectedCommandError ++ ": "
            ++ "handler.process is not a function")%string
    /\ stdout json = mStdout r2
    /\ processed (events (invoke H this params)) = [].
Proof.
  intros Hpre Hval Hv Hprep Hh Hreq Hproc.
  destruct (invoke_execute H this _ _ _ _ _ _ _ _ _ Hpre Hval Hv Hprep)
    as (Ec & Ep & F2).
  rewrite Ec, Ep. unfold execute. rewrite Hh. unfold invokeHandler.
  rewrite (attemptHandlerLoad_ok _ _ _ _ _ Hreq).
  rewrite completion_bind_pair, events_bind_pair. cbv beta iota zeta.
  set (e := TypeError "handler.process is not a function").
  match goal with
  | |- context [call_process h handlerPath ?hp r2] =>
      assert (E3 : completion (call_process h handlerPath hp r2)
                   = Normal (r2, Throw e))
        by (unfold call_process; rewrite Hproc; reflexivity);
      assert (T3 : events (call_process h handlerPath hp r2) = [])
        by (unfold call_process; rewrite Hproc; reflexivity)
  end.
  rewrite (events_bind _ _ _ E3), T3. run E3.
  destruct (handleHandlerError_spec e r2 handlerPath)
    as (r4 & E4 & _ & F4 & _ & _ & _ & _ & _ & C4).
  assert (Ff : format_ok r4) by (unfold format_ok; now rewrite F4).
  exists (buildJsonResponse r4). split.
  - run E4. now apply finish_completion.
  - rewrite (events_bind _ _ _ E4). cbv beta iota zeta.
    rewrite !processed_app.
    rewrite (processed_of_calls _ _ C4), (processed_of_calls _ _ (finish_calls r4 Ff)).
    cbn in E4. injection E4 as <-. cbn. repeat split.
    exists EmptyString. reflexivity.
Qed.

(** ** Chained handlers *)

Lemma Finishing_calls (b : bool) (fmt : string)
  (m : Eff (option ICommandResponse)) :
  Finishing b fmt m -> calls (events m) = [].
Proof.
  intros (s & C & [(v & ->) | (r & _ & _ & ->)]); unfold events at 1;
    cbn [fst].
  - exact (Chatter_calls _ _ C).
  - now rewrite calls_app, (Chatter_calls _ _ C), finishResponse_calls.
Qed.

Lemma Finishing_documents_front (b : bool) (fmt : string)
  (m : Eff (option ICommandResponse)) :
  Finishing b fmt m ->
  forall v, completion m = Throw v -> documents (events m) = [].
Proof.
  intros (s & C & [(v' & ->) | (r & _ & _ & ->)]) v Hc.
  - exact (Chatter_documents _ _ C).
  - change (documents (s ++ events (finishResponse (Some r))) = []).
    change (completion (json <- finishResponse (Some r) ;; ret (Some json))
            = Throw v) in Hc.
    rewrite documents_app, (Chatter_documents _ _ C). cbn [app].
    destruct (finishResponse_cases r)
      as [(_ & _ & E) | [(_ & E) | (_ & _ & _ & x & E & _)]];
      rewrite E in *; [discriminate Hc | discriminate Hc | reflexivity].
Qed.

Lemma calls_stage {A B : Type} (op : Eff A) (k : A -> Eff B)
  (cs allowed : list Event) :
  calls (events op) = cs ->
  (forall a, completion op = Normal a ->
             extends (calls (events (k a))) allowed) ->
  extends (calls (events (bind op k))) (cs ++ allowed).
Proof.
  intros C K. rewrite events_bind_gen, calls_app, C.
  destruct (completion op) as [a|v].
  - destruct (K a eq_refl) as [rest ->]. exists rest. now rewrite app_assoc.
  - exists allowed. now rewrite app_nil_r.
Qed.

Lemma extends_nil {A : Type} (l : list A) : extends [] l.
Proof. now exists l. Qed.

(** One turn of the loop: the handler of the step is loaded, then
    entered; a step that returns has entered its handler. *)
Lemma chainedStep_front (e : IChainedHandlerEntry) (st : ChainState)
  (args : Arguments) (prepared : ICommandPrepared)
  (all : list IChainedHandlerEntry) (r : CommandResponse) :
  documents (events (chainedStep H this e st args prepared all r)) = []
  /\ (calls (events (chainedStep H this e st args prepared all r))
      = [CallRequire (chained_handler e)]
      \/ calls (events (chainedStep H this e st args prepared all r))
         = [CallRequire (chained_handler e); CallProcess (chained_handler e)])
  /\ forall cr,
       completion (chainedStep H this e st args prepared all r)
       = Normal (Fulfilled cr) ->
       calls (events (chainedStep H this e st args prepared all r))
       = [CallRequire (chained_handler e); CallProcess (chained_handler e)].
Proof.
  assert (X : documents (events (chainedStep H this e st args prepared all r))
              = []
              /\ (calls (events (chainedStep H this e st args prepared all r))
                  = [CallRequire (chained_handler e)]
                  \/ calls (events (chainedStep H this e st args prepared all r))
                     = [CallRequire (chained_handler e);
                        CallProcess (chained_handler e)])).
  { unfold chainedStep.
    destruct (attemptHandlerLoad_front r (chained_handler e))
      as [(Cl & Dl & _) _].
    rewrite events_bind_gen, documents_app, calls_app, Cl, Dl.
    destruct (completion (attemptHandlerLoad H this r (chained_handler e)))
      as [[r' [hd|]]|v]; [|cbn; auto|cbn; auto].
    destruct (getArguments H (mCommandRootName this) all
                (chainedHandlerIndex st) (chainedResponses st) args)
      as [a|e1].
    - match goal with
      | |- context [call_process hd ?path ?hp ?cr] =>
          destruct (call_process_front hd path hp cr)
            as (r2 & o & E2 & _ & _ & [(Cc & Dc & _) | (Cc & Dc & _)])
      end;
        rewrite (events_bind _ _ _ E2), documents_app, calls_app, Cc, Dc;
        destruct o as [[]|v]; cbn; auto.
    - cbn. auto. }
  destruct X as [D C]. split; [exact D|]. split; [exact C|].
  intros cr E.
  pose proof (chainedStep_spec H this _ _ _ _ _ _ _ E) as [_ P].
  destruct C as [C | C]; [|exact C].
  rewrite <- processed_calls, C in P. discriminate P.
Qed.

Lemma chainedLoop_calls (args : Arguments) (prepared : ICommandPrepared)
  (all : list IChainedHandlerEntry) (response : CommandResponse)
  (rem : list IChainedHandlerEntry) (st : ChainState) :
  extends
    (calls (events (chainedLoop H this rem st args prepared all response)))
    (chainCalls rem).
Proof.
  revert st. induction rem as [|e rest IH]; intros st.
  - cbn [chainedLoop chainCalls flat_map].
    destruct (chainedResponse st) as [cr|].
    + rewrite (Finishing_calls _ _ _ (Finishing_finish cr)). apply extends_nil.
    + apply extends_nil.
  - cbn [chainedLoop].
    destruct (chainedStep_front e st args prepared all response)
      as (_ & C & Cf).
    rewrite events_bind_gen, calls_app.
    change (chainCalls (e :: rest))
      with ([CallRequire (chained_handler e); CallProcess (chained_handler e)]
              ++ chainCalls rest).
    assert (Stop : forall t, t = [] ->
              extends
                (calls (events (chainedStep H this e st args prepared all
                                  response)) ++ t)
                ([CallRequire (chained_handler e);
                  CallProcess (chained_handler e)] ++ chainCalls rest)).
    { intros t ->. rewrite app_nil_r. destruct C as [-> | ->].
      - now exists (CallProcess (chained_handler e) :: chainCalls rest).
      - now exists (chainCalls rest). }
    destruct (completion (chainedStep H this e st args prepared all response))
      as [[r' | cr pe | cr]|v] eqn:Eo.
    + apply Stop. exact (Finishing_calls _ _ _ (Finishing_finish r')).
    + apply Stop.
      exact (Finishing_calls _ _ _
               (afterThrow_finishing pe cr (chained_handler e))).
    + rewrite (Cf _ eq_refl). destruct (IH (chainNext st cr)) as [x Hx].
      exists x. rewrite Hx. now rewrite app_assoc.
    + now apply Stop.
Qed.

(** X9. The handlers of a chain are loaded one at a time, each just
    before it is entered, in the order of the chain and after the
    validator, the stdin reader and the profile loader: no handler is
    loaded ahead of its turn or after the chain has stopped. *)
Theorem chain_calls_in_order (params : option IInvokeCommandParms)
  (chain : list IChainedHandlerEntry) :
  handler (definition this) = None ->
  chainedHandlers (definition this) = Some chain ->
  extends (calls (events (invoke H this params)))
    ([CallValidate; CallReadStdin; CallLoadProfiles] ++ chainCalls chain).
Proof.
  intros Hh Hc.
  destruct (completion (ensureParameters this params))
    as [[[p args] u]|v] eqn:Hpre.
  2: { unfold invoke. rewrite (events_bind_throw _ _ _ Hpre).
       rewrite ensureParameters_events. apply extends_nil. }
  unfold invoke. rewrite (bind_normal_eq _ _ _ Hpre), ensureParameters_events.
  cbn [app]. rewrite <- eff_eta. cbv beta iota zeta.
  set (r0 := succeeded (constructResponseObject p)).
  destruct (validate_front args r0) as (r1 & E1 & _ & _ & (Cv & _)).
  apply (calls_stage _ _ [CallValidate]
           ([CallReadStdin; CallLoadProfiles] ++ chainCalls chain));
    [exact Cv|].
  intros a Ea. rewrite E1 in Ea. injection Ea as <-.
  destruct (snd (SyntaxValidator_validate H (mDefinition this)
                   (mFullDefinition this) args)) as [v|e].
  2: { rewrite (Finishing_calls _ _ _ (onValidatorError_finishing e r1)).
       apply extends_nil. }
  destruct (valid v); cbn [negb].
  2: { rewrite (Finishing_calls _ _ _ (onSyntaxInvalid_finishing u r1)).
       apply extends_nil. }
  destruct (prepare_front args r1)
    as (r2 & o & E2 & _ & _ & [(e & -> & (Cp & _)) | (Cp & _)]).
  - apply (calls_stage _ _ [CallReadStdin]
             ([CallLoadProfiles] ++ chainCalls chain)); [exact Cp|].
    intros a Ea. rewrite E2 in Ea. injection Ea as <-.
    rewrite (Finishing_calls _ _ _ (onPrepareError_finishing e r2)).
    apply extends_nil.
  - apply (calls_stage _ _ [CallReadStdin; CallLoadProfiles]
             (chainCalls chain)); [exact Cp|].
    intros a Ea. rewrite E2 in Ea. injection Ea as <-.
    destruct o as [[args' prepared]|e].
    + unfold execute. rewrite Hh, Hc. apply chainedLoop_calls.
    + rewrite (Finishing_calls _ _ _ (onPrepareError_finishing e r2)).
      apply extends_nil.
Qed.

(** X10. When the load of the handler of a step of a chain throws a
    value whose message is a string (an [Error]), the steps before it
    having returned, [invoke] returns the snapshot of the
    response of the command itself, failed with the instantiation
    message: its stdout is the one preparation left, so that nothing the
    earlier steps logged is part of it, and no further handler is
    entered. *)
Theorem chain_load_failure_response (params : option IInvokeCommandParms)
  (p : IInvokeCommandParms) (args args' : Arguments) (u : list string)
  (r1 r2 : CommandResponse) (v : ICommandValidatorResponse)
  (prepared : ICommandPrepared) (pre post : list IChainedHandlerEntry)
  (e : IChainedHandlerEntry) (st : ChainState) (x : JsValue) (m : string) :
  completion (ensureParameters this params) = Normal (p, args, u) ->
  completion (validate H this args (succeeded (constructResponseObject p)))
  = Normal (r1, Normal v) ->
  valid v = true ->
  completion (prepare H this r1 args) = Normal (r2, Normal (args', prepared)) ->
  handler (definition this) = None ->
  chainedHandlers (definition this) = Some (pre ++ e :: post) ->
  ChainRun H this args' prepared (pre ++ e :: post) r2 pre chainStart st ->
  require_default H (chained_handler e) = Throw x ->
  get_prop x "message" = Normal (JsString m) ->
  exists json,
    completion (invoke H this params) = Normal (Some json)
    /\ success json = false
    /\ message json = instantiationMessage H this (chained_handler e)
    /\ error json
       = Some {| msg := instantiationMessage H this (chained_handler e);
                 additionalDetails := JsString m; causeErrors := JsUndefined;
                 stack := None |}
    /\ stdout json = mStdout r2
    /\ processed (events (invoke H this params)) = map chained_handler pre.
Proof.
  intros Hpre Hval Hv Hprep Hh Hc Hrun Hreq Hm.
  destruct (invoke_execute H this _ _ _ _ _ _ _ _ _ Hpre Hval Hv Hprep)
    as (Ec & Ep & F2).
  rewrite Ec, Ep. unfold execute. rewrite Hh, Hc.
  destruct (chainedLoop_run H this _ _ _ _ pre (e :: post) _ _ Hrun)
    as (Lc & Lp & _ & _).
  rewrite Lc, Lp. cbn [chainedLoop].
  destruct (attemptHandlerLoad_failed H this r2 (chained_handler e) x m
              Hreq Hm)
    as (r' & E & _ & F' & Su & Ms & Er & O & _ & P).
  assert (Es : completion
                 (chainedStep H this e st args' prepared (pre ++ e :: post) r2)
               = Normal (LoadFailed r'))
    by (unfold chainedStep; run E; reflexivity).
  assert (Ps : processed
                 (events
                    (chainedStep H this e st args' prepared (pre ++ e :: post)
                       r2)) = []).
  { unfold chainedStep. rewrite (events_bind _ _ _ E). cbv beta iota zeta.
    rewrite processed_app, P. reflexivity. }
  assert (Ff : format_ok r') by (unfold format_ok; now rewrite F').
  exists (buildJsonResponse r'). split.
  - run Es. now apply finish_completion.
  - rewrite (events_bind _ _ _ Es). cbv beta iota zeta.
    rewrite !processed_app, Ps, (processed_of_calls _ _ (finish_calls r' Ff)).
    cbn. rewrite Su, Ms, Er, O, app_nil_r. repeat split.
Qed.

(** The responses of a run of steps. *)
Lemma ChainRun_results (args : Arguments) (prepared : ICommandPrepared)
  (all : list IChainedHandlerEntry) (response : CommandResponse)
  (l : list IChainedHandlerEntry) (st st' : ChainState) :
  ChainRun H this args prepared all response l st st' ->
  exists crs, ChainResults H this args prepared all response l st st' crs.
Proof.
  induction 1 as [s | e es s s' cr Hstep Hrun [crs IH]].
  - exists []. constructor.
  - exists (cr :: crs). now constructor.
Qed.

Lemma last_cons {A : Type} (x : A) (l : list A) (d : A) :
  last (x :: l) d = last l x.
Proof.
  revert x d. induction l as [|y l IH]; intros x d; [reflexivity|].
  change (last (x :: y :: l) d) with (last (y :: l) d).
  now rewrite !IH.
Qed.

Lemma ChainResults_state (args : Arguments) (prepared : ICommandPrepared)
  (all : list IChainedHandlerEntry) (response : CommandResponse)
  (l : list IChainedHandlerEntry) (st st' : ChainState)
  (crs : list CommandResponse) :
  ChainResults H this args prepared all response l st st' crs ->
  List.length crs = List.length l
  /\ chainedHandlerIndex st' = chainedHandlerIndex st + List.length l
  /\ chainedResponses st'
     = chainedResponses st ++ map (fun cr => data (buildJsonResponse cr)) crs
  /\ chainedResponse st' = last (map Some crs) (chainedResponse st)
  /\ bufferedStdOut st'
     = last (map (fun cr => stdout (buildJsonResponse cr)) crs)
         (bufferedStdOut st)
  /\ bufferedStdErr st'
     = last (map (fun cr => stderr (buildJsonResponse cr)) crs)
         (bufferedStdErr st).
Proof.
  induction 1 as [s | e es s s' cr crs Hstep Hrun IH].
  - cbn. rewrite Nat.add_0_r, app_nil_r. repeat split.
  - destruct IH as (I0 & I1 & I2 & I3 & I4 & I5).
    cbn [chainNext chainedHandlerIndex chainedResponses chainedResponse
           bufferedStdOut bufferedStdErr] in I1, I2, I3, I4, I5.
    cbn [List.length map]. split; [lia|]. split; [lia|].
    split; [now rewrite I2, <- app_assoc|].
    split; [|split].
    + now rewrite last_cons, I3.
    + now rewrite last_cons, I4.
    + now rewrite last_cons, I5.
Qed.

(** X11. The invariant of the loop over a chain: after the steps of
    [pre] have returned, starting from the head of the chain, the index is
    the number of steps run; the results passed to the argument mapping
    of the next step are the data of the responses of those steps, in
    order; the chained response is that of the last step run (none before
    the first step); and the buffered output is that of the last
    response. *)
Theorem chain_index_counts_results (args : Arguments)
  (prepared : ICommandPrepared) (all : list IChainedHandlerEntry)
  (response : CommandResponse) (pre : list IChainedHandlerEntry)
  (st : ChainState) :
  ChainRun H this args prepared all response pre chainStart st ->
  exists crs,
    ChainResults H this args prepared all response pre chainStart st crs
    /\ List.length crs = List.length pre
    /\ chainedHandlerIndex st = List.length pre
    /\ chainedResponses st = map (fun cr => data (buildJsonResponse cr)) crs
    /\ chainedResponse st = last (map Some crs) None
    /\ bufferedStdOut st
       = last (map (fun cr => stdout (buildJsonResponse cr)) crs) []
    /\ bufferedStdErr st
       = last (map (fun cr => stderr (buildJsonResponse cr)) crs) [].
Proof.
  intros R. destruct (ChainRun_results _ _ _ _ _ _ _ R) as [crs C].
  exists crs. split; [exact C|].
  destruct (ChainResults_state _ _ _ _ _ _ _ _ C)
    as (L & I & D & Cr & O & E).
  repeat split; assumption.
Qed.

(** *** What a chain writes *)

Lemma invoke_execute_events (params : option IInvokeCommandParms)
  (p : IInvokeCommandParms) (args args' : Arguments) (u : list string)
  (r1 r2 : CommandResponse) (v : ICommandValidatorResponse)
  (prepared : ICommandPrepared) :
  completion (ensureParameters this params) = Normal (p, args, u) ->
  completion (validate H this args (succeeded (constructResponseObject p)))
  = Normal (r1, Normal v) ->
  valid v = true ->
  completion (prepare H this r1 args) = Normal (r2, Normal (args', prepared)) ->
  events (invoke H this params)
  = events (validate H this args (succeeded (constructResponseObject p)))
      ++ events (prepare H this r1 args)
      ++ events (execute H this args' prepared r2).
Proof.
  intros Hpre Hval Hv Hprep. unfold invoke.
  rewrite (events_bind _ _ _ Hpre), ensureParameters_events.
  cbv beta iota zeta. rewrite (events_bind _ _ _ Hval). cbv beta iota zeta.
  rewrite Hv. cbn [negb].
  rewrite (events_bind _ _ _ Hprep). reflexivity.
Qed.

Lemma chainedLoop_run_events (args : Arguments) (prepared : ICommandPrepared)
  (all : list IChainedHandlerEntry) (response : CommandResponse)
  (pre rest : list IChainedHandlerEntry) (st st' : ChainState) :
  ChainRun H this args prepared all response pre st st' ->
  exists front,
    events (chainedLoop H this (pre ++ rest) st args prepared all response)
    = front
        ++ events (chainedLoop H this rest st' args prepared all response)
    /\ documents front = [].
Proof.
  induction 1 as [st | e es st st' cr Hstep Hrun IH].
  - exists []. split; reflexivity.
  - destruct IH as (front & E & D).
    destruct (chainedStep_front e st args prepared all response) as (Ds & _).
    exists (events (chainedStep H this e st args prepared all response)
              ++ front).
    cbn [app chainedLoop]. rewrite (events_bind _ _ _ Hstep).
    cbv beta iota zeta. rewrite E, documents_app, Ds, D, app_assoc.
    split; reflexivity.
Qed.

(** X12. When the last step of a chain returns, the steps before it
    having returned, [invoke] returns the snapshot of the response of that
    step, and whether a JSON document is written is decided by that step
    and by the arguments, not by the parameters of the invocation: the
    document is written exactly when the step is not silent and the JSON
    option of the arguments is set. *)
Theorem chain_json_document (params : option IInvokeCommandParms)
  (p : IInvokeCommandParms) (args args' : Arguments) (u : list string)
  (r1 r2 : CommandResponse) (v : ICommandValidatorResponse)
  (prepared : ICommandPrepared) (pre : list IChainedHandlerEntry)
  (e : IChainedHandlerEntry) (st : ChainState) (cr : CommandResponse) :
  completion (ensureParameters this params) = Normal (p, args, u) ->
  completion (validate H this args (succeeded (constructResponseObject p)))
  = Normal (r1, Normal v) ->
  valid v = true ->
  completion (prepare H this r1 args) = Normal (r2, Normal (args', prepared)) ->
  handler (definition this) = None ->
  chainedHandlers (definition this) = Some (pre ++ [e]) ->
  ChainRun H this args' prepared (pre ++ [e]) r2 pre chainStart st ->
  completion (chainedStep H this e st args' prepared (pre ++ [e]) r2)
  = Normal (Fulfilled cr) ->
  completion (invoke H this params) = Normal (Some (buildJsonResponse cr))
  /\ documents (events (invoke H this params))
     = if negb (stepSilent e)
          && ToBoolean (assoc (JSON_OPTION H) (options args'))
       then [buildJsonResponse cr] else [].
Proof.
  intros Hpre Hval Hv Hprep Hh Hc Hrun Hstep.
  destruct (invoke_execute H this _ _ _ _ _ _ _ _ _ Hpre Hval Hv Hprep)
    as (Ec & _ & _).
  rewrite Ec, (invoke_execute_events _ _ _ _ _ _ _ _ _ Hpre Hval Hv Hprep).
  destruct (validate_front args (succeeded (constructResponseObject p)))
    as (_ & _ & _ & _ & (_ & Dv & _)).
  assert (Dp : documents (events (prepare H this r1 args)) = []).
  { destruct (prepare_front args r1)
      as (_ & _ & _ & _ & _ & [(_ & _ & (_ & D & _)) | (_ & D & _)]);
      exact D. }
  rewrite !documents_app, Dv, Dp. cbn [app].
  unfold execute. rewrite Hh, Hc.
  destruct (chainedLoop_run H this _ _ _ _ pre [e] _ _ Hrun) as (Lc & _).
  destruct (chainedLoop_run_events args' prepared (pre ++ [e]) r2 pre [e]
              _ _ Hrun) as (front & Le & Df).
  rewrite Lc, Le, documents_app, Df. cbn [app chainedLoop].
  destruct (chainedStep_front e st args' prepared (pre ++ [e]) r2)
    as (Ds & _).
  pose proof (chainedStep_spec H this _ _ _ _ _ _ _ Hstep) as [G _].
  rewrite (events_bind _ _ _ Hstep), documents_app, Ds. run Hstep.
  cbn [app chainedLoop chainNext chainedResponse].
  assert (S : mSilent cr = stepSilent e) by (now rewrite (grown_silent _ _ G)).
  assert (F : mResponseFormat cr
              = if ToBoolean (assoc (JSON_OPTION H) (options args'))
                then "json" else "default")
    by (now rewrite (grown_format _ _ G)).
  rewrite events_bind_gen, completion_bind_gen, documents_app.
  rewrite <- S.
  destruct (finishResponse_cases cr)
    as [(S' & F' & E) | [(M & E) | (_ & N1 & N2 & _)]].
  - rewrite E. cbn. rewrite S'.
    destruct (ToBoolean (assoc (JSON_OPTION H) (options args')));
      [auto | discriminate (eq_trans (eq_sym F') F)].
  - rewrite E. cbn. split; [reflexivity|].
    destruct M as [-> | M]; [reflexivity|].
    destruct (ToBoolean (assoc (JSON_OPTION H) (options args')));
      [discriminate (eq_trans (eq_sym M) F) | now rewrite andb_false_r].
  - destruct (ToBoolean (assoc (JSON_OPTION H) (options args')));
      contradiction.
Qed.

Lemma apply_actions_writes (l : list ResponseAction) (r : CommandResponse)
  (c : Chunk) :
  mSilent r = false ->
  In c (logged_stdout l) ->
  In (WriteStdout c) (events (apply_actions r l)).
Proof.
  revert r. induction l as [|a l IH]; intros r S Hin; [contradiction|].
  rewrite (logged_stdout_cons a l) in Hin. apply in_app_or in Hin.
  cbn [apply_actions]. rewrite events_bind_gen. apply in_or_app.
  destruct Hin as [Hin | Hin].
  - left. destruct a; try contradiction. cbn in Hin.
    destruct Hin as [<- | []]. cbn. rewrite S. now left.
  - right.
    assert (Ha : exists r1, completion (apply_action r a) = Normal r1
                            /\ mSilent r1 = false)
      by (destruct a; cbn; eauto).
    destruct Ha as (r1 & -> & S1). now apply IH.
Qed.

Lemma chainedLoop_run_In (args : Arguments) (prepared : ICommandPrepared)
  (all : list IChainedHandlerEntry) (response : CommandResponse)
  (pre rest : list IChainedHandlerEntry) (st st' : ChainState) (x : Event) :
  ChainRun H this args prepared all response pre st st' ->
  In x (events (chainedLoop H this rest st' args prepared all response)) ->
  In x (events (chainedLoop H this (pre ++ rest) st args prepared all
                  response)).
Proof.
  intros R Hin.
  destruct (chainedLoop_run_events args prepared all response pre rest _ _ R)
    as (front & -> & _).
  apply in_or_app. now right.
Qed.

(** X13. The output of a step of a chain is governed by the step, not
    by the invocation: in the default format (the JSON option of the
    arguments is not set), what the handler of a step that is not marked
    silent logs on stdout is written to the stream, whether or not the
    invocation itself is silent. *)
Theorem step_output_ignores_invocation_silence
  (params : option IInvokeCommandParms)
  (p : IInvokeCommandParms) (args args' a : Arguments) (u : list string)
  (r1 r2 : CommandResponse) (v : ICommandValidatorResponse)
  (prepared : ICommandPrepared) (pre post : list IChainedHandlerEntry)
  (e : IChainedHandlerEntry) (st : ChainState) (hd : ICommandHandler)
  (f : IHandlerParameters -> Interaction unit) (acts : list ResponseAction)
  (o : Completion unit) (c : Chunk) :
  completion (ensureParameters this params) = Normal (p, args, u) ->
  completion (validate H this args (succeeded (constructResponseObject p)))
  = Normal (r1, Normal v) ->
  valid v = true ->
  completion (prepare H this r1 args) = Normal (r2, Normal (args', prepared)) ->
  handler (definition this) = None ->
  chainedHandlers (definition this) = Some (pre ++ e :: post) ->
  ChainRun H this args' prepared (pre ++ e :: post) r2 pre chainStart st ->
  require_default H (chained_handler e) = Normal hd ->
  process hd = Some f ->
  getArguments H (mCommandRootName this) (pre ++ e :: post)
    (chainedHandlerIndex st) (chainedResponses st) args' = Normal a ->
  f {| hp_profiles := profiles prepared; hp_arguments := a;
       hp_definition := definition this;
       hp_fullDefinition := fullDefinition this; isChained := true |}
  = (acts, o) ->
  stepSilent e = false ->
  ToBoolean (assoc (JSON_OPTION H) (options args')) = false ->
  In c (logged_stdout acts) ->
  In (WriteStdout c) (events (invoke H this params)).
Proof.
  intros Hpre Hval Hv Hprep Hh Hc Hrun Hreq Hp Ha Hf Hs Hj Hin.
  rewrite (invoke_execute_events _ _ _ _ _ _ _ _ _ Hpre Hval Hv Hprep).
  apply in_or_app. right. apply in_or_app. right.
  unfold execute. rewrite Hh, Hc.
  apply (chainedLoop_run_In _ _ _ _ _ _ _ _ _ Hrun).
  cbn [chainedLoop]. rewrite events_bind_gen. apply in_or_app. left.
  unfold chainedStep. rewrite (attemptHandlerLoad_ok _ _ _ _ _ Hreq).
  rewrite events_bind_pair. cbv beta iota zeta. rewrite Ha.
  apply in_or_app. right. rewrite events_bind_gen. apply in_or_app. left.
  unfold call_process. rewrite Hp, events_emit. right.
  unfold interact. rewrite events_bind_gen. apply in_or_app. left.
  rewrite Hf. cbn [fst]. apply apply_actions_writes; [exact Hs | exact Hin].
Qed.

(** ** What [invoke] rejects with *)

Ltac console :=
  match goal with
  | |- context [completion (bind (console_errorHeader ?r ?m) ?k)] =>
      rewrite (completion_bind (console_errorHeader r m) k _ eq_refl)
  | |- context [completion (bind (console_error ?r ?c) ?k)] =>
      rewrite (completion_bind (console_error r c) k _ eq_refl)
  | |- context [completion (bind (lift (Normal ?a)) ?k)] =>
      rewrite (completion_bind (lift (Normal a)) k a eq_refl)
  | |- context [completion (bind (ret ?a) ?k)] =>
      rewrite (completion_bind (ret a) k a eq_refl)
  | |- context [bind (bind _ _) _] => rewrite bind_assoc
  end; cbv beta iota zeta.

Lemma get_prop_throws (v : JsValue) (key : string) (e : JsValue) :
  get_prop v key = Throw e -> is_ImperativeError e = false.
Proof.
  destruct v; cbn;
    repeat match goal with
           | |- context [if ?b then _ else _] => destruct b
           end;
    intros X; try discriminate X; injection X as <-; reflexivity.
Qed.

Lemma Settled_returns (m : Eff (option ICommandResponse)) :
  (exists json, completion m = Normal (Some json)) -> Settled m.
Proof. intros X. now left. Qed.

Lemma Settled_bind {A : Type} (op : Eff A)
  (k : A -> Eff (option ICommandResponse)) (a : A) :
  completion op = Normal a -> Settled (k a) -> Settled (bind op k).
Proof. intros E. unfold Settled. now rewrite (completion_bind _ _ _ E). Qed.

Lemma Settled_finish (r : CommandResponse) :
  format_ok r ->
  Settled (json <- finishResponse (Some r) ;; ret (Some json)).
Proof. intros F. left. eexists. now apply finish_completion. Qed.

Lemma Settled_lift_throws {A : Type} (v x : JsValue) (key : string)
  (k : A -> Eff (option ICommandResponse)) (c : Completion A) :
  get_prop v key = Throw x ->
  c = Throw x ->
  Settled (bind (lift c) k).
Proof.
  intros G ->. right. exists x. split; [reflexivity|].
  exact (get_prop_throws _ _ _ G).
Qed.

Lemma toString_method_throws (v e : JsValue) :
  toString_method v = Throw e -> is_ImperativeError e = false.
Proof.
  destruct v; cbn; intros X; try discriminate X; injection X as <-;
    reflexivity.
Qed.

Lemma onValidatorError_settled (e : JsValue) (r : CommandResponse) :
  format_ok r -> Settled (onValidatorError e r).
Proof.
  intros F. unfold onValidatorError.
  destruct (get_prop e "message") as [m|x] eqn:Hm.
  - unfold Settled. console. unfold console_error_of.
    destruct (toString_method m) as [text|x] eqn:T.
    + left.
      cbn [completion bind snd fst console_errorHeader console_error lift].
      eexists. apply finish_completion. exact F.
    + right. exists x. split; [reflexivity|].
      exact (toString_method_throws _ _ T).
  - eapply Settled_lift_throws; eauto.
Qed.

(** A load that throws: the response is marked and the load gives no
    handler, or the report of the failure itself throws. *)
Lemma attemptHandlerLoad_throw_cases (r : CommandResponse) (path : string)
  (e : JsValue) :
  require_default H path = Throw e ->
  (exists r',
      completion (attemptHandlerLoad H this r path) = Normal (r', None)
      /\ mResponseFormat r' = mResponseFormat r)
  \/ (exists x,
         completion (attemptHandlerLoad H this r path) = Throw x
         /\ is_ImperativeError x = false).
Proof.
  intros Hr. unfold attemptHandlerLoad. rewrite Hr, completion_emit.
  destruct (get_prop e "message") as [m|x] eqn:Hm.
  - rewrite (completion_bind (lift (Normal m)) _ _ eq_refl).
    cbv beta zeta. unfold console_error_of.
    destruct (toString_method m) as [text|x] eqn:T.
    + left. cbn. eauto.
    + right. exists x. split; [reflexivity|].
      exact (toString_method_throws _ _ T).
  - right. exists x. split; [reflexivity|].
    exact (get_prop_throws _ _ _ Hm).
Qed.

Lemma onPrepareError_settled (e : JsValue) (r : CommandResponse) :
  format_ok r -> Settled (onPrepareError e r).
Proof.
  intros F. unfold onPrepareError.
  destruct (get_prop e "message") as [m|x] eqn:Hm;
    [|eapply Settled_lift_throws; eauto].
  destruct (get_prop e "details") as [d|x] eqn:Hd.
  - destruct (get_prop d "additionalDetails") as [ad|x] eqn:Ha.
    + left. do 4 console. rewrite Ha. console.
      destruct ad; repeat console;
        (eexists; apply finish_completion; exact F).
    + right. exists x. split; [|exact (get_prop_throws _ _ _ Ha)].
      do 4 console. rewrite Ha. reflexivity.
  - right. exists x. split; [|exact (get_prop_throws _ _ _ Hd)].
    do 3 console. reflexivity.
Qed.

Lemma invokeHandler_settled (h : string) (args : Arguments)
  (prepared : ICommandPrepared) (r : CommandResponse) :
  format_ok r -> Settled (invokeHandler H this h args prepared r).
Proof.
  intros F.
  destruct (require_default H h) as [hd|e] eqn:Hreq.
  - apply Settled_returns. apply invokeHandler_returns; [|exact F].
    intros e X. rewrite Hreq in X. discriminate X.
  - unfold invokeHandler.
    destruct (attemptHandlerLoad_throw_cases r h e Hreq)
      as [(r' & E & F') | (x & E & Ix)].
    + apply (Settled_bind _ _ _ E). apply Settled_finish.
      unfold format_ok. now rewrite F'.
    + right. exists x. split; [|exact Ix].
      now apply completion_bind_throw.
Qed.

Lemma chainedLoop_settled (args : Arguments) (prepared : ICommandPrepared)
  (all : list IChainedHandlerEntry) (response : CommandResponse)
  (rem : list IChainedHandlerEntry) :
  format_ok response ->
  forall st,
    (forall cr, chainedResponse st = Some cr -> format_ok cr) ->
    Settled (chainedLoop H this rem st args prepared all response).
Proof.
  intros F. induction rem as [|e rest IH]; intros st Hst.
  - cbn [chainedLoop]. destruct (chainedResponse st) as [cr|] eqn:E.
    + apply Settled_finish. now apply Hst.
    + right. eexists. split; reflexivity.
  - cbn [chainedLoop].
    destruct (require_default H (chained_handler e)) as [hd|x] eqn:Hreq.
    + destruct (chainedStep_total e st args prepared all response)
        as (o & Eo & Ho).
      { intros y X. rewrite Hreq in X. discriminate X. }
      pose proof (chainedStep_spec H this _ _ _ _ _ _ _ Eo) as Sp.
      destruct (newChainedResponse_spec H e args st) as (Fn & _).
      apply (Settled_bind _ _ _ Eo). destruct o as [r' | cr pe | cr].
      * apply Settled_finish. unfold format_ok. rewrite Ho. exact F.
      * destruct (handleHandlerError_spec pe cr (chained_handler e))
          as (r3 & E3 & _ & F3 & _).
        apply (Settled_bind _ _ _ E3). apply Settled_finish.
        unfold format_ok. rewrite F3. exact (grown_format_ok _ _ Sp Fn).
      * apply IH. cbn [chainNext chainedResponse]. intros cr' X.
        injection X as <-. exact (grown_format_ok _ _ (proj1 Sp) Fn).
    + destruct (attemptHandlerLoad_throw_cases response (chained_handler e)
                  x Hreq)
        as [(r' & E & F') | (y & E & Iy)].
      * assert (Es : completion
                       (chainedStep H this e st args prepared all response)
                     = Normal (LoadFailed r'))
          by (unfold chainedStep; run E; reflexivity).
        apply (Settled_bind _ _ _ Es). apply Settled_finish.
        unfold format_ok. now rewrite F'.
      * right. exists y. split; [|exact Iy].
        apply completion_bind_throw. unfold chainedStep.
        now apply completion_bind_throw.
Qed.

(** X26. [invoke] rejects with an [ImperativeError] exactly when its
    pre-check fails. Once the pre-check has passed, the [ImperativeError]s
    thrown by the validator, the stdin reader, the profile loader, the
    module loader and the handlers all end up in the response, and
    [invoke] either returns a snapshot or throws a value that is not an
    [ImperativeError]. *)
Theorem imperative_rejection_iff_precheck
  (params : option IInvokeCommandParms) :
  (exists v, completion (invoke H this params) = Throw v
             /\ is_ImperativeError v = true)
  <-> wellFormed this params = false.
Proof.
  split.
  - intros (v & Ev & Iv).
    destruct (wellFormed this params) eqn:W; [exfalso | reflexivity].
    destruct (wellFormed_passes _ W) as (p & args & u & Hpre).
    assert (S : Settled (invoke H this params)).
    { destruct (initial_format _ _ _ _ _ Hpre) as [F0 _].
      destruct (validate_grown H this args
                  (succeeded (constructResponseObject p)))
        as (r1 & E1 & G1 & _).
      pose proof (grown_format_ok _ _ G1 F0) as F1.
      unfold invoke. apply (Settled_bind _ _ _ Hpre).
      apply (Settled_bind _ _ _ E1).
      destruct (snd (SyntaxValidator_validate H (mDefinition this)
                       (mFullDefinition this) args)) as [vr|e].
      2: { now apply onValidatorError_settled. }
      destruct (valid vr); cbn [negb].
      2: { left. now apply onSyntaxInvalid_returns. }
      destruct (prepare_grown H this args r1) as (r2 & o & E2 & G2 & _).
      pose proof (grown_format_ok _ _ G2 F1) as F2.
      apply (Settled_bind _ _ _ E2). destruct o as [[args' prepared]|e].
      - unfold execute.
        destruct (handler (definition this)) as [h|] eqn:Hh.
        + now apply invokeHandler_settled.
        + destruct (chainedHandlers (definition this)) as [chain|] eqn:Hc.
          * apply chainedLoop_settled; [exact F2|]. intros cr X.
            discriminate X.
          * apply ensureParameters_inv in Hpre.
            destruct Hpre as (_ & _ & _ & Hn & _). now destruct (Hn Hc).
      - now apply onPrepareError_settled. }
    destruct S as [(json & Ej) | (x & Ex & Ix)]; congruence.
  - intros W. destruct (wellFormed_fails _ W) as (v & E). exists v. split.
    + unfold invoke. now apply completion_bind_throw.
    + eapply ensureParameters_throws; eauto.
Qed.

End Blocks.

(** ** The help of a command *)

(** X14. [help] on a response: the help text becomes the data of the
    response, is logged once on stdout after what the response already
    holds, and the message names the command; [help] leaves the success
    flag and the error of the response as they were.  The snapshot is
    written as a JSON document exactly when the response is not silent
    and its format is "json"; in the default format the text is written
    to the stream unless the response is silent, and nothing else is. *)
Theorem help_response (this : Instance) (r : CommandResponse) (text : string) :
  buildHelp (mHelpGenerator this) = Normal text ->
  format_ok r ->
  exists json,
    completion (help this (Some r)) = Normal json
    /\ data json = JsString text
    /\ stdout json = mStdout r ++ [Raw text]
    /\ stderr json = mStderr r
    /\ message json
       = ("The help was constructed for command: "
            ++ name (mDefinition (processor this)) ++ ".")%string
    /\ success json = mSucceeded r
    /\ error json = mError r
    /\ documents (events (help this (Some r)))
       = (if negb (mSilent r) && String.eqb (mResponseFormat r) "json"
          then [json] else [])
    /\ (mResponseFormat r = "default" ->
        events (help this (Some r))
        = if mSilent r then [] else [WriteStdout (Raw text)]).
Proof.
  intros Hb F. unfold help. rewrite Hb.
  cbn [ImperativeExpect_toNotBeNullOrUndefined].
  rewrite (completion_bind (ret r) _ r eq_refl).
  rewrite (events_bind (ret r) _ r eq_refl). cbv beta iota zeta.
  rewrite (completion_bind (lift (Normal text)) _ text eq_refl).
  rewrite (events_bind (lift (Normal text)) _ text eq_refl).
  cbv beta iota zeta.
  rewrite (completion_bind (console_log _ _) _ _ eq_refl).
  rewrite (events_bind (console_log _ _) _ _ eq_refl).
  cbv beta iota zeta.
  unfold finishResponse, console_log, bufferStdout, setMessage, setObj.
  cbn [mSilent mResponseFormat events completion fst snd ret lift app].
  eexists. split.
  - destruct F as [-> | ->]; destruct (mSilent r); reflexivity.
  - cbn. do 6 (split; [reflexivity|]). split.
    + destruct F as [-> | ->]; destruct (mSilent r); reflexivity.
    + intros ->. destruct (mSilent r); reflexivity.
Qed.

(** X15. [help] throws in three cases and no other: no response is
    given; the help generator throws; the response is not silent and its
    format is neither "json" nor "default". *)
Theorem help_throws_exactly (this : Instance) (response : option CommandResponse) :
  (exists v, completion (help this response) = Throw v)
  <-> response = None
      \/ (exists v, buildHelp (mHelpGenerator this) = Throw v)
      \/ (exists r, response = Some r /\ mSilent r = false
                    /\ mResponseFormat r <> "json"
                    /\ mResponseFormat r <> "default").
Proof.
  unfold help. destruct response as [r|].
  2: { split; [intros _; now left | intros _; eexists; reflexivity]. }
  cbn [ImperativeExpect_toNotBeNullOrUndefined].
  rewrite (completion_bind (ret r) _ r eq_refl). cbv beta iota zeta.
  destruct (buildHelp (mHelpGenerator this)) as [text|e].
  2: { split; [intros _; right; left; eauto | intros _; eexists; reflexivity]. }
  rewrite (completion_bind (lift (Normal text)) _ text eq_refl).
  cbv beta iota zeta.
  rewrite (completion_bind (console_log _ _) _ _ eq_refl).
  cbv beta iota zeta.
  match goal with
  | |- context [finishResponse (Some ?x)] =>
      destruct (finishResponse_cases x)
        as [(S & F & E) | [(M & E) | (S & N1 & N2 & v & E & _)]];
      rewrite E; cbn in *
  end.
  - split; [intros [v Hv]; discriminate Hv|].
    intros [X | [[v X] | (r' & X & _ & N & _)]]; try discriminate X.
    injection X as <-. contradiction.
  - split; [intros [v Hv]; discriminate Hv|].
    intros [X | [[v X] | (r' & X & S' & N1 & N2)]]; try discriminate X.
    injection X as <-. destruct M; congruence.
  - split; [|eauto]. intros _. right; right. exists r. auto.
Qed.

(** ** The constructor *)

Lemma bind_ret {A B : Type} (a : A) (k : A -> Eff B) : bind (ret a) k = k a.
Proof. unfold bind, ret. cbn. now destruct (k a). Qed.

Lemma expect_key_cases (value : option string) (m : string) :
  (exists s, value = Some s /\ trim s <> EmptyString
             /\ ImperativeExpect_keyToBeDefinedAndNonBlank value m = ret s)
  \/ (match value with
      | Some s => trim s = EmptyString
      | None => True
      end
      /\ ImperativeExpect_keyToBeDefinedAndNonBlank value m
         = throw (ImperativeError_of_msg m)).
Proof.
  unfold ImperativeExpect_keyToBeDefinedAndNonBlank.
  destruct value as [s|]; [|now right].
  destruct (String.eqb (trim s) EmptyString) eqn:E.
  - right. apply String.eqb_eq in E. auto.
  - left. apply String.eqb_neq in E. eauto.
Qed.

Lemma expect_key_returns (value : option string) (m : string) (s : string) :
  completion (ImperativeExpect_keyToBeDefinedAndNonBlank value m) = Normal s ->
  value = Some s /\ String.eqb (trim s) EmptyString = false.
Proof.
  unfold ImperativeExpect_keyToBeDefinedAndNonBlank.
  destruct value as [x|]; [|discriminate].
  destruct (String.eqb (trim x) EmptyString) eqn:E; [discriminate|].
  intros X. injection X as <-. auto.
Qed.

(** What a constructed processor holds. *)
Lemma new_CommandProcessor_returns (params : option ICommandProcessorParms)
  (inst : Instance) :
  completion (new_CommandProcessor params) = Normal inst ->
  exists ps,
    params = Some ps
    /\ cp_definition ps = Some (mDefinition (processor inst))
    /\ mFullDefinition (processor inst)
       = match cp_fullDefinition ps with
         | Some full => full
         | None => mDefinition (processor inst)
         end
    /\ cp_helpGenerator ps = Some (mHelpGenerator inst)
    /\ cp_rootCommandName ps = Some (mCommandRootName (processor inst))
    /\ String.eqb (trim (mCommandRootName (processor inst))) EmptyString = false
    /\ (type (mDefinition (processor inst)) = "command" ->
        chainedHandlers (mDefinition (processor inst)) = None ->
        exists h, handler (mDefinition (processor inst)) = Some h
                  /\ String.eqb (trim h) EmptyString = false).
Proof.
  unfold new_CommandProcessor.
  destruct params as [ps|]; [|discriminate].
  cbn [ImperativeExpect_toNotBeNullOrUndefined].
  rewrite (completion_bind (ret ps) _ ps eq_refl). cbv beta iota zeta.
  destruct (cp_definition ps) as [d|] eqn:Ed; [|discriminate].
  rewrite (completion_bind (ret d) _ d eq_refl). cbv beta iota zeta.
  destruct (cp_helpGenerator ps) as [g|] eqn:Eg; [|discriminate].
  rewrite (completion_bind (ret g) _ g eq_refl). cbv beta iota zeta.
  destruct (cp_profileManagerFactory ps) as [pf|] eqn:Ef; [|discriminate].
  rewrite (completion_bind (ret pf) _ pf eq_refl). cbv beta iota zeta.
  rewrite completion_bind_gen.
  match goal with
  | |- context [completion (if ?c then ?a else ?b)] =>
      destruct (completion (if c then a else b)) as [[]|v] eqn:Ec;
      [|discriminate]
  end.
  rewrite completion_bind_gen.
  destruct (completion
              (ImperativeExpect_keyToBeDefinedAndNonBlank
                 (cp_rootCommandName ps) _)) as [root|v] eqn:Er;
    [|discriminate].
  apply expect_key_returns in Er. destruct Er as [Er Et].
  intros X. injection X as <-. cbn.
  exists ps. do 5 (split; [auto|]). split; [exact Et|].
  intros Ty Ch. rewrite Ty, Ch, String.eqb_refl in Ec.
  cbn [andb] in Ec. rewrite completion_bind_gen in Ec.
  destruct (completion
              (ImperativeExpect_keyToBeDefinedAndNonBlank (handler d) _))
    as [h|v] eqn:Eh; [|discriminate].
  apply expect_key_returns in Eh. eauto.
Qed.

(** X16. The handler check of the constructor carries over to [invoke]:
    on a processor built by the constructor for a definition of type
    "command", the pre-check of [invoke] can only fail on the parameters
    of the invocation, never on the definition. *)
Theorem constructed_command_is_invocable
  (params : option ICommandProcessorParms) (inst : Instance)
  (p : IInvokeCommandParms) (args : Arguments) (u : list string) :
  completion (new_CommandProcessor params) = Normal inst ->
  type (mDefinition (processor inst)) = "command" ->
  arguments p = Some args ->
  underscore args = Some u ->
  formatOf p = "default" \/ formatOf p = "json" ->
  wellFormed (processor inst) (Some p) = true.
Proof.
  intros Hc Ty Ha Hu Hf.
  destruct (new_CommandProcessor_returns _ _ Hc)
    as (ps & _ & _ & _ & _ & _ & _ & Hh).
  unfold wellFormed. rewrite Ha, Hu.
  assert (Ef : existsb (String.eqb (formatOf p)) ["default"; "json"] = true)
    by (destruct Hf as [-> | ->]; reflexivity).
  rewrite Ef. cbn [andb].
  destruct (chainedHandlers (mDefinition (processor inst))) eqn:Ech;
    [reflexivity|].
  destruct (Hh Ty eq_refl) as (h & -> & ->). reflexivity.
Qed.

(** X17. The constructor throws in exactly these cases: no parameters,
    no definition, no help generator, no profile manager factory, a
    definition of type "command" without chained handlers whose handler
    is missing or blank, a root command name that is missing or blank. A
    definition of another type needs no handler. What it throws is an
    [ImperativeError]. *)
Theorem constructor_rejects_exactly (params : option ICommandProcessorParms) :
  (exists v, new_CommandProcessor params = ([], Throw v)
             /\ is_ImperativeError v = true)
  <-> params = None
      \/ exists ps,
           params = Some ps
           /\ (cp_definition ps = None
               \/ cp_helpGenerator ps = None
               \/ cp_profileManagerFactory ps = None
               \/ (exists d, cp_definition ps = Some d
                             /\ type d = "command"
                             /\ chainedHandlers d = None
                             /\ match handler d with
                                | Some h => trim h = EmptyString
                                | None => True
                                end)
               \/ match cp_rootCommandName ps with
                  | Some root => trim root = EmptyString
                  | None => True
                  end).
Proof.
  unfold new_CommandProcessor.
  destruct params as [ps|].
  2: { split; [now left | intros _; eexists; split; reflexivity]. }
  assert (Some_inj : forall q, Some ps = Some q -> ps = q)
    by (intros q X; now injection X).
  cbn [ImperativeExpect_toNotBeNullOrUndefined]. rewrite bind_ret.
  destruct (cp_definition ps) as [d|] eqn:Ed.
  2: { split; [intros _; right; exists ps; auto
              | intros _; eexists; split; reflexivity]. }
  cbn [ImperativeExpect_toNotBeNullOrUndefined]. rewrite bind_ret.
  destruct (cp_helpGenerator ps) as [g|] eqn:Eg.
  2: { split; [intros _; right; exists ps; auto
              | intros _; eexists; split; reflexivity]. }
  cbn [ImperativeExpect_toNotBeNullOrUndefined]. rewrite bind_ret.
  destruct (cp_profileManagerFactory ps) as [pf|] eqn:Ef.
  2: { split; [intros _; right; exists ps; auto
              | intros _; eexists; split; reflexivity]. }
  cbn [ImperativeExpect_toNotBeNullOrUndefined]. rewrite bind_ret.
  assert (Hd : (String.eqb (type d) "command"
                && match chainedHandlers d with
                   | None => true
                   | Some _ => false
                   end = true)
               <-> type d = "command" /\ chainedHandlers d = None).
  { rewrite andb_true_iff, String.eqb_eq.
    destruct (chainedHandlers d); intuition congruence. }
  destruct (String.eqb (type d) "command"
            && match chainedHandlers d with
               | None => true
               | Some _ => false
               end) eqn:Ec.
  - destruct (proj1 Hd eq_refl) as [Ty Ch].
    destruct (expect_key_cases (handler d)
                (ERROR_TAG ++ " " ++ "The definition supplied is of type "
                   ++ dq ++ "command" ++ dq ++ ", "
                   ++ "but no handler was specified."))
      as [(h & Eh & Nh & ->) | (Bh & ->)].
    + rewrite !bind_ret.
      destruct (expect_key_cases (cp_rootCommandName ps)
                  (ERROR_TAG ++ " No root command supplied."))
        as [(root & Er & Nr & ->) | (Br & ->)].
      * rewrite bind_ret. split.
        -- intros (v & X & _). discriminate X.
        -- intros [X | (q & Q & X)]; [discriminate X|].
           apply Some_inj in Q. subst q. exfalso.
           destruct X as [X | [X | [X | [(d' & D & _ & _ & Hh) | X]]]];
             try congruence.
           ++ rewrite Ed in D. injection D as <-. rewrite Eh in Hh.
              contradiction.
           ++ rewrite Er in X. contradiction.
      * split; [|intros _; eexists; split; reflexivity].
        intros _. right. exists ps. split; [reflexivity|]. do 4 right.
        exact Br.
    + split; [|intros _; eexists; split; reflexivity].
      intros _. right. exists ps. split; [reflexivity|]. do 3 right. left.
      exists d. auto.
  - rewrite bind_ret.
    destruct (expect_key_cases (cp_rootCommandName ps)
                (ERROR_TAG ++ " No root command supplied."))
      as [(root & Er & Nr & ->) | (Br & ->)].
    + rewrite bind_ret. split.
      * intros (v & X & _). discriminate X.
      * intros [X | (q & Q & X)]; [discriminate X|].
        apply Some_inj in Q. subst q. exfalso.
        destruct X as [X | [X | [X | [(d' & D & Ty & Ch & _) | X]]]];
          try congruence.
        -- rewrite Ed in D. injection D as <-.
           discriminate (proj2 Hd (conj Ty Ch)).
        -- rewrite Er in X. contradiction.
    + split; [|intros _; eexists; split; reflexivity].
      intros _. right. exists ps. split; [reflexivity|]. do 4 right.
      exact Br.
Qed.

End CmdMoreFacts.

(* ================================================================== *)
(** * Further properties of the credential manager *)
(* ================================================================== *)

Module CredentialMoreFacts.

Import CredentialManager CredentialMore.

Lemma encode_sextet_alphabet (n : N) :
  base64_char (Buffer.encode_sextet n) = true.
Proof.
  destruct (N.ltb_spec n 64) as [Hn | Hn].
  - assert (T : forallb (fun k => base64_char (Buffer.encode_sextet k))
                  (map N.of_nat (seq 0 64)) = true) by (vm_compute; reflexivity).
    rewrite forallb_forall in T. apply T.
    rewrite <- (N2Nat.id n). apply in_map, in_seq. lia.
  - unfold Buffer.encode_sextet.
    destruct (N.ltb_spec n 26); [lia|].
    destruct (N.ltb_spec n 52); [lia|].
    destruct (N.ltb_spec n 62); [lia|].
    destruct (N.eqb_spec n 62); [lia|]. reflexivity.
Qed.

Lemma encode_alphabet (b : Buffer.Buffer) :
  Forall (fun c => base64_char c = true) (Buffer.encode b).
Proof.
  induction b as [|x|x y|x y z l IH] using BufferFacts.list_ind3;
    cbn [Buffer.encode];
    repeat (apply Forall_cons; [first [apply encode_sextet_alphabet
                                      | reflexivity]|]);
    auto.
Qed.

Lemma encode_length (b : Buffer.Buffer) :
  List.length (Buffer.encode b) = 4 * ((List.length b + 2) / 3).
Proof.
  induction b as [|x|x y|x y z l IH] using BufferFacts.list_ind3;
    try reflexivity.
  cbn [Buffer.encode List.length]. rewrite IH.
  replace (S (S (S (List.length l))) + 2) with (List.length l + 2 + 1 * 3)
    by lia.
  rewrite Nat.div_add by discriminate. lia.
Qed.

Lemma length_string_of_list_ascii (l : list ascii) :
  String.length (string_of_list_ascii l) = List.length l.
Proof. induction l as [|c l IH]; cbn; congruence. Qed.

Lemma length_list_ascii_of_string (s : string) :
  List.length (list_ascii_of_string s) = String.length s.
Proof. induction s as [|c s IH]; cbn; congruence. Qed.

(** X18. The credential [save] hands to the backing store for a secret
    that is not empty is a base64 string: made of the letters, the
    digits, '+', '/' and '=' only, four characters for every three bytes
    of the secret, rounded up; it is never the secret itself; decoding it
    gives the bytes [Buffer.from] made of the secret, and these are the
    secret itself when it has no unpaired surrogate. *)
Theorem save_credential_shape {Store : Type} `{Backing Store}
  (account s : string) (st : Store) :
  s <> EmptyString ->
  exists c : SecureCredential,
    save account (Str s) st = saveCredentials account c st
    /\ String.length c = 4 * ((String.length s + 2) / 3)
    /\ Forall (fun ch => base64_char ch = true) (list_ascii_of_string c)
    /\ c <> s
    /\ Buffer.from_base64 c = Buffer.from s
    /\ (Buffer.isWellFormed s = true ->
        Buffer.toString (Buffer.from_base64 c) = s).
Proof.
  intros Hs. exists (Buffer.toString_base64 (Buffer.from s)).
  assert (L : String.length (Buffer.toString_base64 (Buffer.from s))
              = 4 * ((String.length s + 2) / 3)).
  { unfold Buffer.toString_base64, Buffer.from.
    rewrite length_string_of_list_ascii, encode_length.
    rewrite (BufferFacts.encode_utf8_length _ _ (Nat.le_refl _)).
    now rewrite length_list_ascii_of_string. }
  split; [|split; [exact L|split; [|split; [|split]]]].
  - unfold save, isNullOrUndefined, notEmptyString.
    destruct (String.eqb_spec s EmptyString) as [E | _]; [contradiction|].
    reflexivity.
  - unfold Buffer.toString_base64.
    rewrite list_ascii_of_string_of_list_ascii. apply encode_alphabet.
  - intros E. rewrite E in L.
    assert (0 < String.length s) by (destruct s; [contradiction | cbn; lia]).
    pose proof (Nat.div_mod_eq (String.length s + 2) 3) as D.
    pose proof (Nat.mod_upper_bound (String.length s + 2) 3) as B.
    lia.
  - apply BufferFacts.base64_bytes_roundtrip.
  - apply BufferFacts.base64_roundtrip.
Qed.

(** A secret of six bytes is stored as eight characters. *)
Lemma save_credential_shape_witness :
  exists c : SecureCredential,
    save "zosmf_prod_pass" (Str "s3cret") ([] : MemoryStore)
    = saveCredentials "zosmf_prod_pass" c []
    /\ String.length c = 8
    /\ c <> "s3cret"%string
    /\ Buffer.toString (Buffer.from_base64 c) = "s3cret"%string.
Proof.
  edestruct (save_credential_shape "zosmf_prod_pass" "s3cret"
               ([] : MemoryStore))
    as (c & Hs & Hl & _ & Hn & _ & Hd).
  - discriminate.
  - exists c. repeat split; try assumption. apply Hd. reflexivity.
Defined.

End CredentialMoreFacts.

(* ================================================================== *)
(** * Properties of [Imperative] *)
(* ================================================================== *)

Module ImperativeFacts.

Import Imperative.

(** ** Runs *)

Ltac ok := first [ eassumption | reflexivity ].

Lemma Runs_ret {A : Type} (a : A) (s : Statics) : Runs (ret a) s [] s a.
Proof. reflexivity. Qed.

Lemma Runs_get (s : Statics) : Runs get s [] s s.
Proof. reflexivity. Qed.

Lemma Runs_modify (f : Statics -> Statics) (s : Statics) :
  Runs (modify f) s [] (f s) tt.
Proof. reflexivity. Qed.

Lemma Runs_call {A : Type} (c : Call) (r : Completion A) (a : A)
  (s : Statics) :
  r = Normal a -> Runs (call c r) s [c] s a.
Proof. intros ->. reflexivity. Qed.

Lemma Runs_lift {A : Type} (r : Completion A) (a : A) (s : Statics) :
  r = Normal a -> Runs (lift r) s [] s a.
Proof. intros ->. reflexivity. Qed.

Lemma Runs_bind {A B : Type} (m : M A) (k : A -> M B) (s s' s'' : Statics)
  (t t' : list Call) (a : A) (b : B) :
  Runs m s t s' a -> Runs (k a) s' t' s'' b ->
  Runs (bind m k) s (t ++ t') s'' b.
Proof. unfold Runs, bind. intros -> ->. reflexivity. Qed.

Lemma Runs_bind_nil {A B : Type} (m : M A) (k : A -> M B)
  (s s' s'' : Statics) (a : A) (b : B) :
  Runs m s [] s' a -> Runs (k a) s' [] s'' b -> Runs (bind m k) s [] s'' b.
Proof. apply (Runs_bind m k s s' s'' [] []). Qed.

Lemma bind_throws {A B : Type} (m : M A) (k : A -> M B) (s s' : Statics)
  (t : list Call) (v : JsValue) :
  m s = ((t, s'), Throw v) -> bind m k s = ((t, s'), Throw v).
Proof. unfold bind. intros ->. reflexivity. Qed.

Lemma bind_runs {A B : Type} (m : M A) (k : A -> M B) (s s' : Statics)
  (t : list Call) (a : A) :
  Runs m s t s' a ->
  bind m k s
  = ((t ++ calls (k a s'), statics (k a s')), completion (k a s')).
Proof.
  unfold Runs, bind. intros ->. destruct (k a s') as [[t' s''] c]. reflexivity.
Qed.

Lemma Runs_the_loadedConfig (field : string) (s : Statics)
  (c : IImperativeConfig) :
  loadedConfig s = Some c -> Runs (the_loadedConfig field) s [] s c.
Proof.
  intros E. unfold the_loadedConfig.
  change [] with (@nil Call ++ []).
  eapply Runs_bind; [apply Runs_get|]. rewrite E. apply Runs_ret.
Qed.

Lemma Runs_log (method : string) (s : Statics) (l : Logger) :
  mLog s = Some l -> Runs (log method) s [] s tt.
Proof.
  intros E. unfold log. change [] with (@nil Call ++ []).
  eapply Runs_bind; [apply Runs_get|]. rewrite E. apply Runs_ret.
Qed.

Lemma Runs_call_on_config (k : Call)
  (f : IImperativeConfig -> Completion IImperativeConfig) (field : string)
  (s : Statics) (c c' : IImperativeConfig) :
  loadedConfig s = Some c -> f c = Normal c' ->
  Runs (call_on_config k f field) s [k] (set_loadedConfig c' s) tt.
Proof.
  intros E F. unfold call_on_config.
  change [k] with ([] ++ [k] ++ []).
  eapply Runs_bind; [apply Runs_the_loadedConfig; ok|].
  eapply Runs_bind; [apply Runs_call; ok|]. apply Runs_modify.
Qed.

(** ** The profile configurations *)

Lemma find_last (ty : string) (l : list ICommandProfileTypeConfiguration)
  (acc : option ICommandProfileTypeConfiguration) :
  (fold_left
     (fun foundConfig profile =>
        if String.eqb (type profile) ty then Some profile else foundConfig)
     l acc = acc
   /\ Forall (fun c => type c <> ty) l)
  \/ exists l1 c l2,
       l = l1 ++ c :: l2 /\ type c = ty
       /\ Forall (fun c' => type c' <> ty) l2
       /\ fold_left
            (fun foundConfig profile =>
               if String.eqb (type profile) ty then Some profile
               else foundConfig)
            l acc = Some c.
Proof.
  revert acc. induction l as [|x l IH]; intros acc.
  - left. split; [reflexivity | constructor].
  - cbn [fold_left].
    destruct (IH (if String.eqb (type x) ty then Some x else acc))
      as [[E F] | (l1 & c & l2 & -> & T & F & E)].
    + destruct (String.eqb_spec (type x) ty) as [Tx | Tx].
      * right. exists [], x, l. auto.
      * left. split; [exact E | now constructor].
    + right. exists (x :: l1), c, l2. auto.
Qed.

Lemma getProfileConfiguration_loaded (ty : string) (s : Statics)
  (config : IImperativeConfig) :
  loadedConfig s = Some config ->
  getProfileConfiguration ty s
  = (([], s),
     Normal match profiles config with
            | None => None
            | Some [] => None
            | Some l =>
                fold_left
                  (fun foundConfig profile =>
                     if String.eqb (type profile) ty then Some profile
                     else foundConfig) l None
            end).
Proof.
  intros E. unfold getProfileConfiguration.
  rewrite (bind_runs _ _ _ _ _ _ (Runs_the_loadedConfig "profiles" s config E)).
  destruct (profiles config) as [[|x l]|]; reflexivity.
Qed.

(** X19. [getProfileConfiguration(type)], once a configuration is
    loaded, makes no call and changes nothing; the configuration it
    returns is one of the profile configurations, has the type asked for,
    and is the last of that type in the list; it returns [undefined]
    exactly when no profile configuration has that type (in particular
    when there are none). *)
Theorem getProfileConfiguration_finds_last (ty : string) (s : Statics)
  (config : IImperativeConfig) :
  loadedConfig s = Some config ->
  exists found,
    getProfileConfiguration ty s = (([], s), Normal found)
    /\ (forall c, found = Some c ->
          type c = ty
          /\ exists l1 l2,
               profiles config = Some (l1 ++ c :: l2)
               /\ Forall (fun c' => type c' <> ty) l2)
    /\ (found = None <->
        forall l, profiles config = Some l ->
                  Forall (fun c => type c <> ty) l).
Proof.
  intros E. rewrite (getProfileConfiguration_loaded ty s config E).
  destruct (profiles config) as [l|] eqn:P.
  - destruct l as [|x l].
    + exists None. split; [reflexivity|]. split; [discriminate|].
      split; [|reflexivity]. intros _ l X. injection X as <-. constructor.
    + destruct (find_last ty (x :: l) None)
        as [[F N] | (l1 & c & l2 & L & T & N & F)];
        rewrite F; eexists; (split; [reflexivity|]).
      * split; [discriminate|]. split; [|reflexivity].
        intros _ l' X. injection X as <-. exact N.
      * split.
        -- intros c' X. injection X as <-. split; [exact T|].
           exists l1, l2. rewrite L. auto.
        -- split; [discriminate|]. intros A. exfalso.
           specialize (A _ eq_refl). rewrite L in A.
           apply Forall_app in A. destruct A as [_ A].
           inversion A; subst. contradiction.
  - exists None. split; [reflexivity|]. split; [discriminate|].
    split; [|reflexivity]. intros _ l X. discriminate X.
Qed.

(** X20. [initProfiles] initializes the profile manager exactly when
    [getProfileConfiguration] can find a configuration for some type:
    both take a missing and an empty list of profile configurations for
    the same thing. *)
Theorem profiles_initialized_iff_findable (W : World) (s : Statics)
  (config : IImperativeConfig) :
  loadedConfig s = Some config ->
  (exists parms, calls (initProfiles W s) = [InitializeProfiles parms])
  <-> exists ty c, completion (getProfileConfiguration ty s) = Normal (Some c).
Proof.
  intros E.
  assert (G : forall ty c,
             completion (getProfileConfiguration ty s) = Normal (Some c)
             <-> match profiles config with
                 | None => None
                 | Some [] => None
                 | Some l =>
                     fold_left
                       (fun foundConfig profile =>
                          if String.eqb (type profile) ty then Some profile
                          else foundConfig) l None
                 end = Some c).
  { intros ty c. rewrite (getProfileConfiguration_loaded ty s config E).
    unfold completion. cbn [snd]. split; [intros X; now injection X | now intros ->]. }
  unfold initProfiles.
  rewrite (bind_runs _ _ _ _ _ _ (Runs_the_loadedConfig "profiles" s config E)).
  destruct (profiles config) as [[|x l]|] eqn:P; cbn [calls fst app].
  - split; [intros [p X]; discriminate X|].
    intros (ty & c & X). apply G in X. discriminate X.
  - split; [|intros _; eexists; reflexivity]. intros _. exists (type x).
    destruct (find_last (type x) (x :: l) None)
      as [[_ F] | (l1 & c & l2 & _ & _ & _ & F)].
    + inversion F; subst. contradiction.
    + exists c. apply G. exact F.
  - split; [intros [p X]; discriminate X|].
    intros (ty & c & X). apply G in X. discriminate X.
Qed.

(** ** The console *)

(** X21. The console logger is created once: whatever the state, after
    a first read of [console] every later read returns the logger of the
    first one, leaves the state as it is, and asks the [Logger] class for
    nothing. *)
Theorem console_is_created_once (W : World) (s : Statics) (n : nat) :
  exists l,
    completion (console W s) = Normal l
    /\ List.length (calls (console W s)) <= 1
    /\ console W (Nat.iter n (fun x => statics (console W x))
                    (statics (console W s)))
       = (([], statics (console W s)), Normal l).
Proof.
  unfold console.
  assert (F : forall x l, mConsoleLog x = Some l ->
                          constructConsoleApi W x = (([], x), Normal l)).
  { intros x l E. unfold constructConsoleApi, bind, get. cbn. rewrite E.
    reflexivity. }
  assert (G : exists l, completion (constructConsoleApi W s) = Normal l
                        /\ List.length (calls (constructConsoleApi W s)) <= 1
                        /\ mConsoleLog (statics (constructConsoleApi W s))
                           = Some l).
  { destruct (mConsoleLog s) as [l|] eqn:E.
    - exists l. rewrite (F _ _ E). cbn. auto.
    - eexists. unfold constructConsoleApi, getConsoleLogger, bind, get. cbn.
      rewrite E. cbn. auto. }
  destruct G as (l & Gc & Gl & Gs). exists l.
  split; [exact Gc|]. split; [exact Gl|].
  assert (I : Nat.iter n (fun x => statics (constructConsoleApi W x))
                (statics (constructConsoleApi W s))
              = statics (constructConsoleApi W s)).
  { induction n as [|n IH]; [reflexivity|].
    rewrite Nat.iter_succ, IH, (F _ _ Gs). reflexivity. }
  rewrite I. apply F. exact Gs.
Qed.

(** ** Initialization *)

(** X22. [init] rejects with an [ImperativeError] only: the error
    thrown inside it when that is one, and otherwise an [ImperativeError]
    with the message "UNEXPECTED ERROR ENCOUNTERED" that carries the value
    thrown as its cause; the calls made and the state are those reached
    when the error was thrown. *)
Theorem init_rejects_with_ImperativeError (W : World)
  (config : option IImperativeConfig) (s : Statics) (v : JsValue) :
  completion (init W config s) = Throw v ->
  is_ImperativeError v = true
  /\ exists error,
       initialize W config s
       = ((calls (init W config s), statics (init W config s)), Throw error)
       /\ v = rejection error
       /\ (is_ImperativeError error = true -> v = error)
       /\ (is_ImperativeError error = false ->
           get_prop v "causeErrors" = Normal error).
Proof.
  unfold init, try_catch, throw.
  destruct (initialize W config s) as [[t s'] [[]|error]]; [discriminate|].
  cbn. rewrite app_nil_r. intros X. injection X as <-.
  fold (rejection error). split.
  - unfold rejection. destruct (is_ImperativeError error) eqn:I; auto.
  - exists error. split; [reflexivity|]. split; [reflexivity|].
    unfold rejection. split; intros I; rewrite I; reflexivity.
Qed.

(** X23. A configuration that fails validation is never installed:
    when [ConfigurationValidator.validate] throws, [init] rejects, the
    loaded configuration, the API object and the loggers are as before the
    call, and nothing was called but the loader and the validator. *)
Theorem invalid_configuration_is_not_installed (W : World)
  (config : option IImperativeConfig) (s : Statics) (file : string)
  (loaded : IImperativeConfig) (error : JsValue) :
  mainModule_filename W = Normal file ->
  ConfigurationLoader_load W config = Normal loaded ->
  ConfigurationValidator_validate W loaded = Throw error ->
  completion (init W config s) = Throw (rejection error)
  /\ calls (init W config s) = [LoadConfiguration; ValidateConfiguration]
  /\ loadedConfig (statics (init W config s)) = loadedConfig s
  /\ mApi (statics (init W config s)) = mApi s
  /\ mLog (statics (init W config s)) = mLog s
  /\ callerLocation (statics (init W config s)) = Some file.
Proof.
  intros Hf Hl Hv.
  unfold init, try_catch, initialize, bind, lift, call, modify, throw.
  rewrite Hf, Hl, Hv. cbn. repeat split.
Qed.

Lemma Runs_defineChildren (W : World) (parms : YargsParms) (s : Statics)
  (cs : list ICommandDefinition) :
  Cooperative W ->
  Runs (defineChildren W cs parms) s (map DefineCommand cs) s tt.
Proof.
  intros C. induction cs as [|c cs IH]; [apply Runs_ret|].
  cbn [defineChildren map]. change (DefineCommand c :: ?t) with ([DefineCommand c] ++ t).
  eapply Runs_bind; [|exact IH].
  apply Runs_call. apply (coop_define W C).
Qed.

Lemma Runs_initLogging (W : World) (s : Statics) (c : IImperativeConfig) :
  Cooperative W ->
  loadedConfig s = Some c ->
  exists t, Runs (initLogging W) s t (set_mLog (Logger_getImperativeLogger W) s)
              tt.
Proof.
  intros C E. unfold initLogging, envVariablePrefix.
  destruct (coop_configureLogger W C (cliHome W c) c) as [lc Hlc].
  set (s1 := set_mLog (Logger_getImperativeLogger W) s).
  assert (E1 : loadedConfig s1 = Some c) by exact E.
  assert (L1 : mLog s1 = Some (Logger_getImperativeLogger W)) by reflexivity.
  set (prefix := match cfg_envVariablePrefix c with
                 | Some p => p
                 | None => name c
                 end).
  destruct (coop_environment W C prefix) as [env Henv].
  assert (P : Runs (config <- the_loadedConfig "envVariablePrefix" ;;
                    match cfg_envVariablePrefix config with
                    | Some p => ret p
                    | None => ret (name config)
                    end) s1 [] s1 prefix).
  { change [] with (@nil Call ++ []).
    eapply Runs_bind; [apply Runs_the_loadedConfig; ok|].
    unfold prefix. destruct (cfg_envVariablePrefix c); apply Runs_ret. }
  assert (Lv : forall (o : option string) (k : string -> Call),
             exists t,
               Runs match o with
                    | Some level => call (k level) (Normal tt) ;;; log "info"
                    | None => log "info"
                    end s1 t s1 tt).
  { intros [level|] k.
    - eexists. eapply Runs_bind; [apply Runs_call; ok|].
      now apply (Runs_log "info" s1 _ L1).
    - eexists. now apply (Runs_log "info" s1 _ L1). }
  destruct (Lv (value (imperativeLogLevel env)) SetImperativeLogLevel)
    as [t1 R1].
  destruct (Lv (value (appLogLevel env)) SetAppLogLevel) as [t2 R2].
  eexists.
  eapply Runs_bind; [apply Runs_the_loadedConfig; ok|].
  eapply Runs_bind; [apply Runs_call; ok|].
  eapply Runs_bind; [apply Runs_call; apply (coop_initLogger W C)|].
  eapply Runs_bind; [apply Runs_modify|]. fold s1.
  eapply Runs_bind; [exact P|].
  eapply Runs_bind; [apply Runs_call; ok|].
  eapply Runs_bind; [exact R1 | exact R2].
Qed.

Lemma Runs_constructApiObject (W : World) (s : Statics)
  (c : IImperativeConfig) :
  loadedConfig s = Some c -> logging c <> None ->
  exists a, Runs (constructApiObject W) s [] s a
            /\ imperativeLogger a = Logger_getImperativeLogger W
            /\ appLogger a = Logger_getAppLogger W.
Proof.
  intros E L. unfold constructApiObject, constructDynamicLoggersApi.
  destruct (logging c) as [logs|] eqn:El; [|contradiction].
  assert (K : forall (l : list IImperativeLoggingConfig) (a : ImperativeApi),
             imperativeLogger
               (fold_left
                  (fun a0 logConfig =>
                     addAdditionalLogger a0 (apiName logConfig)
                       (Logger_getLoggerCategory W (apiName logConfig))) l a)
             = imperativeLogger a
             /\ appLogger
                  (fold_left
                     (fun a0 logConfig =>
                        addAdditionalLogger a0 (apiName logConfig)
                          (Logger_getLoggerCategory W (apiName logConfig))) l a)
                = appLogger a).
  { induction l as [|x l IH]; intros a; [split; reflexivity|].
    cbn [fold_left]. destruct (IH (addAdditionalLogger a (apiName x)
                                     (Logger_getLoggerCategory W (apiName x))))
      as [I1 I2].
    rewrite I1, I2. split; reflexivity. }
  destruct (additionalLogging logs) as [[|l ls]|] eqn:Ea;
    (eexists; split;
     [ eapply Runs_bind_nil; [apply Runs_the_loadedConfig; ok|];
       eapply Runs_bind_nil; [apply Runs_the_loadedConfig; ok|];
       rewrite El, Ea; apply Runs_ret
     | first [ split; reflexivity | apply K ] ]).
Qed.

Lemma fold_addAdditionalLogger (W : World)
  (l : list IImperativeLoggingConfig) (a : ImperativeApi) :
  additionalLoggers
    (fold_left
       (fun a0 logConfig =>
          addAdditionalLogger a0 (apiName logConfig)
            (Logger_getLoggerCategory W (apiName logConfig))) l a)
  = additionalLoggers a
      ++ map (fun logConfig =>
                (apiName logConfig,
                 Logger_getLoggerCategory W (apiName logConfig))) l.
Proof.
  revert a. induction l as [|x l IH]; intros a.
  - cbn. now rewrite app_nil_r.
  - cbn [fold_left map]. rewrite IH. cbn. now rewrite <- app_assoc.
Qed.

(** X25. The API object [constructApiObject] builds, given a loaded
    configuration: when the configuration has no [logging] object the
    construction throws a [TypeError]; otherwise it makes no call, changes
    nothing, and the API object is given one logger for each entry of
    [logging.additionalLogging], in the order of the entries, each under
    its [apiName] and of the category of that name. *)
Theorem api_object_loggers (W : World) (s : Statics)
  (c : IImperativeConfig) :
  loadedConfig s = Some c ->
  match logging c with
  | None =>
      constructApiObject W s
      = (([], s),
         Throw (TypeError
                  "Cannot read property 'additionalLogging' of undefined"))
  | Some logs =>
      exists a,
        constructApiObject W s = (([], s), Normal a)
        /\ additionalLoggers a
           = map (fun logConfig =>
                    (apiName logConfig,
                     Logger_getLoggerCategory W (apiName logConfig)))
               match additionalLogging logs with
               | Some l => l
               | None => []
               end
  end.
Proof.
  intros E. unfold constructApiObject, constructDynamicLoggersApi.
  rewrite (bind_runs _ _ _ _ _ _ (Runs_the_loadedConfig "logging" s c E)).
  rewrite (bind_runs _ _ _ _ _ _ (Runs_the_loadedConfig "logging" s c E)).
  destruct (logging c) as [logs|]; [|reflexivity].
  destruct (additionalLogging logs) as [[|l ls]|];
    eexists; (split; [reflexivity|]); try reflexivity.
  cbn [completion snd]. now rewrite fold_addAdditionalLogger.
Qed.

Lemma Runs_initProfiles (W : World) (s : Statics) (c : IImperativeConfig) :
  Cooperative W -> loadedConfig s = Some c ->
  exists t, Runs (initProfiles W) s t s tt.
Proof.
  intros C E. unfold initProfiles.
  destruct (profiles c) as [[|p ps]|] eqn:P; eexists;
    (eapply Runs_bind; [apply Runs_the_loadedConfig; ok|]); rewrite P.
  - apply Runs_ret.
  - apply Runs_call. apply (coop_profiles W C).
  - apply Runs_ret.
Qed.

Lemma Runs_defineCommands (W : World) (s : Statics) (c : IImperativeConfig)
  (l : Logger) (a : ImperativeApi) (tree : ICommandDefinition)
  (cs : list ICommandDefinition) :
  Cooperative W ->
  loadedConfig s = Some c -> mLog s = Some l -> mApi s = Some a ->
  children tree = Some cs ->
  Runs (defineCommands W tree) s
    ([ConfigureYargs; DefineOptions (options tree)] ++ map DefineCommand cs)
    (set_mFullCommandTree tree s) tt.
Proof.
  intros C E L A Ch. unfold defineCommands.
  assert (Ra : Runs (api W) s [] s a).
  { unfold api. change [] with (@nil Call ++ []).
    eapply Runs_bind; [apply Runs_get|]. rewrite A. apply Runs_ret. }
  rewrite Ch.
  assert (R : exists t,
             Runs (log "debug" ;;;
                   config <- the_loadedConfig "primaryTextColor" ;;
                   a0 <- api W ;;
                   s0 <- get ;;
                   let parms :=
                     {| yargs_api := a0;
                        yargs_helpGeneratorFactory := mHelpGeneratorFactory s0;
                        yargs_rootCommandName := mRootCommandName s0;
                        yargs_primaryTextColor := primaryTextColor config;
                        yargs_progressBarSpinner := progressBarSpinner config;
                        yargs_experimentalCommandDescription :=
                          experimentalCommandDescription config |} in
                   call ConfigureYargs (YargsConfigurer_configure W tree parms) ;;;
                   call (DefineOptions (options tree))
                     (CommandYargs_defineOptionsToYargs W (options tree)) ;;;
                   api W ;;;
                   defineChildren W cs parms ;;;
                   modify (set_mFullCommandTree tree))
               s t (set_mFullCommandTree tree s) tt
             /\ t = [ConfigureYargs; DefineOptions (options tree)]
                      ++ map DefineCommand cs).
  { eexists. split.
    - eapply Runs_bind; [now apply (Runs_log "debug" s l)|].
      eapply Runs_bind; [apply Runs_the_loadedConfig; ok|].
      eapply Runs_bind; [exact Ra|].
      eapply Runs_bind; [apply Runs_get|].
      eapply Runs_bind; [apply Runs_call; apply (coop_configure W C)|].
      eapply Runs_bind; [apply Runs_call; apply (coop_options W C)|].
      eapply Runs_bind; [exact Ra|].
      eapply Runs_bind; [now apply Runs_defineChildren|].
      apply Runs_modify.
    - cbn. now rewrite app_nil_r. }
  destruct R as (t & R & ->). exact R.
Qed.

(** The run of the body of [init] when no call throws. *)
Lemma initialize_runs (W : World) (config : option IImperativeConfig)
  (s : Statics) :
  Cooperative W ->
  exists t0 s' a tree cs file,
    Runs (initialize W config) s
      (t0 ++ [ConfigureYargs; DefineOptions (options tree)]
          ++ map DefineCommand cs) s' tt
    /\ mApi s' = Some a
    /\ mainModule_filename W = Normal file
    /\ callerLocation s' = Some file
    /\ mRootCommandName s'
       = Some match findPackageBinName W with
              | Some bin => bin
              | None => file
              end
    /\ mFullCommandTree s' = Some tree
    /\ children tree = Some cs
    /\ mLog s' = Some (Logger_getImperativeLogger W)
    /\ loadedConfig s' <> None
    /\ mConsoleLog s' = mConsoleLog s.
Proof.
  intros C.
  destruct (coop_filename W C) as [file Hf].
  destruct (coop_load W C config) as [c0 Hl].
  destruct (coop_validate W C c0) as (c1 & Hv & L1).
  set (s1 := set_loadedConfig c1 (set_callerLocation file s)).
  destruct (Runs_initLogging W s1 c1 C eq_refl) as [t2 R2].
  set (s2 := set_mLog (Logger_getImperativeLogger W) s1) in R2.
  destruct (coop_overrides W C c1) as (c2 & Ho & L2).
  set (s3 := set_loadedConfig c2 s2).
  set (root := match findPackageBinName W with
               | Some bin => Some bin
               | None => Some file
               end).
  set (s4 := set_mRootCommandName root s3).
  assert (R4 : exists t4,
             Runs match findPackageBinName W with
                  | Some bin => modify (set_mRootCommandName (Some bin))
                  | None =>
                      x <- get ;;
                      modify (set_mRootCommandName (callerLocation x)) ;;;
                      log "debug"
                  end s3 t4 s4 tt).
  { unfold s4, root. destruct (findPackageBinName W) as [bin|].
    - eexists. apply Runs_modify.
    - eexists. eapply Runs_bind; [apply Runs_get|].
      eapply Runs_bind; [apply Runs_modify|].
      now apply (Runs_log "debug" _ (Logger_getImperativeLogger W)). }
  destruct R4 as [t4 R4].
  assert (R5 : exists t5 c3,
             Runs (if allowPlugins c2
                   then call_on_config InitPlugins
                          (PluginManagementFacility_init W) "allowPlugins"
                   else ret tt) s4 t5 (set_loadedConfig c3 s4) tt
             /\ logging c3 <> None).
  { destruct (allowPlugins c2).
    - destruct (coop_plugins W C c2) as (c3 & Hp & L3).
      exists [InitPlugins], c3. split; [|exact L3].
      now apply (Runs_call_on_config _ _ _ s4 c2 c3).
    - exists [], c2. split; [apply Runs_ret | exact L2]. }
  destruct R5 as (t5 & c3 & R5 & L3).
  set (s5 := set_loadedConfig c3 s4) in R5.
  destruct (Runs_constructApiObject W s5 c3 eq_refl L3) as (a & R6 & _).
  set (s6 := set_mHelpGeneratorFactory
               {| factory_rootCommandName := root; factory_config := c3 |}
               (set_mApi a s5)).
  destruct (coop_resolve W C c3) as [tree0 Hr].
  assert (R7 : exists t7 tree1 c4,
             Runs (if allowPlugins c3
                   then
                     r <- call AddPluginsToHostCli
                            (addPluginsToHostCli W tree0 c3) ;;
                     modify (set_loadedConfig (snd r)) ;;;
                     ret (fst r)
                   else ret tree0) s6 t7 (set_loadedConfig c4 s6) tree1).
  { destruct (allowPlugins c3).
    - destruct (coop_addPlugins W C tree0 c3) as [[tree1 c4] Ha].
      exists ([AddPluginsToHostCli] ++ [] ++ []), tree1, c4.
      eapply Runs_bind; [apply Runs_call; ok|].
      eapply Runs_bind; [apply Runs_modify | apply Runs_ret].
    - exists [], tree0, c3. apply Runs_ret. }
  destruct R7 as (t7 & tree1 & c4 & R7).
  set (s7 := set_loadedConfig c4 s6) in R7.
  destruct (coop_prepare W C tree1) as (tree & Hp & Ch).
  destruct (children tree) as [cs|] eqn:Ecs; [|contradiction].
  destruct (Runs_initProfiles W s7 c4 C eq_refl) as [t8 R8].
  pose proof (Runs_defineCommands W s7 c4 (Logger_getImperativeLogger W) a
                tree cs C eq_refl eq_refl eq_refl Ecs) as R9.
  assert (R : exists t,
             Runs (initialize W config) s t (set_mFullCommandTree tree s7) tt
             /\ exists t0,
                  t = t0 ++ [ConfigureYargs; DefineOptions (options tree)]
                         ++ map DefineCommand cs).
  { eexists. split.
    - unfold initialize.
      eapply Runs_bind; [apply Runs_lift; ok|].
      eapply Runs_bind; [apply Runs_modify|].
      eapply Runs_bind; [apply Runs_call; ok|].
      eapply Runs_bind; [apply Runs_call; ok|].
      eapply Runs_bind; [apply Runs_modify|]. fold s1.
      eapply Runs_bind; [exact R2|].
      eapply Runs_bind;
        [now apply (Runs_call_on_config _ _ _ s2 c1 c2)|]. fold s3.
      eapply Runs_bind; [exact R4|].
      eapply Runs_bind; [now apply (Runs_the_loadedConfig _ s4 c2)|].
      eapply Runs_bind; [exact R5|].
      eapply Runs_bind; [exact R6|].
      eapply Runs_bind; [apply Runs_modify|].
      eapply Runs_bind;
        [unfold rootCommandName; eapply Runs_bind;
         [apply Runs_get | apply Runs_ret]|].
      eapply Runs_bind; [now apply (Runs_the_loadedConfig _ _ c3)|].
      eapply Runs_bind; [apply Runs_modify|]. fold s6.
      eapply Runs_bind;
        [now apply (Runs_log "debug" s6 (Logger_getImperativeLogger W))|].
      eapply Runs_bind; [apply Runs_call; ok|].
      eapply Runs_bind; [now apply (Runs_the_loadedConfig _ s6 c3)|].
      eapply Runs_bind; [exact R7|].
      eapply Runs_bind; [apply Runs_call; ok|].
      eapply Runs_bind; [exact R8 | exact R9].
    - eexists. rewrite !app_assoc. reflexivity. }
  destruct R as (t & R & t0 & ->).
  exists t0, (set_mFullCommandTree tree s7), a, tree, cs, file.
  split; [exact R|]. cbn. unfold root.
  destruct (findPackageBinName W); repeat split; auto; discriminate.
Qed.

(** X24. When no call throws (and the configuration keeps its
    [logging] object, the prepared command tree its [children]), [init] is
    fulfilled: it never trips over a field of its own that is not yet
    set.  Afterwards the API object exists, so that the [api] getter
    returns it instead of throwing; the root command name is the bin name
    of the package when there is one and the location of the caller
    otherwise; the full command tree is the prepared one; the logger is
    the Imperative logger; the console logger is untouched. *)
Theorem init_fulfils (W : World) (config : option IImperativeConfig)
  (s : Statics) :
  Cooperative W ->
  exists t s' a tree file,
    init W config s = ((t, s'), Normal tt)
    /\ mApi s' = Some a
    /\ completion (api W s') = Normal a
    /\ mainModule_filename W = Normal file
    /\ callerLocation s' = Some file
    /\ mRootCommandName s'
       = Some match findPackageBinName W with
              | Some bin => bin
              | None => file
              end
    /\ mFullCommandTree s' = Some tree
    /\ children tree <> None
    /\ mLog s' = Some (Logger_getImperativeLogger W)
    /\ loadedConfig s' <> None
    /\ mConsoleLog s' = mConsoleLog s.
Proof.
  intros C.
  destruct (initialize_runs W config s C)
    as (t0 & s' & a & tree & cs & file & R & A & F & L & N & T & Ch & Lg
        & Lc & Cl).
  eexists _, s', a, tree, file. split.
  - unfold init, try_catch. rewrite R. reflexivity.
  - split; [exact A|]. split.
    + unfold api, bind, get, completion. cbn. now rewrite A.
    + rewrite Ch. repeat split; auto. discriminate.
Qed.

(** X30. When no call throws, the last thing [init] does is to define
    the commands: yargs is configured, the options of the prepared tree
    are defined, then each child of the tree is defined once, in the
    order of the children, and that tree becomes the full command tree. *)
Theorem init_defines_every_command (W : World)
  (config : option IImperativeConfig) (s : Statics) :
  Cooperative W ->
  exists t0 tree cs,
    calls (init W config s)
    = t0 ++ [ConfigureYargs; DefineOptions (options tree)]
         ++ map DefineCommand cs
    /\ mFullCommandTree (statics (init W config s)) = Some tree
    /\ children tree = Some cs
    /\ completion (init W config s) = Normal tt.
Proof.
  intros C.
  destruct (initialize_runs W config s C)
    as (t0 & s' & a & tree & cs & file & R & _ & _ & _ & _ & T & Ch & _).
  exists t0, tree, cs.
  assert (E : init W config s
              = ((t0 ++ [ConfigureYargs; DefineOptions (options tree)]
                     ++ map DefineCommand cs, s'), Normal tt))
    by (unfold init, try_catch; rewrite R; reflexivity).
  rewrite E. cbn [calls statics completion fst snd]. auto.
Qed.

(** ** Calls that are never made *)

Section Triples.

Variable allowed : Call -> bool.
Variable I : Statics -> Prop.

Lemma Triple_ret {A : Type} (a : A) (Q : A -> Prop) :
  Q a -> Triple allowed I (ret a) Q.
Proof.
  intros Ha s Hs. cbn. repeat split; auto. intros b X. now injection X as <-.
Qed.

Lemma Triple_throw {A : Type} (v : JsValue) (Q : A -> Prop) :
  Triple allowed I (throw v) Q.
Proof. intros s Hs. cbn. repeat split; auto. discriminate. Qed.

Lemma Triple_get : Triple allowed I get I.
Proof.
  intros s Hs. cbn. repeat split; auto. intros b X. now injection X as <-.
Qed.

Lemma Triple_modify (f : Statics -> Statics) :
  (forall s, I s -> I (f s)) -> Triple allowed I (modify f) (fun _ => True).
Proof. intros Hf s Hs. cbn. repeat split; auto. Qed.

Lemma Triple_call {A : Type} (c : Call) (r : Completion A) (Q : A -> Prop) :
  allowed c = true -> (forall a, r = Normal a -> Q a) ->
  Triple allowed I (call c r) Q.
Proof.
  intros Hc Hr s Hs. cbn. rewrite Hc. repeat split; auto.
Qed.

Lemma Triple_lift {A : Type} (r : Completion A) (Q : A -> Prop) :
  (forall a, r = Normal a -> Q a) -> Triple allowed I (lift r) Q.
Proof. intros Hr s Hs. cbn. repeat split; auto. Qed.

Lemma Triple_bind {A B : Type} (m : M A) (k : A -> M B) (Q : A -> Prop)
  (R : B -> Prop) :
  Triple allowed I m Q -> (forall a, Q a -> Triple allowed I (k a) R) ->
  Triple allowed I (bind m k) R.
Proof.
  intros Hm Hk s Hs. destruct (Hm s Hs) as (C1 & I1 & Q1).
  unfold bind, calls, statics, completion in *.
  destruct (m s) as [[t s'] [a|v]]; cbn [fst snd] in *.
  - destruct (Hk a (Q1 a eq_refl) s' I1) as (C2 & I2 & Q2).
    unfold calls, statics, completion in *.
    destruct (k a s') as [[t' s''] c]; cbn [fst snd] in *.
    rewrite forallb_app, C1, C2. auto.
  - repeat split; auto. discriminate.
Qed.

Lemma Triple_weaken {A : Type} (m : M A) (Q Q' : A -> Prop) :
  Triple allowed I m Q -> (forall a, Q a -> Q' a) -> Triple allowed I m Q'.
Proof.
  intros Hm Hq s Hs. destruct (Hm s Hs) as (C1 & I1 & Q1). auto.
Qed.

Lemma Triple_if {A : Type} (b : bool) (m m' : M A) (Q : A -> Prop) :
  (b = true -> Triple allowed I m Q) ->
  (b = false -> Triple allowed I m' Q) ->
  Triple allowed I (if b then m else m') Q.
Proof. destruct b; auto. Qed.

End Triples.

Section Plugins.

Variable W : World.

(** The overrides do not turn the plugins on. *)
Hypothesis overrides_keep_off :
  forall c c',
    allowPlugins c = false -> OverridesLoader_load W c = Normal c' ->
    allowPlugins c' = false.

Lemma keeps_loadedConfig (f : Statics -> Statics) :
  (forall s, loadedConfig (f s) = loadedConfig s) ->
  forall s, PluginsOff s -> PluginsOff (f s).
Proof. intros Hf s Hs c E. rewrite Hf in E. now apply Hs. Qed.

Lemma Triple_the_loadedConfig (field : string) :
  Triple notPluginCall PluginsOff (the_loadedConfig field)
    (fun c => allowPlugins c = false).
Proof.
  intros s Hs. unfold the_loadedConfig, bind, get.
  destruct (loadedConfig s) as [c|] eqn:E; cbn; repeat split; auto.
  - intros a X. injection X as <-. now apply Hs.
  - discriminate.
Qed.

Lemma Quiet_log (method : string) : Quiet (log method).
Proof.
  intros s Hs. unfold log, bind, get.
  destruct (mLog s); cbn; repeat split; auto.
Qed.

Lemma Quiet_api : Triple notPluginCall PluginsOff (api W) (fun _ => True).
Proof.
  intros s Hs.
  unfold api, console, constructConsoleApi, getConsoleLogger, bind, get.
  destruct (mApi s); [cbn; repeat split; auto|].
  destruct (mConsoleLog s); cbn; repeat split; auto.
Qed.

Lemma Quiet_bind {A B : Type} (m : M A) (k : A -> M B) :
  Quiet m -> (forall a, Quiet (k a)) -> Quiet (bind m k).
Proof. intros Hm Hk. eapply Triple_bind; [exact Hm | intros a _; apply Hk]. Qed.

Lemma Quiet_config {B : Type} (field : string)
  (k : IImperativeConfig -> M B) :
  (forall c, allowPlugins c = false -> Quiet (k c)) ->
  Quiet (bind (the_loadedConfig field) k).
Proof.
  intros Hk. eapply Triple_bind; [apply Triple_the_loadedConfig | exact Hk].
Qed.

Lemma Quiet_ret {A : Type} (a : A) : Quiet (ret a).
Proof. now apply Triple_ret. Qed.

Lemma Quiet_throw {A : Type} (v : JsValue) : Quiet (throw v : M A).
Proof. apply Triple_throw. Qed.

Lemma Quiet_get : Quiet get.
Proof. eapply Triple_weaken; [apply Triple_get | auto]. Qed.

Lemma Quiet_call {A : Type} (c : Call) (r : Completion A) :
  pluginCall c = false -> Quiet (call c r).
Proof.
  intros Hc. apply Triple_call; [|auto]. unfold notPluginCall. now rewrite Hc.
Qed.

Lemma Quiet_modify (f : Statics -> Statics) :
  (forall s, loadedConfig (f s) = loadedConfig s) -> Quiet (modify f).
Proof. intros Hf. apply Triple_modify. now apply keeps_loadedConfig. Qed.

Ltac quiet :=
  repeat first
    [ apply Quiet_ret
    | apply Quiet_throw
    | apply Quiet_get
    | apply Quiet_log
    | apply Quiet_api
    | apply Quiet_call; reflexivity
    | apply Quiet_modify; reflexivity
    | apply Quiet_config; intros ? ?
    | apply Quiet_bind; [|intros ?] ].

Lemma Quiet_initLogging : Quiet (initLogging W).
Proof.
  unfold initLogging, envVariablePrefix. quiet.
  - match goal with
    | |- context [cfg_envVariablePrefix ?c] =>
        destruct (cfg_envVariablePrefix c)
    end; quiet.
  - match goal with
    | |- context [value (imperativeLogLevel ?e)] =>
        destruct (value (imperativeLogLevel e))
    end; quiet.
  - match goal with
    | |- context [value (appLogLevel ?e)] =>
        destruct (value (appLogLevel e))
    end; quiet.
Qed.

Lemma Quiet_initProfiles : Quiet (initProfiles W).
Proof.
  unfold initProfiles. quiet.
  match goal with
  | |- context [profiles ?c] => destruct (profiles c) as [[|p ps]|]
  end; quiet.
Qed.

Lemma Quiet_constructApiObject : Quiet (constructApiObject W).
Proof.
  unfold constructApiObject, constructDynamicLoggersApi. quiet.
  match goal with
  | |- context [logging ?c] => destruct (logging c) as [logs|]
  end; quiet.
  destruct (additionalLogging logs) as [[|l ls]|]; quiet.
Qed.

Lemma Quiet_defineChildren (cs : list ICommandDefinition) (parms : YargsParms) :
  Quiet (defineChildren W cs parms).
Proof.
  induction cs as [|c cs IH]; cbn [defineChildren]; quiet. exact IH.
Qed.

Lemma Quiet_defineCommands (tree : ICommandDefinition) :
  Quiet (defineCommands W tree).
Proof.
  unfold defineCommands. quiet.
  destruct (children tree); [apply Quiet_defineChildren | quiet].
Qed.

Lemma Quiet_call_on_config (c : Call)
  (f : IImperativeConfig -> Completion IImperativeConfig) (field : string) :
  pluginCall c = false ->
  (forall x y, allowPlugins x = false -> f x = Normal y ->
               allowPlugins y = false) ->
  Quiet (call_on_config c f field).
Proof.
  intros Hc Hf. unfold call_on_config.
  apply Quiet_config. intros x Hx.
  eapply Triple_bind with (Q := fun y => allowPlugins y = false).
  - apply Triple_call; [unfold notPluginCall; now rewrite Hc|].
    intros y Hy. exact (Hf x y Hx Hy).
  - intros y Hy. apply Triple_modify. intros s _ c' E. cbn in E.
    now injection E as <-.
Qed.

(** The part of [init] that follows the installation of the
    configuration. *)
Lemma Quiet_initialized :
  Quiet
    (initLogging W ;;;
     call_on_config LoadOverrides (OverridesLoader_load W) "loadedConfig" ;;;
     match findPackageBinName W with
     | Some bin => modify (set_mRootCommandName (Some bin))
     | None =>
         s <- get ;;
         modify (set_mRootCommandName (callerLocation s)) ;;;
         log "debug"
     end ;;;
     config <- the_loadedConfig "allowPlugins" ;;
     (if allowPlugins config
      then call_on_config InitPlugins (PluginManagementFacility_init W)
             "allowPlugins"
      else ret tt) ;;;
     a <- constructApiObject W ;;
     modify (set_mApi a) ;;;
     root <- rootCommandName ;;
     config <- the_loadedConfig "loadedConfig" ;;
     modify (set_mHelpGeneratorFactory
               {| factory_rootCommandName := root; factory_config := config |}) ;;;
     log "debug" ;;;
     resolvedHostCliCmdTree <- call ResolveCmdTree (resolvedCmdTree W config) ;;
     config <- the_loadedConfig "allowPlugins" ;;
     resolvedHostCliCmdTree <-
       (if allowPlugins config
        then
          r <- call AddPluginsToHostCli
                 (addPluginsToHostCli W resolvedHostCliCmdTree config) ;;
          modify (set_loadedConfig (snd r)) ;;;
          ret (fst r)
        else ret resolvedHostCliCmdTree) ;;
     preparedHostCliCmdTree <-
       call PrepareCmdTree (getPreparedCmdTree W resolvedHostCliCmdTree) ;;
     initProfiles W ;;;
     defineCommands W preparedHostCliCmdTree).
Proof.
  apply Quiet_bind; [apply Quiet_initLogging|]. intros _.
  apply Quiet_bind;
    [apply Quiet_call_on_config; [reflexivity | exact overrides_keep_off]|].
  intros _.
  apply Quiet_bind; [destruct (findPackageBinName W); quiet|]. intros _.
  apply Quiet_config. intros c Hc. rewrite Hc.
  apply Quiet_bind; [quiet|]. intros _.
  apply Quiet_bind; [apply Quiet_constructApiObject|]. intros a.
  apply Quiet_bind; [quiet|]. intros _.
  apply Quiet_bind; [unfold rootCommandName; quiet|]. intros root.
  apply Quiet_config. intros c1 _.
  apply Quiet_bind; [quiet|]. intros _.
  apply Quiet_bind; [quiet|]. intros _.
  apply Quiet_bind; [quiet|]. intros tree0.
  apply Quiet_config. intros c2 Hc2. rewrite Hc2.
  apply Quiet_bind; [quiet|]. intros tree1.
  apply Quiet_bind; [quiet|]. intros tree.
  apply Quiet_bind; [apply Quiet_initProfiles|]. intros _.
  apply Quiet_defineCommands.
Qed.

(** X29. When the configuration, as loaded and validated, does not
    allow plugins (and the overrides do not turn them on), [init] never
    calls the plugin management facility, neither to initialize it nor to
    add plugins to the command tree, whatever the state it starts from and
    however the initialization goes on and ends. *)
Theorem plugins_off_never_called (config : option IImperativeConfig)
  (s : Statics) :
  (forall c0 c1,
      ConfigurationLoader_load W config = Normal c0 ->
      ConfigurationValidator_validate W c0 = Normal c1 ->
      allowPlugins c1 = false) ->
  ~ In InitPlugins (calls (init W config s))
  /\ ~ In AddPluginsToHostCli (calls (init W config s)).
Proof.
  intros validated_off.
  assert (Q : forallb notPluginCall (calls (init W config s)) = true).
  { assert (E : calls (init W config s) = calls (initialize W config s)).
    { unfold init, try_catch, throw, calls.
      destruct (initialize W config s) as [[t s'] [[]|e]]; cbn; auto.
      now rewrite app_nil_r. }
    rewrite E. unfold initialize.
    unfold bind at 1. unfold lift at 1.
    destruct (mainModule_filename W) as [file|e]; [|reflexivity].
    unfold bind at 1. unfold modify at 1.
    unfold bind at 1. unfold call at 1.
    destruct (ConfigurationLoader_load W config) as [c0|e] eqn:Hl;
      [|reflexivity].
    unfold bind at 1. unfold call at 1.
    destruct (ConfigurationValidator_validate W c0) as [c1|e] eqn:Hv;
      [|reflexivity].
    unfold bind at 1. unfold modify at 1.
    assert (Hs : PluginsOff
                   (set_loadedConfig c1 (set_callerLocation file s))).
    { intros c X. cbn in X. injection X as <-.
      exact (validated_off _ _ eq_refl Hv). }
    destruct (Quiet_initialized _ Hs) as (C & _).
    unfold calls in *.
    match goal with
    | C : forallb _ (fst (fst ?x)) = true |- _ =>
        destruct x as [[t s'] c]
    end.
    cbn in *. exact C. }
  rewrite forallb_forall in Q. split; intros X; apply Q in X; discriminate X.
Qed.

End Plugins.

End ImperativeFacts.

(* ================================================================== *)
(** * The handler [UseDependentProfile] under the command processor *)
(* ================================================================== *)

Module HandlersFacts.

Import Cmd CmdMore CmdFacts CmdMoreFacts Handlers.

Ltac run E := rewrite (completion_bind _ _ _ E); cbv beta iota zeta.

Section Reports.

Variable H : Host.
Variable this : CommandProcessor.
Variable CommandProfiles_get : JsValue -> string -> Completion JsValue.
Variable formatMessage : string -> list (string * JsValue) -> string.

(** What the handler logs for a profile whose name and type can be read. *)
Lemma logProfile_logs (format : string) (profile n t : JsValue) :
  get_prop profile "name" = Normal n ->
  get_prop profile "type" = Normal t ->
  logProfile formatMessage format profile
  = ([ConsoleLog (Text (formatMessage format [("name", n); ("type", t)]))],
     Normal tt).
Proof. intros Hn Ht. unfold logProfile, ibind, ilift. now rewrite Hn, Ht. Qed.

(** X27. Both profiles are loaded: [invoke] on a command handled by
    [UseDependentProfile] returns a successful snapshot, and the handler
    has logged two lines after what the response already held, the line of
    the dependency first, then the line of the main profile. *)
Theorem dependent_profiles_reported (params : option IInvokeCommandParms)
  (p : IInvokeCommandParms) (args args' : Arguments) (u : list string)
  (r1 r2 : CommandResponse) (v : ICommandValidatorResponse)
  (prepared : ICommandPrepared) (handlerPath : string)
  (dependencyProfile mainProfile n1 t1 n2 t2 : JsValue) :
  completion (ensureParameters this params) = Normal (p, args, u) ->
  completion (validate H this args (succeeded (constructResponseObject p)))
  = Normal (r1, Normal v) ->
  valid v = true ->
  completion (prepare H this r1 args) = Normal (r2, Normal (args', prepared)) ->
  handler (definition this) = Some handlerPath ->
  require_default H handlerPath
  = Normal (UseDependentProfile CommandProfiles_get formatMessage) ->
  CommandProfiles_get (profiles prepared) "profile-a"
  = Normal dependencyProfile ->
  get_prop dependencyProfile "name" = Normal n1 ->
  get_prop dependencyProfile "type" = Normal t1 ->
  CommandProfiles_get (profiles prepared) "profile-with-dependency"
  = Normal mainProfile ->
  get_prop mainProfile "name" = Normal n2 ->
  get_prop mainProfile "type" = Normal t2 ->
  exists json,
    completion (invoke H this params) = Normal (Some json)
    /\ success json = true
    /\ exitCode json = 0%Z
    /\ stdout json
       = mStdout r2
           ++ [Text (formatMessage
                       "Loaded profile dependency {{name}} of type {{type}}"
                       [("name", n1); ("type", t1)]);
               Text (formatMessage
                       "Loaded main profile {{name}} of type {{type}}"
                       [("name", n2); ("type", t2)])]
    /\ stderr json = mStderr r2.
Proof.
  intros Hpre Hval Hv Hprep Hh Hreq Hd Hn1 Ht1 Hm Hn2 Ht2.
  destruct (invoke_execute H this _ _ _ _ _ _ _ _ _ Hpre Hval Hv Hprep)
    as (Ec & _ & F2).
  set (hp := {| hp_profiles := profiles prepared; hp_arguments := args';
                hp_definition := definition this;
                hp_fullDefinition := fullDefinition this;
                isChained := false |}).
  assert (Hf : UseDependentProfile_process CommandProfiles_get formatMessage hp
               = ([ConsoleLog
                     (Text (formatMessage
                              "Loaded profile dependency {{name}} of type {{type}}"
                              [("name", n1); ("type", t1)]));
                   ConsoleLog
                     (Text (formatMessage
                              "Loaded main profile {{name}} of type {{type}}"
                              [("name", n2); ("type", t2)]))],
                  Normal tt)).
  { unfold UseDependentProfile_process, ibind, ilift. cbn [hp_profiles hp snd fst].
    rewrite Hd. cbn [snd fst app].
    rewrite (logProfile_logs _ _ _ _ Hn1 Ht1). cbn [snd fst app].
    rewrite Hm. cbn [snd fst app].
    rewrite (logProfile_logs _ _ _ _ Hn2 Ht2). reflexivity. }
  destruct (call_process_logged
              (UseDependentProfile CommandProfiles_get formatMessage)
              handlerPath hp r2 _ eq_refl)
    as (r3 & E3 & F3 & _ & O3 & X3).
  rewrite Hf in E3, O3, X3. cbn [fst snd] in E3, O3, X3.
  exists (buildJsonResponse (endProgressBar (succeeded r3))). split.
  - rewrite Ec. unfold execute. rewrite Hh. unfold invokeHandler.
    rewrite (attemptHandlerLoad_ok _ _ _ _ _ Hreq).
    rewrite completion_bind_pair. cbv beta iota zeta.
    fold hp. run E3.
    apply finish_completion. unfold format_ok. cbn. rewrite F3. exact F2.
  - cbn. rewrite O3, X3. cbn. rewrite app_nil_r. auto.
Qed.

(** A property read throws only the [TypeError] of the engine. *)
Lemma get_prop_throws_TypeError (v : JsValue) (key : string) (e : JsValue) :
  get_prop v key = Throw e -> exists what, e = TypeError what.
Proof.
  destruct v; cbn;
    repeat match goal with
           | |- context [if ?b then _ else _] => destruct b
           end;
    intros X; try discriminate X; injection X as <-; eauto.
Qed.

Lemma append_empty (s : string) : (s ++ EmptyString)%string = s.
Proof. induction s as [|c s IH]; cbn; congruence. Qed.

(** X28. The dependency is loaded but the main profile is not (its
    [get] throws, or gives a value whose name cannot be read): [invoke]
    returns a failed snapshot, and the line of the dependency, logged
    before the failure, is still the last line of its stdout.  The
    message of the error record is the one the value thrown maps to; when
    [get] threw, the whole record is; when the name could not be read,
    the record carries the stack of the [TypeError] of the engine, which
    begins with the name and the message of the error. *)
Theorem missing_main_profile_reported (params : option IInvokeCommandParms)
  (p : IInvokeCommandParms) (args args' : Arguments) (u : list string)
  (r1 r2 : CommandResponse) (v : ICommandValidatorResponse)
  (prepared : ICommandPrepared) (handlerPath : string)
  (dependencyProfile n1 t1 thrown : JsValue) :
  completion (ensureParameters this params) = Normal (p, args, u) ->
  completion (validate H this args (succeeded (constructResponseObject p)))
  = Normal (r1, Normal v) ->
  valid v = true ->
  completion (prepare H this r1 args) = Normal (r2, Normal (args', prepared)) ->
  handler (definition this) = Some handlerPath ->
  require_default H handlerPath
  = Normal (UseDependentProfile CommandProfiles_get formatMessage) ->
  CommandProfiles_get (profiles prepared) "profile-a"
  = Normal dependencyProfile ->
  get_prop dependencyProfile "name" = Normal n1 ->
  get_prop dependencyProfile "type" = Normal t1 ->
  (CommandProfiles_get (profiles prepared) "profile-with-dependency"
   = Throw thrown
   \/ exists mainProfile,
        CommandProfiles_get (profiles prepared) "profile-with-dependency"
        = Normal mainProfile
        /\ get_prop mainProfile "name" = Throw thrown) ->
  exists json,
    completion (invoke H this params) = Normal (Some json)
    /\ success json = false
    /\ exitCode json = 1%Z
    /\ option_map msg (error json) = option_map msg (error_mapping thrown)
    /\ (CommandProfiles_get (profiles prepared) "profile-with-dependency"
        = Throw thrown ->
        error json = error_mapping thrown)
    /\ (forall mainProfile,
          CommandProfiles_get (profiles prepared) "profile-with-dependency"
          = Normal mainProfile ->
          exists e frames,
            error json = Some e
            /\ stack e = Some ("TypeError: " ++ msg e ++ frames)%string)
    /\ stdout json
       = mStdout r2
           ++ [Text (formatMessage
                       "Loaded profile dependency {{name}} of type {{type}}"
                       [("name", n1); ("type", t1)])].
Proof.
  intros Hpre Hval Hv Hprep Hh Hreq Hd Hn1 Ht1 Hm.
  pose proof Hm as Hcase.
  destruct (invoke_execute H this _ _ _ _ _ _ _ _ _ Hpre Hval Hv Hprep)
    as (Ec & _ & F2).
  destruct (initial_format this _ _ _ _ Hpre) as [_ N0].
  destruct (validate_grown H this args (succeeded (constructResponseObject p)))
    as (r1' & E1 & G1 & _).
  rewrite Hval in E1. injection E1 as <- _.
  destruct (prepare_grown H this args r1) as (r2' & o & E2 & G2 & _).
  rewrite Hprep in E2. injection E2 as <- _.
  set (hp := {| hp_profiles := profiles prepared; hp_arguments := args';
                hp_definition := definition this;
                hp_fullDefinition := fullDefinition this;
                isChained := false |}).
  assert (Hf : UseDependentProfile_process CommandProfiles_get formatMessage hp
               = ([ConsoleLog
                     (Text (formatMessage
                              "Loaded profile dependency {{name}} of type {{type}}"
                              [("name", n1); ("type", t1)]))],
                  Throw thrown)).
  { unfold UseDependentProfile_process, ibind, ilift.
    cbn [hp_profiles hp snd fst].
    rewrite Hd. cbn [snd fst app].
    rewrite (logProfile_logs _ _ _ _ Hn1 Ht1). cbn [snd fst app].
    destruct Hm as [Hm | (mainProfile & Hm & Hn2)]; rewrite Hm;
      cbn [snd fst app]; [reflexivity|].
    unfold logProfile, ibind, ilift. rewrite Hn2. reflexivity. }
  destruct (call_process_logged
              (UseDependentProfile CommandProfiles_get formatMessage)
              handlerPath hp r2 _ eq_refl)
    as (r3 & E3 & F3 & Er3 & O3 & _).
  rewrite Hf in E3, O3. cbn [fst snd] in E3, O3.
  destruct (handleHandlerError_spec thrown r3 handlerPath)
    as (r4 & E4 & _ & F4 & Su4 & Er4 & _).
  pose proof (handleHandlerError_stdout _ _ _ _ E4) as O4.
  exists (buildJsonResponse r4). split.
  - rewrite Ec. unfold execute. rewrite Hh. unfold invokeHandler.
    rewrite (attemptHandlerLoad_ok _ _ _ _ _ Hreq).
    rewrite completion_bind_pair. cbv beta iota zeta.
    fold hp. run E3. run E4.
    apply finish_completion. unfold format_ok. rewrite F4, F3. exact F2.
  - assert (Ee : mError r4 = error_mapping thrown).
    { rewrite Er4. destruct (error_mapping thrown); [reflexivity|].
      rewrite Er3, (grown_error _ _ (grown_trans _ _ _ G1 G2)). exact N0. }
    cbn. rewrite Su4, Ee, O4, O3.
    split; [reflexivity|]. split; [reflexivity|]. split; [reflexivity|].
    split; [reflexivity|]. split; [|reflexivity].
    intros mainProfile Hg.
    destruct Hcase as [Ht | (mainProfile' & Hg' & Hn)]; [congruence|].
    destruct (get_prop_throws_TypeError _ _ _ Hn) as [what ->].
    eexists. exists EmptyString. split; [reflexivity|].
    cbn. now rewrite append_empty.
Qed.

End Reports.

End HandlersFacts.

(* ================================================================== *)
(** * The further properties on concrete commands *)
(* ================================================================== *)

Module ScenarioMoreFacts.

Import Cmd CmdMore Scenario ScenarioMore.

(** A handler made of a no-break space is blank: the pre-check fails. *)
Example blank_handler_fails_precheck :
  wellFormed
    {| mCommandRootName := "sample";
       mDefinition :=
         {| name := "greet"; type := "command";
            handler := Some (bytes [194; 160]); chainedHandlers := None |};
       mFullDefinition := greetDefinition |}
    greetParms
  = false.
Proof. reflexivity. Qed.

(** The handler of [greet] throws: every stage was called, once. *)
Lemma invoke_calls_follow_pipeline_witness :
  extends (calls (events (invoke throws42 greet greetParms)))
    (pipeline "/cli/greet.handler").
Proof.
  apply (CmdMoreFacts.invoke_calls_follow_pipeline throws42 greet greetParms
           "/cli/greet.handler").
  reflexivity.
Defined.

(** [greet] invoked silently, its handler logging and throwing. *)
Lemma silent_invoke_writes_nothing_witness :
  writes (events (invoke throws42 greet (Some silentParms))) = [].
Proof.
  apply (CmdMoreFacts.silent_invoke_writes_nothing throws42 greet silentParms
           "/cli/greet.handler"); reflexivity.
Defined.

(** [greet] invoked with the JSON format. *)
Lemma invoke_json_document_witness :
  documents (events (invoke greets greet (Some jsonParms)))
  = match completion (invoke greets greet (Some jsonParms)) with
    | Normal (Some json) =>
        if negb (silentOf jsonParms) && String.eqb (formatOf jsonParms) "json"
        then [json] else []
    | _ => []
    end.
Proof.
  apply (CmdMoreFacts.invoke_json_document greets greet jsonParms
           "/cli/greet.handler").
  reflexivity.
Defined.

(** Every collaborator throws on some arguments, and the handler throws
    the number 42; a snapshot is returned. *)
Lemma invoke_returns_snapshot_witness :
  exists json, completion (invoke picky greet greetParms) = Normal (Some json).
Proof.
  apply (CmdMoreFacts.invoke_returns_snapshot picky greet greetParms).
  - reflexivity.
  - intros X. discriminate X.
  - intros args e X. cbn in X.
    destruct (underscore args) as [[|a l]|]; try discriminate X;
      injection X as <-; reflexivity.
  - intros args e X. cbn in X.
    destruct (assoc "stdin" (options args)); try discriminate X;
      injection X as <-; reflexivity.
  - intros args e X. cbn in X.
    destruct (assoc "name" (options args)); try discriminate X;
      injection X as <-; reflexivity.
  - intros path e X. cbn in X.
    destruct (String.eqb path "/cli/greet.handler"); try discriminate X;
      injection X as <-; reflexivity.
Defined.

(** The handler marks the response as failed, then returns. *)
Lemma handler_return_response_witness :
  exists json,
    completion (invoke sulking greet greetParms) = Normal (Some json)
    /\ success json = true
    /\ exitCode json = 0%Z
    /\ error json = None
    /\ stdout json = [Text "hello"]
    /\ stderr json = [].
Proof.
  edestruct (CmdMoreFacts.handler_return_response sulking greet greetParms)
    as (json & Hc & Hs & Hx & He & Ho & Hr).
  - reflexivity.
  - reflexivity.
  - reflexivity.
  - reflexivity.
  - reflexivity.
  - reflexivity.
  - reflexivity.
  - reflexivity.
  - exists json. repeat split; assumption.
Defined.

(** The handler greets, then throws. *)
Lemma handler_throw_keeps_output_witness :
  exists json,
    completion (invoke throws42 greet greetParms) = Normal (Some json)
    /\ success json = false
    /\ stdout json = [Text "hello"]
    /\ extends [] (stderr json).
Proof.
  edestruct (CmdMoreFacts.handler_throw_keeps_output throws42 greet greetParms)
    as (json & Hc & Hs & Ho & Hr).
  - reflexivity.
  - reflexivity.
  - reflexivity.
  - reflexivity.
  - reflexivity.
  - reflexivity.
  - reflexivity.
  - reflexivity.
  - exists json. repeat split; assumption.
Defined.

(** The handler has no [process] method. *)
Lemma missing_process_method_witness :
  exists json,
    completion (invoke noProcess greet greetParms) = Normal (Some json)
    /\ success json = false
    /\ exitCode json = 1%Z
    /\ (exists frames,
          error json
          = Some {| msg := "handler.process is not a function";
                    additionalDetails := JsUndefined;
                    causeErrors := JsUndefined;
                    stack :=
                      Some ("TypeError: handler.process is not a function"
                              ++ frames)%string |})
    /\ message json
       = "Unexpected Command Error: handler.process is not a function"
    /\ processed (events (invoke noProcess greet greetParms)) = [].
Proof.
  edestruct (CmdMoreFacts.missing_process_method noProcess greet greetParms)
    as (json & Hc & Hs & Hx & He & Hm & _ & Hp).
  - reflexivity.
  - reflexivity.
  - reflexivity.
  - reflexivity.
  - reflexivity.
  - reflexivity.
  - reflexivity.
  - exists json. repeat split; assumption.
Defined.

(** A chain of three steps whose second step rejects. *)
Lemma chain_calls_in_order_witness :
  extends (calls (events (invoke chainHost (deploy threeSteps) deployParms)))
    ([CallValidate; CallReadStdin; CallLoadProfiles] ++ chainCalls threeSteps).
Proof.
  apply (CmdMoreFacts.chain_calls_in_order chainHost (deploy threeSteps)
           deployParms threeSteps); reflexivity.
Defined.

(** The module of the second step of a chain cannot be loaded. *)
Lemma chain_load_failure_response_witness :
  exists json,
    completion (invoke buildHost (deploy threeSteps) deployParms)
    = Normal (Some json)
    /\ success json = false
    /\ message json
       = "Could not instantiate the handler /cli/test for command deploy"
    /\ stdout json = []
    /\ processed (events (invoke buildHost (deploy threeSteps) deployParms))
       = ["/cli/build"].
Proof.
  edestruct (CmdMoreFacts.chain_load_failure_response buildHost
               (deploy threeSteps) deployParms)
    with (pre := [step "/cli/build"]) (e := step "/cli/test")
         (post := [step "/cli/publish"]) (m := "Cannot find module"%string)
    as (json & Hc & Hs & Hm & _ & Ho & Hp).
  - reflexivity.
  - reflexivity.
  - reflexivity.
  - reflexivity.
  - reflexivity.
  - reflexivity.
  - eapply ChainRun_cons; [reflexivity | apply ChainRun_nil].
  - reflexivity.
  - reflexivity.
  - exists json. repeat split; assumption.
Defined.

(** After the first step of a chain, which has set its data. *)
Lemma chain_index_counts_results_witness :
  exists st,
    ChainRun artifactHost (deploy threeSteps) deployArguments
      noProfilesPrepared threeSteps fresh [step "/cli/build"] chainStart st
    /\ chainedHandlerIndex st = 1
    /\ chainedResponses st = [JsObject [("artifact", JsString "app.tgz")]]
    /\ bufferedStdOut st = [Text "built"].
Proof.
  assert (R : ChainRun artifactHost (deploy threeSteps) deployArguments
                noProfilesPrepared threeSteps fresh [step "/cli/build"]
                chainStart
                (chainNext chainStart
                   (bufferStdout
                      (setObj
                         (newChainedResponse artifactHost (step "/cli/build")
                            deployArguments chainStart)
                         (JsObject [("artifact", JsString "app.tgz")]))
                      [Text "built"])))
    by (eapply ChainRun_cons; [reflexivity | apply ChainRun_nil]).
  eexists. split; [exact R|].
  destruct (CmdMoreFacts.chain_index_counts_results artifactHost
              (deploy threeSteps) deployArguments noProfilesPrepared
              threeSteps fresh [step "/cli/build"] _ R)
    as (crs & C & L & I & D & _ & O & _).
  split; [exact I|]. split; reflexivity.
Defined.

(** A chain of two steps, invoked silently with the JSON option set; the
    steps are not marked silent. *)
Lemma chain_json_document_witness :
  exists cr,
    completion
      (invoke buildHost (deploy [loud "/cli/build"; loud "/cli/publish"])
         silentJsonDeployParms)
    = Normal (Some (buildJsonResponse cr))
    /\ documents
         (events
            (invoke buildHost (deploy [loud "/cli/build"; loud "/cli/publish"])
               silentJsonDeployParms))
       = [buildJsonResponse cr].
Proof.
  edestruct (CmdMoreFacts.chain_json_document buildHost
               (deploy [loud "/cli/build"; loud "/cli/publish"])
               silentJsonDeployParms)
    with (pre := [loud "/cli/build"]) (e := loud "/cli/publish")
    as [Hc Hd].
  - reflexivity.
  - reflexivity.
  - reflexivity.
  - reflexivity.
  - reflexivity.
  - reflexivity.
  - eapply ChainRun_cons; [reflexivity | apply ChainRun_nil].
  - reflexivity.
  - eexists. split; [exact Hc | exact Hd].
Defined.

(** The invocation is silent, the step is not: the step is heard. *)
Lemma step_output_ignores_invocation_silence_witness :
  In (WriteStdout (Text "built"))
    (events (invoke buildHost (deploy [loud "/cli/build"])
               silentDeployParms)).
Proof.
  eapply (CmdMoreFacts.step_output_ignores_invocation_silence buildHost
            (deploy [loud "/cli/build"]) silentDeployParms)
    with (pre := []) (e := loud "/cli/build") (post := [])
         (acts := [ConsoleLog (Text "built")]).
  - reflexivity.
  - reflexivity.
  - reflexivity.
  - reflexivity.
  - reflexivity.
  - reflexivity.
  - apply ChainRun_nil.
  - reflexivity.
  - reflexivity.
  - reflexivity.
  - reflexivity.
  - reflexivity.
  - reflexivity.
  - left. reflexivity.
Defined.

(** The help of [greet] on a fresh response. *)
Lemma help_response_witness :
  exists json,
    completion (help greetInstance (Some fresh)) = Normal json
    /\ data json = JsString "Usage: sample greet"
    /\ stdout json = [Raw "Usage: sample greet"]
    /\ message json = "The help was constructed for command: greet."
    /\ documents (events (help greetInstance (Some fresh))) = []
    /\ events (help greetInstance (Some fresh))
       = [WriteStdout (Raw "Usage: sample greet")].
Proof.
  edestruct (CmdMoreFacts.help_response greetInstance fresh
               "Usage: sample greet")
    as (json & Hc & Hd & Ho & _ & Hm & _ & _ & Hj & He).
  - reflexivity.
  - left. reflexivity.
  - exists json. split; [exact Hc|]. split; [exact Hd|]. split; [exact Ho|].
    split; [exact Hm|]. split; [exact Hj|]. apply He. reflexivity.
Defined.

(** The processor of [greet], as the constructor builds it. *)
Lemma constructed_command_is_invocable_witness :
  wellFormed (processor greetInstance) greetParms = true.
Proof.
  apply (CmdMoreFacts.constructed_command_is_invocable
           (Some greetProcessorParms) greetInstance _ greetArguments ["greet"]).
  - reflexivity.
  - reflexivity.
  - reflexivity.
  - reflexivity.
  - left. reflexivity.
Defined.

End ScenarioMoreFacts.

(* ================================================================== *)
(** * The properties of [Imperative] on a concrete application *)
(* ================================================================== *)

Module ImperativeScenarioFacts.

Import Imperative ImperativeScenario.

(** Of the two configurations of type "zosmf", the second is found. *)
Lemma getProfileConfiguration_finds_last_witness :
  exists found,
    getProfileConfiguration "zosmf" loaded = (([], loaded), Normal found)
    /\ found = Some zosmfAgain.
Proof.
  destruct (ImperativeFacts.getProfileConfiguration_finds_last "zosmf" loaded
              sampleConfig eq_refl) as (found & E & _ & _).
  exists found. split; [exact E|].
  vm_compute in E. injection E as <-. reflexivity.
Defined.

Lemma profiles_initialized_iff_findable_witness :
  (exists parms,
      calls (initProfiles friendly loaded) = [InitializeProfiles parms])
  <-> exists ty c,
        completion (getProfileConfiguration ty loaded) = Normal (Some c).
Proof.
  apply (ImperativeFacts.profiles_initialized_iff_findable friendly loaded
           sampleConfig).
  reflexivity.
Defined.

(** The validator throws a plain [Error]: it comes wrapped. *)
Lemma init_rejects_with_ImperativeError_witness :
  completion (init strict None pristine)
  = Throw (rejection (JsError "The configuration has no definitions" None))
  /\ is_ImperativeError
       (rejection (JsError "The configuration has no definitions" None)) = true
  /\ get_prop (rejection (JsError "The configuration has no definitions" None))
       "causeErrors"
     = Normal (JsError "The configuration has no definitions" None).
Proof.
  destruct (ImperativeFacts.init_rejects_with_ImperativeError strict None
              pristine
              (rejection (JsError "The configuration has no definitions" None))
              eq_refl)
    as (I & error & E & _ & _ & X).
  split; [reflexivity|]. split; [exact I|].
  vm_compute in E. injection E as <-.
  exact (X eq_refl).
Defined.

Lemma invalid_configuration_is_not_installed_witness :
  completion (init strict None pristine)
  = Throw (rejection (JsError "The configuration has no definitions" None))
  /\ calls (init strict None pristine)
     = [LoadConfiguration; ValidateConfiguration]
  /\ loadedConfig (statics (init strict None pristine)) = None
  /\ mApi (statics (init strict None pristine)) = None.
Proof.
  destruct (ImperativeFacts.invalid_configuration_is_not_installed strict None
              pristine "/usr/lib/sample/lib/main.js" sampleConfig
              (JsError "The configuration has no definitions" None)
              eq_refl eq_refl eq_refl)
    as (A & B & C & D & _).
  repeat split; assumption.
Defined.

Lemma friendly_cooperative : Cooperative friendly.
Proof.
  constructor; intros; try reflexivity;
    try (eexists; split; [reflexivity | discriminate]);
    try (eexists; reflexivity).
Qed.

(** The application starts in a friendly environment. *)
Lemma init_fulfils_witness :
  exists t s' a,
    init friendly None pristine = ((t, s'), Normal tt)
    /\ mApi s' = Some a
    /\ completion (api friendly s') = Normal a
    /\ mRootCommandName s' = Some "/usr/lib/sample/lib/main.js"
    /\ mFullCommandTree s' = Some sampleTree.
Proof.
  destruct (ImperativeFacts.init_fulfils friendly None pristine
              friendly_cooperative)
    as (t & s' & a & tree & file & E & A & G & F & _ & R & T & _).
  exists t, s', a. split; [exact E|]. split; [exact A|]. split; [exact G|].
  injection F as <-. split; [exact R|].
  rewrite T. vm_compute in E. injection E as _ <-. cbn in T.
  injection T as <-. reflexivity.
Defined.

(** In a friendly environment the run of [init] ends with the definition
    of the commands of some prepared tree. *)
Lemma init_defines_every_command_witness :
  exists t0 tree cs,
    calls (init friendly None pristine)
    = t0 ++ [ConfigureYargs; DefineOptions (options tree)]
         ++ map DefineCommand cs
    /\ mFullCommandTree (statics (init friendly None pristine)) = Some tree
    /\ children tree = Some cs
    /\ completion (init friendly None pristine) = Normal tt.
Proof.
  exact (ImperativeFacts.init_defines_every_command friendly None pristine
           friendly_cooperative).
Defined.

(** The loggers "audit" and "trace" are added, in that order. *)
Lemma api_object_loggers_witness :
  exists a,
    constructApiObject friendly loaded = (([], loaded), Normal a)
    /\ map fst (additionalLoggers a) = ["audit"; "trace"].
Proof.
  destruct (ImperativeFacts.api_object_loggers friendly loaded sampleConfig
              eq_refl) as (a & E & L).
  exists a. split; [exact E|]. rewrite L. reflexivity.
Defined.

(** With the plugins turned off, the facility is left alone, and the
    initialization completes. *)
Lemma plugins_off_never_called_witness :
  ~ In InitPlugins (calls (init cautious None pristine))
  /\ ~ In AddPluginsToHostCli (calls (init cautious None pristine)).
Proof.
  apply (ImperativeFacts.plugins_off_never_called cautious).
  - intros c c' Hc X. cbn in X. injection X as <-. exact Hc.
  - intros c0 c1 X Y. cbn in X, Y. injection X as <-. injection Y as <-.
    reflexivity.
Defined.

End ImperativeScenarioFacts.

(* ================================================================== *)
(** * [UseDependentProfile] on concrete profiles *)
(* ================================================================== *)

Module HandlerScenarioFacts.

Import Cmd Scenario Handlers HandlerScenario.

Lemma dependent_profiles_reported_witness :
  exists json,
    completion (invoke (reporting bothProfiles) greet greetParms)
    = Normal (Some json)
    /\ success json = true
    /\ stdout json
       = [Text "Loaded profile dependency {{name}} of type {{type}} <- first,profile-a";
          Text "Loaded main profile {{name}} of type {{type}} <- main,profile-with-dependency"].
Proof.
  edestruct (HandlersFacts.dependent_profiles_reported (reporting bothProfiles)
               greet bothProfiles render greetParms)
    as (json & Hc & Hs & _ & Ho & _).
  - reflexivity.
  - reflexivity.
  - reflexivity.
  - reflexivity.
  - reflexivity.
  - reflexivity.
  - reflexivity.
  - reflexivity.
  - reflexivity.
  - reflexivity.
  - reflexivity.
  - reflexivity.
  - exists json. repeat split; assumption.
Defined.

Lemma missing_main_profile_reported_witness :
  exists json,
    completion (invoke (reporting onlyDependency) greet greetParms)
    = Normal (Some json)
    /\ success json = false
    /\ option_map msg (error json)
       = Some "Cannot read property 'name' of undefined"%string
    /\ (exists e frames,
          error json = Some e
          /\ stack e = Some ("TypeError: " ++ msg e ++ frames)%string)
    /\ stdout json
       = [Text "Loaded profile dependency {{name}} of type {{type}} <- first,profile-a"].
Proof.
  edestruct (HandlersFacts.missing_main_profile_reported
               (reporting onlyDependency) greet onlyDependency render
               greetParms)
    with (thrown := TypeError "Cannot read property 'name' of undefined")
    as (json & Hc & Hs & _ & He & _ & Hk & Ho).
  - reflexivity.
  - reflexivity.
  - reflexivity.
  - reflexivity.
  - reflexivity.
  - reflexivity.
  - reflexivity.
  - reflexivity.
  - reflexivity.
  - right. exists JsUndefined. split; reflexivity.
  - exists json. split; [exact Hc|]. split; [exact Hs|]. split; [exact He|].
    split; [|exact Ho]. apply (Hk JsUndefined). reflexivity.
Defined.

End HandlerScenarioFacts.
